(** * Meeting-Notes: capture sessions, device listing, transcription jobs
      and the segment merger

    A shallow embedding of
      - [backend/app/services/transcription_service.py] ([_merge_and_filter],
        the rows the worker builds, [start_transcription_job]),
      - [backend/app/api/devices.py] ([list_devices]),
      - [backend/app/services/audio_capture.py] ([start_recording],
        [stop_recording] and the per-block capture callbacks),
      - [backend/app/api/meetings.py] ([start_meeting], [stop_meeting]),
    together with the properties the specification states about them and
    further properties read off the code.

    Python objects that the code mutates in place (the segment dicts, the
    stream bundle) live in explicit stores; exceptions are explicit results. *)

From Stdlib Require Import ZArith List Lia Bool String Ascii.
From stdpp Require Import base numbers list sorting gmap strings pretty.

Open Scope Z_scope.

(* ===================================================================== *)
(** * Segment merger ([transcription_service.py]) *)
(* ===================================================================== *)

Module Merger.

(** A Python [str] is a sequence of code points. *)
Definition pystr := list N.

Definition str (s : string) : pystr :=
  map (fun a => N_of_ascii a) (list_ascii_of_string s).

(** The code points [str.strip()] removes: the ones [str.isspace()] accepts. *)
Definition is_space (c : N) : bool :=
  ((9 <=? c) && (c <=? 13) || (28 <=? c) && (c <=? 32) ||
   (c =? 133) || (c =? 160) || (c =? 5760) ||
   (8192 <=? c) && (c <=? 8202) || (c =? 8232) || (c =? 8233) ||
   (c =? 8239) || (c =? 8287) || (c =? 12288))%N.

Fixpoint lstrip (s : pystr) : pystr :=
  match s with
  | c :: s' => if is_space c then lstrip s' else s
  | [] => []
  end.

Definition strip (s : pystr) : pystr := rev (lstrip (rev (lstrip s))).

(** A segment dict as [asr_engine.transcribe_file] builds it (the caller adds
    ["speaker"]).  Every key is optional for [dict.get]; the timestamps are
    Python ints. *)
Record segment := Segment {
  t_start_ms : option Z;
  t_end_ms   : option Z;
  text       : option pystr;
  speaker    : option string;
  confidence : option Z;   (* a float, opaque to the merger: its bit pattern *)
}.

#[global] Instance segment_inhabited : Inhabited segment :=
  populate (Segment None None None None None).

(** [int(s.get("t_start_ms", 0))], [int(s.get("t_end_ms", 0))] and
    [s.get("text", "").strip()]. *)
Definition get_start (s : segment) : Z := default 0 (t_start_ms s).
Definition get_end (s : segment) : Z := default 0 (t_end_ms s).
Definition get_text (s : segment) : pystr := strip (default [] (text s)).

(** [d["t_end_ms"] = v] *)
Definition set_end (s : segment) (v : Z) : segment :=
  {| t_start_ms := t_start_ms s; t_end_ms := Some v; text := text s;
     speaker := speaker s; confidence := confidence s |}.

(** Dict objects have identity: the input lists hold references, and the
    loop writes through [dedup[-1]]. *)
Definition loc := nat.
Abbreviation heap := (gmap loc segment).

(** The sort key [(int(start), int(end))] and the tuple order on it. *)
Definition seg_key (s : segment) : Z * Z := (get_start s, get_end s).

Definition key_le (a b : Z * Z) : bool :=
  (a.1 <? b.1) || ((a.1 =? b.1) && (a.2 <=? b.2)).

Definition key_at (h : heap) (l : loc) : Z * Z := seg_key (h !!! l).

(** [list.sort(key=...)] is a stable sort on keys computed once; a stable
    insertion sort returns the same list. *)
Fixpoint insert_by (k : loc -> Z * Z) (x : loc) (l : list loc) : list loc :=
  match l with
  | [] => [x]
  | y :: l' => if key_le (k x) (k y) then x :: l else y :: insert_by k x l'
  end.

Definition sort_by_key (k : loc -> Z * Z) (l : list loc) : list loc :=
  foldr (insert_by k) [] l.

Definition _filter_and_merge_adjacent (segs : list loc) : list loc := segs.

(** The condition of the [if] in the loop, once [dedup] is non-empty. *)
Definition is_dup (window : Z) (h : heap) (prev cur : loc) : bool :=
  bool_decide (get_text (h !!! cur) = get_text (h !!! prev)) &&
  (get_start (h !!! cur) - get_start (h !!! prev) <? window).

(** [dedup[-1]["t_end_ms"] = max(int(dedup[-1].get(..)), int(s.get(..)))] *)
Definition extend_prev (h : heap) (prev cur : loc) : heap :=
  <[prev := set_end (h !!! prev)
              (Z.max (get_end (h !!! prev)) (get_end (h !!! cur)))]> h.

(** One iteration of [for s in all_segs]. *)
Definition dedup_step (st : heap * list loc) (s : loc) : heap * list loc :=
  let '(h, dedup) := st in
  match last dedup with
  | Some p =>
      if is_dup 500 h p s then (extend_prev h p s, dedup)
      else (h, dedup ++ [s])
  | None => (h, dedup ++ [s])
  end.

Definition _merge_and_filter (h : heap) (mic sys : list loc)
  : heap * list loc :=
  let all_segs := _filter_and_merge_adjacent (mic ++ sys) in
  let all_segs := sort_by_key (key_at h) all_segs in
  fold_left dedup_step all_segs (h, []).

(** What the caller sees: the returned dicts, read after the call. *)
Definition deref (h : heap) (ls : list loc) : list segment :=
  (fun l => h !!! l) <$> ls.

Definition merged_values (h : heap) (mic sys : list loc) : list segment :=
  let '(h', out) := _merge_and_filter h mic sys in deref h' out.

(** Fresh dicts for a list of segment values, from address [n] on. *)
Fixpoint alloc (h : heap) (n : loc) (vs : list segment) : heap :=
  match vs with
  | [] => h
  | v :: vs' => alloc (<[n := v]> h) (S n) vs'
  end.

Definition seg (a b : Z) (t who : string) : segment :=
  Segment (Some a) (Some b) (Some (str t)) (Some who) None.

(** Three dicts; the second and third carry the same text. *)
Definition shared_heap : heap :=
  alloc ∅ 0%nat [seg 0 10 "x" "You"; seg 0 10 "y" "You"; seg 0 20 "y" "You"].

(** Two dicts with the same text and start, given in the order (late, early). *)
Definition swapped_heap : heap :=
  alloc ∅ 0%nat [seg 0 20 "x" "You"; seg 0 10 "x" "Remote"].

(** ** The specification's wording of the walk

    Section 4.7: compare each segment of the sorted sequence with the previous
    emitted one; a duplicate extends that one's end and is discarded, anything
    else is emitted as a new entry.  The wording is set down on its own terms:
    trimming is said by what it removes, the window test and the extension by
    the fields they read and write. *)






(** Lexicographic order on [(start, end)]. *)
Definition lex_le (a b : Z * Z) : Prop :=
  a.1 < b.1 \/ (a.1 = b.1 /\ a.2 <= b.2).

Definition seg_le (s1 s2 : segment) : Prop := lex_le (seg_key s1) (seg_key s2).

(** No two neighbours of [l] are duplicates of each other (section 3). *)
Definition no_adjacent_dup (window : Z) (h : heap) (l : list loc) : Prop :=
  forall i p s, l !! i = Some p -> l !! S i = Some s ->
                is_dup window h p s = false.

(** [merge(m, []) == m] for [m = merge(a, b)], both sides read once the
    second call has returned. *)
Definition merge_idempotent_at (h : heap) (mic sys : list loc) : Prop :=
  let '(h1, m) := _merge_and_filter h mic sys in
  let '(h2, m2) := _merge_and_filter h1 m [] in
  deref h2 m2 = deref h2 m.

(** [merge(merge(a, b), []) == merge(a, b)] as Python evaluates it: the left
    operand first, then [merge(a, b)] once more for the right operand, on the
    dicts the first call has written into, then [==] on the two lists. *)
Definition merge_idempotent_as_stated (h : heap) (mic sys : list loc) : Prop :=
  let '(h1, m1) := _merge_and_filter h mic sys in
  let '(h2, m2) := _merge_and_filter h1 m1 [] in
  let '(h3, m3) := _merge_and_filter h2 mic sys in
  deref h3 m2 = deref h3 m3.

(** [l'] is the stable sort of [l] by [k]: sorted by key, and for every key
    value the entries carrying it appear exactly as in [l]. *)
Definition key_rel (k : loc -> Z * Z) (x y : loc) : Prop := lex_le (k x) (k y).

Definition stable_sorted (k : loc -> Z * Z) (l l' : list loc) : Prop :=
  StronglySorted (key_rel k) l' /\
  forall c, filter (fun x => k x = c) l' = filter (fun x => k x = c) l.

End Merger.

(* ===================================================================== *)
(** * Python results, exceptions and the audio libraries' surface *)
(* ===================================================================== *)

Module Py.

(** The values the modelled dicts hold. Sample rates are floats holding whole
    numbers in the backend's answers; [int()] makes them ints at once. *)
Inductive pyval :=
| PNone
| PStr (s : string)
| PInt (n : Z).

#[global] Instance pyval_eq_dec : EqDecision pyval.
Proof. solve_decision. Defined.

Inductive pyexn :=
| RuntimeError (msg : string)
| ValueError
| TypeError
| ValidationError
| LibraryError.   (* raised inside sounddevice, soundcard, wave or the OS *)

Inductive outcome (A : Type) :=
| Return (a : A)
| Raise (e : pyexn).
Arguments Return {A} a.
Arguments Raise {A} e.

(** A computation on a mutable state that may raise; what it has written
    before raising stays written. *)
Definition M (S A : Type) : Type := S -> S * outcome A.

Definition ret {S A} (a : A) : M S A := fun s => (s, Return a).

Definition bind {S A B} (m : M S A) (f : A -> M S B) : M S B := fun s =>
  match m s with
  | (s', Return a) => f a s'
  | (s', Raise e) => (s', Raise e)
  end.

Declare Scope py_scope.
Delimit Scope py_scope with py.
Notation "x ← y ; z" := (bind y (fun x => z))
  (at level 20, y at level 100, z at level 200, only parsing) : py_scope.
Notation "x ;; z" := (bind x (fun _ => z))
  (at level 100, z at level 200, only parsing, right associativity) : py_scope.

Definition raise {S A} (e : pyexn) : M S A := fun s => (s, Raise e).
Definition gets {S A} (f : S -> A) : M S A := fun s => (s, Return (f s)).
Definition modify {S} (f : S -> S) : M S unit := fun s => (f s, Return tt).

(** [try: m  except Exception: h] *)
Definition try_except {S A} (m : M S A) (h : pyexn -> M S A) : M S A := fun s =>
  match m s with
  | (s', Return a) => (s', Return a)
  | (s', Raise e) => h e s'
  end.

(** [try: m  finally: f] *)
Definition try_finally {S A} (m : M S A) (f : M S unit) : M S A := fun s =>
  match m s with
  | (s', Return a) =>
      match f s' with
      | (s'', Return _) => (s'', Return a)
      | (s'', Raise e) => (s'', Raise e)
      end
  | (s', Raise e) =>
      match f s' with
      | (s'', Return _) => (s'', Raise e)
      | (s'', Raise e') => (s'', Raise e')
      end
  end.

(** An oracle answer [None] is the library call raising. *)
Definition lift {S A} (e : pyexn) (o : option A) : M S A :=
  match o with
  | Some a => ret a
  | None => raise e
  end.

Definition check {S} (e : pyexn) (ok : bool) : M S unit :=
  if ok then ret tt else raise e.

Definition when {S} (c : bool) (m : M S unit) : M S unit :=
  if c then m else ret tt.

(** [I] is an invariant of [m], kept also when [m] raises, and every value
    [m] returns satisfies [Q]. *)
Definition keeps {S A} (I : S -> Prop) (m : M S A) (Q : A -> Prop) : Prop :=
  forall s, I s -> I (m s).1 /\ forall a, (m s).2 = Return a -> Q a.

Definition returns {S A} (r : S * outcome A) : Prop :=
  match r.2 with
  | Return _ => True
  | Raise _ => False
  end.

End Py.

Import Py.
Open Scope py_scope.

Module Backend.

(** A device dict of [sd.query_devices]. *)
Abbreviation dev_info := (gmap string pyval).

Inductive track := Mic | System.

#[global] Instance track_eq_dec : EqDecision track.
Proof. solve_decision. Defined.

#[global] Instance track_countable : Countable track.
Proof.
  refine (inj_countable' (fun t => match t with Mic => true | System => false end)
                         (fun b => if b then Mic else System) _).
  by intros [].
Defined.

(** The arguments of [sd.InputStream(...)]; [dtype] is always float32. *)
Record stream_request := StreamRequest {
  rq_device : Z;
  rq_channels : Z;
  rq_samplerate : Z;
  rq_blocksize : Z;
  rq_loopback : bool;   (* [extra_settings] is a WASAPI loopback setting *)
}.

(** What the process finds outside itself when it runs: which optional
    modules were importable, and how each library call answers. *)
Record env := Env {
  sd_loaded : bool;                         (* [sd is not None] *)
  sc_loaded : bool;                         (* [sc is not None] *)
  audio_dir : string;                       (* [settings.audio_dir] *)
  py_int : string -> option Z;              (* [int(s)]; [None]: ValueError *)
  sd_query_all : option (list dev_info);    (* [sd.query_devices()] *)
  sd_default_device : option (option Z * option Z);   (* [sd.default.device] *)
  sd_query : Z -> option dev_info;          (* [sd.query_devices(dev)] *)
  sd_query_output : Z -> option dev_info;   (* [sd.query_devices(dev, "output")] *)
  wasapi_available : bool;                  (* [sd.WasapiSettings(loopback=True)] *)
  stream_create_ok : stream_request -> bool;   (* [sd.InputStream(...)] *)
  stream_start_ok : stream_request -> bool; (* [stream.start()] *)
  stream_stop_ok : string -> track -> bool; (* [stream.stop()] *)
  stream_close_ok : string -> track -> bool;   (* [stream.close()] *)
  wav_open_ok : string -> bool;             (* [mkdir] and [wave.open(path, "wb")] *)
  wav_write_ok : string -> list Z -> bool;  (* [writeframes] on an open writer *)
  wav_close_ok : string -> bool;            (* [Wave_write.close()] *)
  thread_start_ok : bool;                   (* [Thread.start()] *)
  thread_join_ok : bool;                    (* the thread ends within the timeout *)
}.

(** The floating-point kernels (NumPy, soxr), kept abstract. *)
Record dsp := Dsp {
  block : Type;                             (* an [indata] array *)
  samples : Type;                           (* a mono float32 array *)
  to_mono_f32 : block -> samples;   (* [_to_mono_int16(x).astype(np.float32) / 32768.0] *)
  soxr_resample : samples -> Z -> Z -> option samples;   (* [None]: it raises *)
  encode_pcm16 : samples -> list Z; (* [np.clip(f32 * 32767.0, ..).astype(np.int16).tobytes()] *)
  frame_count : samples -> Z;               (* [f32.shape[0]] *)
}.

(** [int(v)] on a dict value. *)
Definition to_int {S} (E : env) (v : pyval) : M S Z :=
  match v with
  | PInt n => ret n
  | PStr s => lift ValueError (py_int E s)
  | PNone => raise TypeError
  end.

(** Python truthiness of a dict value, for [v or d]. *)
Definition truthy (v : pyval) : bool :=
  match v with
  | PNone => false
  | PStr s => negb (bool_decide (s = ""))
  | PInt n => negb (n =? 0)
  end.

Definition default_input (E : env) : option Z :=
  match sd_default_device E with
  | Some (i, _) => i
  | None => None
  end.

Definition default_output (E : env) : option Z :=
  match sd_default_device E with
  | Some (_, o) => o
  | None => None
  end.

End Backend.

Import Backend.

(* ===================================================================== *)
(** * Device registry ([api/devices.py]) *)
(* ===================================================================== *)

Module Devices.

Record Device := mkDevice {
  id : string;
  name : string;
  kind : string;   (* input | output *)
  is_default : bool;
}.

(** The two lists the function appends to; they survive an exception. *)
Record listing := Listing {
  inputs : list Device;
  outputs : list Device;
}.

Definition push_input (d : Device) (l : listing) : listing :=
  {| inputs := inputs l ++ [d]; outputs := outputs l |}.

Definition push_output (d : Device) (l : listing) : listing :=
  {| inputs := inputs l; outputs := outputs l ++ [d] |}.

(** [v > 0] for a dict value: ordering [None] or a [str] against an int is a
    TypeError. *)
Definition gt_zero (v : pyval) : M listing bool :=
  match v with
  | PInt n => ret (0 <? n)
  | _ => raise TypeError
  end.

(** [Device(id=.., name=.., kind=.., is_default=..)]: the model validates
    that [name] is a [str]. *)
Definition make_device (idx : nat) (nm : pyval) (knd : string)
    (dflt : option Z) : M listing Device :=
  match nm with
  | PStr s => ret (mkDevice (pretty idx) s knd
                             (bool_decide (Some (Z.of_nat idx) = dflt)))
  | _ => raise ValidationError
  end.

(** The body of [for idx, dev in enumerate(devices)]. *)
Definition visit (default_in default_out : option Z) (idx : nat)
    (dev : dev_info) : M listing unit :=
  let nm := default (PStr ("Device " +:+ pretty idx)) (dev !! "name") in
  is_in ← gt_zero (default (PInt 0) (dev !! "max_input_channels"));
  (if is_in then d ← make_device idx nm "input" default_in; modify (push_input d)
   else ret tt);;
  is_out ← gt_zero (default (PInt 0) (dev !! "max_output_channels"));
  (if is_out then d ← make_device idx nm "output" default_out; modify (push_output d)
   else ret tt).

Fixpoint enumerate_from (default_in default_out : option Z) (idx : nat)
    (devices : list dev_info) : M listing unit :=
  match devices with
  | [] => ret tt
  | dev :: rest =>
      visit default_in default_out idx dev;;
      enumerate_from default_in default_out (S idx) rest
  end.

Definition list_devices (E : env) : outcome listing :=
  let run : M listing unit :=
    if negb (sd_loaded E) then ret tt
    else
      try_except
        (devices ← lift LibraryError (sd_query_all E);
         enumerate_from (default_input E) (default_output E) 0%nat devices)
        (fun _ => ret tt) in
  match run (Listing [] []) with
  | (l, Return _) => Return l
  | (_, Raise e) => Raise e
  end.

(** What section 4.1 asks of a descriptor: it stands for an entry of the
    backend's enumeration, and its default flag says whether that entry's
    index is the backend's default. *)
Definition listed_from (devices : list dev_info) (dflt : option Z)
    (d : Device) : Prop :=
  exists idx dev,
    devices !! idx = Some dev /\
    id d = pretty idx /\
    is_default d = bool_decide (Some (Z.of_nat idx) = dflt).

Definition all_listed (devices : list dev_info) (din dout : option Z)
    (l : listing) : Prop :=
  Forall (listed_from devices din) (inputs l) /\
  Forall (listed_from devices dout) (outputs l).

(** A two-device host: a microphone (the default input) and a speaker. *)
Definition demo_devices : list dev_info :=
  [ {[ "name" := PStr "Mic"; "max_input_channels" := PInt 2;
       "max_output_channels" := PInt 0 ]};
    {[ "name" := PStr "Speakers"; "max_input_channels" := PInt 0;
       "max_output_channels" := PInt 2 ]} ].

Definition demo_env : env :=
  {| sd_loaded := true; sc_loaded := true; audio_dir := "audio";
     py_int := fun _ => None;
     sd_query_all := Some demo_devices;
     sd_default_device := Some (Some 0, Some 1);
     sd_query := fun _ => None; sd_query_output := fun _ => None;
     wasapi_available := false;
     stream_create_ok := fun _ => false; stream_start_ok := fun _ => false;
     stream_stop_ok := fun _ _ => true; stream_close_ok := fun _ _ => true;
     wav_open_ok := fun _ => true; wav_write_ok := fun _ _ => true;
     wav_close_ok := fun _ => true;
     thread_start_ok := true; thread_join_ok := true |}.

End Devices.

(* ===================================================================== *)
(** * Recording sessions ([services/audio_capture.py]) *)
(* ===================================================================== *)

Module Capture.

Definition DEFAULT_BLOCKSIZE : Z := 4096.

(** Streams and writers are held by handle: a stream by the request that
    opened it, a [Wave_write] by the path it was opened on. *)
Record _StreamBundle := StreamBundle {
  mic_stream : option stream_request;
  sys_stream : option stream_request;
  mic_wav : option string;
  sys_wav : option string;
  mic_frames : Z;
  sys_frames : Z;
  sys_thread : option unit;
  sys_stop_event : option unit;
  mic_rate : option Z;
  mic_channels : option Z;
  sys_rate : option Z;
  sys_channels : option Z;
  sys_backend : option string;   (* "sounddevice" | "soundcard" *)
  target_rate : Z;
}.

(** [_StreamBundle(mic_stream=None, sys_stream=None, mic_wav=None, sys_wav=None)] *)
Definition new_bundle : _StreamBundle :=
  StreamBundle None None None None 0 0 None None None None None None None 48000.

Definition set_mic_stream (v : option stream_request) (b : _StreamBundle) :=
  StreamBundle v (sys_stream b) (mic_wav b) (sys_wav b) (mic_frames b)
    (sys_frames b) (sys_thread b) (sys_stop_event b) (mic_rate b)
    (mic_channels b) (sys_rate b) (sys_channels b) (sys_backend b) (target_rate b).
Definition set_sys_stream (v : option stream_request) (b : _StreamBundle) :=
  StreamBundle (mic_stream b) v (mic_wav b) (sys_wav b) (mic_frames b)
    (sys_frames b) (sys_thread b) (sys_stop_event b) (mic_rate b)
    (mic_channels b) (sys_rate b) (sys_channels b) (sys_backend b) (target_rate b).
Definition set_mic_wav (v : option string) (b : _StreamBundle) :=
  StreamBundle (mic_stream b) (sys_stream b) v (sys_wav b) (mic_frames b)
    (sys_frames b) (sys_thread b) (sys_stop_event b) (mic_rate b)
    (mic_channels b) (sys_rate b) (sys_channels b) (sys_backend b) (target_rate b).
Definition set_sys_wav (v : option string) (b : _StreamBundle) :=
  StreamBundle (mic_stream b) (sys_stream b) (mic_wav b) v (mic_frames b)
    (sys_frames b) (sys_thread b) (sys_stop_event b) (mic_rate b)
    (mic_channels b) (sys_rate b) (sys_channels b) (sys_backend b) (target_rate b).
Definition set_mic_frames (v : Z) (b : _StreamBundle) :=
  StreamBundle (mic_stream b) (sys_stream b) (mic_wav b) (sys_wav b) v
    (sys_frames b) (sys_thread b) (sys_stop_event b) (mic_rate b)
    (mic_channels b) (sys_rate b) (sys_channels b) (sys_backend b) (target_rate b).
Definition set_sys_frames (v : Z) (b : _StreamBundle) :=
  StreamBundle (mic_stream b) (sys_stream b) (mic_wav b) (sys_wav b) (mic_frames b)
    v (sys_thread b) (sys_stop_event b) (mic_rate b)
    (mic_channels b) (sys_rate b) (sys_channels b) (sys_backend b) (target_rate b).
Definition set_sys_thread (v : option unit) (b : _StreamBundle) :=
  StreamBundle (mic_stream b) (sys_stream b) (mic_wav b) (sys_wav b) (mic_frames b)
    (sys_frames b) v (sys_stop_event b) (mic_rate b)
    (mic_channels b) (sys_rate b) (sys_channels b) (sys_backend b) (target_rate b).
Definition set_sys_stop_event (v : option unit) (b : _StreamBundle) :=
  StreamBundle (mic_stream b) (sys_stream b) (mic_wav b) (sys_wav b) (mic_frames b)
    (sys_frames b) (sys_thread b) v (mic_rate b)
    (mic_channels b) (sys_rate b) (sys_channels b) (sys_backend b) (target_rate b).
Definition set_mic_rate (v : option Z) (b : _StreamBundle) :=
  StreamBundle (mic_stream b) (sys_stream b) (mic_wav b) (sys_wav b) (mic_frames b)
    (sys_frames b) (sys_thread b) (sys_stop_event b) v
    (mic_channels b) (sys_rate b) (sys_channels b) (sys_backend b) (target_rate b).
Definition set_mic_channels (v : option Z) (b : _StreamBundle) :=
  StreamBundle (mic_stream b) (sys_stream b) (mic_wav b) (sys_wav b) (mic_frames b)
    (sys_frames b) (sys_thread b) (sys_stop_event b) (mic_rate b)
    v (sys_rate b) (sys_channels b) (sys_backend b) (target_rate b).
Definition set_sys_rate (v : option Z) (b : _StreamBundle) :=
  StreamBundle (mic_stream b) (sys_stream b) (mic_wav b) (sys_wav b) (mic_frames b)
    (sys_frames b) (sys_thread b) (sys_stop_event b) (mic_rate b)
    (mic_channels b) v (sys_channels b) (sys_backend b) (target_rate b).
Definition set_sys_channels (v : option Z) (b : _StreamBundle) :=
  StreamBundle (mic_stream b) (sys_stream b) (mic_wav b) (sys_wav b) (mic_frames b)
    (sys_frames b) (sys_thread b) (sys_stop_event b) (mic_rate b)
    (mic_channels b) (sys_rate b) v (sys_backend b) (target_rate b).
Definition set_sys_backend (v : option string) (b : _StreamBundle) :=
  StreamBundle (mic_stream b) (sys_stream b) (mic_wav b) (sys_wav b) (mic_frames b)
    (sys_frames b) (sys_thread b) (sys_stop_event b) (mic_rate b)
    (mic_channels b) (sys_rate b) (sys_channels b) v (target_rate b).

(** A [wave.Wave_write] and the file behind it. *)
Record wave_write := WaveWrite {
  w_channels : Z;
  w_sampwidth : Z;
  w_framerate : Z;
  w_data : list Z;      (* the PCM bytes appended so far *)
  w_closed : bool;
}.

(** The process: the module-level session table and what it holds outside
    Python's heap. *)
Record world := World {
  _recordings : gmap string _StreamBundle;
  streams : gset (string * track);   (* capture streams started and not stopped *)
  threads : gset string;             (* fallback reader threads not yet joined *)
  stop_flags : gset string;          (* stop events that are set *)
  wavs : gmap string wave_write;
  log : list string;
}.

Definition empty_world : world := World ∅ ∅ ∅ ∅ ∅ [].

Definition with_recordings (f : gmap string _StreamBundle -> gmap string _StreamBundle)
    (w : world) : world :=
  World (f (_recordings w)) (streams w) (threads w) (stop_flags w) (wavs w) (log w).
Definition with_streams (f : gset (string * track) -> gset (string * track))
    (w : world) : world :=
  World (_recordings w) (f (streams w)) (threads w) (stop_flags w) (wavs w) (log w).
Definition with_threads (f : gset string -> gset string) (w : world) : world :=
  World (_recordings w) (streams w) (f (threads w)) (stop_flags w) (wavs w) (log w).
Definition with_stop_flags (f : gset string -> gset string) (w : world) : world :=
  World (_recordings w) (streams w) (threads w) (f (stop_flags w)) (wavs w) (log w).
Definition with_wavs (f : gmap string wave_write -> gmap string wave_write)
    (w : world) : world :=
  World (_recordings w) (streams w) (threads w) (stop_flags w) (f (wavs w)) (log w).
Definition with_log (f : list string -> list string) (w : world) : world :=
  World (_recordings w) (streams w) (threads w) (stop_flags w) (wavs w) (f (log w)).

(** The returned dicts. *)
Abbreviation result := (gmap string pyval).

(** [a / b] of [pathlib] for a relative [b] made of one plain component, as
    the session keys are (the API passes [str(meeting.id)]) and the two file
    names; [pathlib] would further normalise a key holding separators. *)
Definition path_join (a b : string) : string := a +:+ "/" +:+ b.

(** [bundle.<field> = v] on the bundle registered under [key]. *)
Definition update_bundle (key : string) (f : _StreamBundle -> _StreamBundle)
  : M world unit :=
  modify (with_recordings (alter f key)).

(** Reading a field of [bundle]. *)
Definition get_bundle (key : string) : M world _StreamBundle :=
  gets (fun w => default new_bundle (_recordings w !! key)).

Definition logger_info (msg : string) : M world unit :=
  modify (with_log (fun l => l ++ [msg])).

Definition _open_wav (E : env) (path : string) (channels samplerate : Z)
  : M world string :=
  check LibraryError (wav_open_ok E path);;
  modify (with_wavs (<[path := WaveWrite channels 2 samplerate [] false]>));;
  ret path.

(** [int(device_id)] when an id is given, else the backend's default. *)
Definition resolve_device (E : env) (device_id : option string)
    (dflt : option Z) : M world (option Z) :=
  match device_id with
  | Some s => n ← lift ValueError (py_int E s); ret (Some n)
  | None => ret dflt
  end.

(** [dev is not None and dev != -1] *)
Definition usable (dev : option Z) : option Z :=
  match dev with
  | Some d => if d =? -1 then None else Some d
  | None => None
  end.

Definition open_mic (E : env) (key mic_path : string) (mic_dev : Z)
  : M world unit :=
  mic_info ← lift LibraryError (sd_query E mic_dev);
  mic_rate ← to_int E (default (PInt 48000) (mic_info !! "default_samplerate"));
  n ← to_int E (default (PInt 1) (mic_info !! "max_input_channels"));
  let mic_channels := Z.max 1 (Z.min 2 (if n =? 0 then 1 else n)) in
  let rq := StreamRequest mic_dev mic_channels mic_rate DEFAULT_BLOCKSIZE false in
  check LibraryError (stream_create_ok E rq);;
  check LibraryError (stream_start_ok E rq);;
  modify (with_streams (union {[ (key, Mic) ]}));;
  update_bundle key (set_mic_stream (Some rq));;
  update_bundle key (set_mic_rate (Some mic_rate));;
  update_bundle key (set_mic_channels (Some mic_channels));;
  b ← get_bundle key;
  wf ← _open_wav E mic_path 1 (target_rate b);
  update_bundle key (set_mic_wav (Some wf));;
  logger_info "Mic capture started".

(** The [try] block: sounddevice's WASAPI loopback. *)
Definition open_system_primary (E : env) (key sys_path : string) (out_dev : Z)
    (out_rate sys_channels : Z) : M world unit :=
  let wasapi := wasapi_available E in
  let rq := StreamRequest out_dev sys_channels out_rate DEFAULT_BLOCKSIZE wasapi in
  check LibraryError (stream_create_ok E rq);;
  check LibraryError (stream_start_ok E rq);;
  modify (with_streams (union {[ (key, System) ]}));;
  update_bundle key (set_sys_stream (Some rq));;
  update_bundle key (set_sys_backend (Some "sounddevice"));;
  update_bundle key (set_sys_rate (Some out_rate));;
  update_bundle key (set_sys_channels (Some sys_channels));;
  b ← get_bundle key;
  wf ← _open_wav E sys_path 1 (target_rate b);
  update_bundle key (set_sys_wav (Some wf));;
  logger_info "System loopback (sounddevice) started".

(** The [except Exception] block: soundcard's loopback microphone, read by a
    thread of its own. *)
Definition open_system_fallback (E : env) (key sys_path : string)
    (out_rate sys_channels : Z) (e : pyexn) : M world unit :=
  if negb (sc_loaded E) then raise e
  else
    check LibraryError (thread_start_ok E);;
    modify (with_threads (union {[ key ]}));;
    update_bundle key (set_sys_stop_event (Some tt));;
    update_bundle key (set_sys_thread (Some tt));;
    update_bundle key (set_sys_backend (Some "soundcard"));;
    update_bundle key (set_sys_rate (Some out_rate));;
    update_bundle key (set_sys_channels (Some sys_channels));;
    b ← get_bundle key;
    wf ← _open_wav E sys_path 1 (target_rate b);
    update_bundle key (set_sys_wav (Some wf));;
    logger_info "System loopback (soundcard) started".

Definition open_system (E : env) (key sys_path : string) (out_dev : Z)
  : M world unit :=
  out_info ← try_except (lift LibraryError (sd_query_output E out_dev))
                        (fun _ => lift LibraryError (sd_query E out_dev));
  r ← to_int E (default (PInt 48000) (out_info !! "default_samplerate"));
  let out_rate := if r =? 0 then 48000 else r in
  let v := default (PInt 2) (out_info !! "max_output_channels") in
  n ← to_int E (if truthy v then v else PInt 2);
  let sys_channels := Z.max 1 n in
  try_except (open_system_primary E key sys_path out_dev out_rate sys_channels)
             (open_system_fallback E key sys_path out_rate sys_channels).

(** [str(path) if bundle.<wav> else None] *)
Definition path_or_none (wav : option string) (path : string) : pyval :=
  match wav with
  | Some _ => PStr path
  | None => PNone
  end.

Definition start_recording (E : env) (meeting_id : string)
    (mic_device_id output_device_id : option string) : M world result :=
  if negb (sd_loaded E) then raise (RuntimeError "sounddevice not available")
  else
    recs ← gets _recordings;
    if bool_decide (is_Some (recs !! meeting_id)) then ret ∅
    else
      let meeting_dir := path_join (audio_dir E) meeting_id in
      let mic_path := path_join meeting_dir "mic.wav" in
      let sys_path := path_join meeting_dir "system.wav" in
      modify (with_recordings (<[meeting_id := new_bundle]>));;
      mic_dev ← resolve_device E mic_device_id (default_input E);
      match usable mic_dev with
      | Some d => open_mic E meeting_id mic_path d
      | None => ret tt
      end;;
      out_dev ← resolve_device E output_device_id (default_output E);
      match usable out_dev with
      | Some d => open_system E meeting_id sys_path d
      | None => ret tt
      end;;
      bundle ← get_bundle meeting_id;
      ret ({[ "mic_path" := path_or_none (mic_wav bundle) mic_path;
              "sys_path" := path_or_none (sys_wav bundle) sys_path ]} : result).

(** [stream.stop(); stream.close()] *)
Definition stop_and_close (E : env) (key : string) (t : track) : M world unit :=
  check LibraryError (stream_stop_ok E key t);;
  modify (with_streams (fun s => s ∖ {[ (key, t) ]}));;
  check LibraryError (stream_close_ok E key t).

(** [wav.close()] inside [try: .. except Exception: pass].
    [Wave_write.close] lets go of its file in a [finally] of its own, so the
    writer is closed whether the call returns or raises; what may fail is the
    patching of the header and the flush. *)
Definition close_quietly (E : env) (path : string) : M world unit :=
  try_except
    (modify (with_wavs (alter (fun f =>
       WaveWrite (w_channels f) (w_sampwidth f) (w_framerate f) (w_data f) true)
       path));;
     check LibraryError (wav_close_ok E path))
    (fun _ => ret tt).

Definition stop_recording (E : env) (meeting_id : string) : M world result :=
  popped ← gets (fun w => _recordings w !! meeting_id);
  modify (with_recordings (delete meeting_id));;
  match popped with
  | None => ret ∅
  | Some bundle =>
      try_finally
        (when (bool_decide (is_Some (mic_stream bundle)))
              (stop_and_close E meeting_id Mic);;
         when (bool_decide (is_Some (sys_stream bundle)))
              (stop_and_close E meeting_id System);;
         when (bool_decide (is_Some (sys_stop_event bundle)))
              (modify (with_stop_flags (union {[ meeting_id ]})));;
         when (bool_decide (is_Some (sys_thread bundle)))
              (when (thread_join_ok E)
                    (modify (with_threads (fun s => s ∖ {[ meeting_id ]})))))
        (match mic_wav bundle with
         | Some p => close_quietly E p
         | None => ret tt
         end;;
         match sys_wav bundle with
         | Some p => close_quietly E p
         | None => ret tt
         end);;
      let meeting_dir := path_join (audio_dir E) meeting_id in
      ret ({[ "mic_path" := path_or_none (mic_wav bundle)
                              (path_join meeting_dir "mic.wav");
              "sys_path" := path_or_none (sys_wav bundle)
                              (path_join meeting_dir "system.wav");
              "mic_frames" := PInt (mic_frames bundle);
              "sys_frames" := PInt (sys_frames bundle);
              "rate" := PInt (target_rate bundle);
              "channels" := PInt 1;
              "sys_backend" := from_option PStr PNone (sys_backend bundle) ]}
           : result)
  end.

(** ** The per-block pipeline *)

(** [if rate and rate != target: try: f32 = soxr.resample(..) except: pass] *)
Definition resample_or_pass (D : dsp) (rate : option Z) (target : Z)
    (f32 : samples D) : samples D :=
  match rate with
  | Some r =>
      if negb (r =? 0) && negb (r =? target) then
        match soxr_resample D f32 r target with
        | Some resampled => resampled
        | None => f32
        end
      else f32
  | None => f32
  end.

(** [Wave_write.writeframes(data)] *)
Definition writeframes (E : env) (path : string) (data : list Z) : M world unit :=
  ws ← gets wavs;
  match ws !! path with
  | Some f =>
      if w_closed f then raise LibraryError
      else
        check LibraryError (wav_write_ok E path data);;
        modify (with_wavs (<[path :=
          WaveWrite (w_channels f) (w_sampwidth f) (w_framerate f)
                    (w_data f ++ data) false]>))
  | None => raise LibraryError
  end.

(** The three copies of the pipeline: the two stream callbacks and the body
    of the fallback thread's loop. *)
Inductive feed := MicCallback | SysCallback | SoundcardLoop.

Definition feed_rate (p : feed) (b : _StreamBundle) : option Z :=
  match p with
  | MicCallback => mic_rate b
  | _ => sys_rate b
  end.

Definition feed_wav (p : feed) (b : _StreamBundle) : option string :=
  match p with
  | MicCallback => mic_wav b
  | _ => sys_wav b
  end.

Definition feed_frames (p : feed) (b : _StreamBundle) : Z :=
  match p with
  | MicCallback => mic_frames b
  | _ => sys_frames b
  end.

(** What follows the resampling step: encode, append, count; a failing write
    drops the block. *)
Definition write_block (E : env) (D : dsp) (key : string) (p : feed)
    (f32 : samples D) : M world unit :=
  b ← get_bundle key;
  match feed_wav p b with
  | Some wf =>
      try_except
        (writeframes E wf (encode_pcm16 D f32);;
         match p with
         | MicCallback =>
             update_bundle key (fun b => set_mic_frames (mic_frames b + frame_count D f32) b)
         | _ =>
             update_bundle key (fun b => set_sys_frames (sys_frames b + frame_count D f32) b)
         end)
        (fun _ => ret tt)
  | None => ret tt
  end.

Definition _mic_cb (E : env) (D : dsp) (key : string) (indata : block D)
  : M world unit :=
  b ← get_bundle key;
  let f32 := to_mono_f32 D indata in
  let f32 := resample_or_pass D (mic_rate b) (target_rate b) f32 in
  write_block E D key MicCallback f32.

Definition _sys_cb (E : env) (D : dsp) (key : string) (indata : block D)
  : M world unit :=
  b ← get_bundle key;
  let f32 := to_mono_f32 D indata in
  let f32 := resample_or_pass D (sys_rate b) (target_rate b) f32 in
  write_block E D key SysCallback f32.

(** One turn of [while not stop_event.is_set()] in [_sc_loop], on the block
    [rec.record] returned. *)
Definition _sc_loop_turn (E : env) (D : dsp) (key : string) (data : block D)
  : M world unit :=
  b ← get_bundle key;
  let f32 := to_mono_f32 D data in
  let f32 := resample_or_pass D (sys_rate b) (target_rate b) f32 in
  write_block E D key SoundcardLoop f32.

(** A block handed to the session registered under [key] by one of its own
    feeds.  Each callback holds its bundle in its closure; from the start
    request that registers the bundle to the stop request that pops it, that
    bundle and the one the table holds under [key] are the same object, and
    this is the stretch [deliver] stands for.  A callback of a bundle that has
    been popped finds its writers closed and is no step of the model. *)
Definition deliver (E : env) (D : dsp) (key : string) (p : feed)
    (indata : block D) : M world unit :=
  match p with
  | MicCallback => _mic_cb E D key indata
  | SysCallback => _sys_cb E D key indata
  | SoundcardLoop => _sc_loop_turn E D key indata
  end.

(** ** Processes *)

(** The worlds a process can be in. The optional modules are imported once,
    so [sd_loaded] and [sc_loaded] are the same at every call; everything
    else outside may change between calls. *)
Inductive reachable (sd sc : bool) : world -> Prop :=
| reach_init : reachable sd sc empty_world
| reach_start E key mic out w :
    reachable sd sc w -> sd_loaded E = sd -> sc_loaded E = sc ->
    reachable sd sc (start_recording E key mic out w).1
| reach_stop E key w :
    reachable sd sc w -> sd_loaded E = sd -> sc_loaded E = sc ->
    reachable sd sc (stop_recording E key w).1
| reach_deliver E D key p indata w :
    reachable sd sc w ->
    reachable sd sc (deliver E D key p indata w).1.

(** ** When a start request returns *)

(** [int(v)] as a partial function. *)
Definition int_of (E : env) (v : pyval) : option Z :=
  match v with
  | PInt n => Some n
  | PStr s => py_int E s
  | PNone => None
  end.

(** The id, when one is given, is an integer literal. *)
Definition device_parses (E : env) (device_id : option string) : bool :=
  match device_id with
  | Some s => bool_decide (is_Some (py_int E s))
  | None => true
  end.

(** The device a track is opened on, if any. *)
Definition resolved (E : env) (device_id : option string) (dflt : option Z)
  : option Z :=
  usable (match device_id with
          | Some s => py_int E s
          | None => dflt
          end).

(** Every step of the microphone branch succeeds. *)
Definition mic_opens (E : env) (mic_path : string) (d : Z) : bool :=
  match sd_query E d with
  | Some info =>
      match int_of E (default (PInt 48000) (info !! "default_samplerate")),
            int_of E (default (PInt 1) (info !! "max_input_channels")) with
      | Some rate, Some n =>
          let rq := StreamRequest d (Z.max 1 (Z.min 2 (if n =? 0 then 1 else n)))
                                  rate DEFAULT_BLOCKSIZE false in
          stream_create_ok E rq && stream_start_ok E rq && wav_open_ok E mic_path
      | _, _ => false
      end
  | None => false
  end.

(** The system branch gets a stream from the primary backend, or else a
    reader thread from the fallback backend, and the track file opens. *)
Definition system_opens (E : env) (sys_path : string) (d : Z) : bool :=
  match (match sd_query_output E d with
         | Some info => Some info
         | None => sd_query E d
         end) with
  | Some info =>
      let v := default (PInt 2) (info !! "max_output_channels") in
      match int_of E (default (PInt 48000) (info !! "default_samplerate")),
            int_of E (if truthy v then v else PInt 2) with
      | Some r, Some n =>
          let rq := StreamRequest d (Z.max 1 n) (if r =? 0 then 48000 else r)
                                  DEFAULT_BLOCKSIZE (wasapi_available E) in
          (stream_create_ok E rq && stream_start_ok E rq
           || sc_loaded E && thread_start_ok E)
          && wav_open_ok E sys_path
      | _, _ => false
      end
  | None => false
  end.

Definition start_succeeds (E : env) (key : string)
    (mic_device_id output_device_id : option string) : bool :=
  let meeting_dir := path_join (audio_dir E) key in
  device_parses E mic_device_id &&
  match resolved E mic_device_id (default_input E) with
  | Some d => mic_opens E (path_join meeting_dir "mic.wav") d
  | None => true
  end &&
  device_parses E output_device_id &&
  match resolved E output_device_id (default_output E) with
  | Some d => system_opens E (path_join meeting_dir "system.wav") d
  | None => true
  end.

(** The primary backend cannot open a capture stream on device [d]. *)
Definition loopback_refused (E : env) (d : Z) : Prop :=
  forall rq, rq_device rq = d ->
    stream_create_ok E rq && stream_start_ok E rq = false.

(** ** Invariants of the session table *)

Definition registered (key : string) (w : world) : Prop :=
  is_Some (_recordings w !! key).

(** The values the code gives [sys_backend] (the comment on the field). *)
Definition backend_named (b : _StreamBundle) : Prop :=
  sys_backend b = None \/ sys_backend b = Some "sounddevice" \/
  sys_backend b = Some "soundcard".

(** Every registered bundle names its backend that way, and the streams it
    holds are running. *)
Definition consistent (w : world) : Prop :=
  forall key b, _recordings w !! key = Some b ->
    backend_named b /\
    (is_Some (mic_stream b) -> (key, Mic) ∈ streams w) /\
    (is_Some (sys_stream b) -> (key, System) ∈ streams w).

(** While [stop_recording] tears a session down its key is already gone from
    the table, so taking its streams away breaks nothing. *)
Definition stopping (key : string) (w : world) : Prop :=
  consistent w /\ _recordings w !! key = None.



(** ** Sample hosts *)

(** A host with a microphone (device 0, the default input, 44.1 kHz) and
    speakers (device 1, the default output); [loopback] says whether
    sounddevice can open a capture stream on the speakers. *)
Definition host (sd sc loopback : bool) : env :=
  {| sd_loaded := sd; sc_loaded := sc; audio_dir := "audio";
     py_int := fun s => if bool_decide (s = "0") then Some 0
                        else if bool_decide (s = "1") then Some 1 else None;
     sd_query_all := Some Devices.demo_devices;
     sd_default_device := Some (Some 0, Some 1);
     sd_query := fun d =>
       if d =? 0 then Some {[ "name" := PStr "Mic";
                              "default_samplerate" := PInt 44100;
                              "max_input_channels" := PInt 2 ]}
       else if d =? 1 then Some {[ "name" := PStr "Speakers";
                                   "default_samplerate" := PInt 48000;
                                   "max_output_channels" := PInt 2 ]}
       else None;
     sd_query_output := fun d =>
       if d =? 1 then Some {[ "name" := PStr "Speakers";
                              "default_samplerate" := PInt 48000;
                              "max_output_channels" := PInt 2 ]}
       else None;
     wasapi_available := loopback;
     stream_create_ok := fun rq => (rq_device rq =? 0) || loopback;
     stream_start_ok := fun _ => true;
     stream_stop_ok := fun _ _ => true; stream_close_ok := fun _ _ => true;
     wav_open_ok := fun _ => true; wav_write_ok := fun _ _ => true;
     wav_close_ok := fun _ => true;
     thread_start_ok := true; thread_join_ok := true |}.

(** Kernels over integer samples whose resampler always fails. *)
Definition failing_resampler : dsp :=
  {| block := list Z; samples := list Z;
     to_mono_f32 := fun x => x;
     soxr_resample := fun _ _ _ => None;
     encode_pcm16 := fun x => x;
     frame_count := fun x => Z.of_nat (length x) |}.

(** The same host with the microphone taken by another program. *)
Definition busy_mic_host : env :=
  {| sd_loaded := true; sc_loaded := true; audio_dir := "audio";
     py_int := py_int (host true true true);
     sd_query_all := sd_query_all (host true true true);
     sd_default_device := Some (Some 0, Some 1);
     sd_query := sd_query (host true true true);
     sd_query_output := sd_query_output (host true true true);
     wasapi_available := true;
     stream_create_ok := fun rq => negb (rq_device rq =? 0);
     stream_start_ok := fun _ => true;
     stream_stop_ok := fun _ _ => true; stream_close_ok := fun _ _ => true;
     wav_open_ok := fun _ => true; wav_write_ok := fun _ _ => true;
     wav_close_ok := fun _ => true;
     thread_start_ok := true; thread_join_ok := true |}.

(** A host whose backend reports no default device ([-1] for both). *)
Definition deviceless_host : env :=
  {| sd_loaded := true; sc_loaded := false; audio_dir := "audio";
     py_int := fun _ => None;
     sd_query_all := Some [];
     sd_default_device := Some (Some (-1), Some (-1));
     sd_query := fun _ => None; sd_query_output := fun _ => None;
     wasapi_available := false;
     stream_create_ok := fun _ => false; stream_start_ok := fun _ => false;
     stream_stop_ok := fun _ _ => true; stream_close_ok := fun _ _ => true;
     wav_open_ok := fun _ => false; wav_write_ok := fun _ _ => false;
     wav_close_ok := fun _ => true;
     thread_start_ok := false; thread_join_ok := true |}.

(** The session ["m1"] right after a successful start on the default devices. *)
Definition recording_m1 : world :=
  (start_recording (host true true true) "m1" None None empty_world).1.

(** The session ["m1"] after a start whose loopback open raised with no
    fallback module to turn to. *)
Definition failed_m1 : world :=
  (start_recording (host true false false) "m1" None None empty_world).1.


End Capture.

(* ===================================================================== *)
(** * Further vocabulary for the merger *)
(* ===================================================================== *)

Module MergerFacts.
Import Merger.

(** [v'] is [v] with at most its end-ms moved later. *)
Definition extended (v v' : segment) : Prop :=
  t_start_ms v' = t_start_ms v /\
  text v' = text v /\
  speaker v' = speaker v /\
  confidence v' = confidence v /\
  get_end v <= get_end v'.

(** The input segment [s] (read before the call, in [h]) is accounted for in
    the output [out] (read after it, in [h']): an emitted segment carries the
    same trimmed text, starts no later and less than [window] ms earlier, and
    ends no earlier. *)
Definition covered (window : Z) (h h' : heap) (out : list loc) (s : loc) : Prop :=
  exists p,
    p ∈ out /\
    get_text (h' !!! p) = get_text (h !!! s) /\
    get_start (h' !!! p) <= get_start (h !!! s) /\
    get_start (h !!! s) - get_start (h' !!! p) < window /\
    get_end (h !!! s) <= get_end (h' !!! p).

(** Two segments on each track, no two with the same (start, end). *)
Definition interleaved_heap : heap :=
  alloc ∅ 0%nat [seg 0 900 "hello" "You"; seg 2000 2500 "bye" "You";
                 seg 100 950 "hello" "Remote"; seg 1000 1800 "well" "Remote"].

End MergerFacts.

(* ===================================================================== *)
(** * Transcription jobs ([services/transcription_service.py]) *)
(* ===================================================================== *)

Module Transcription.
Import Merger.

(** ** From two transcribed tracks to the rows that are stored *)

(** [s["speaker"] = who] *)
Definition set_speaker (who : string) (s : segment) : segment :=
  {| t_start_ms := t_start_ms s; t_end_ms := t_end_ms s; text := text s;
     speaker := Some who; confidence := confidence s |}.

(** [for s in segments: s["speaker"] = who] *)
Definition label (who : string) (h : heap) (segments : list loc) : heap :=
  fold_left (fun h l => <[l := set_speaker who (h !!! l)]> h) segments h.

(** A [TranscriptSegment] row before the database gives it an id. *)
Record TranscriptSegment := Row {
  meeting_id : Z;
  row_start_ms : Z;
  row_end_ms : Z;
  row_speaker : string;
  row_text : pystr;
  row_confidence : option Z;
}.

(** The row built from a merged dict: [int(seg.get("t_start_ms", 0))],
    [str(seg.get("speaker", "Speaker"))], [str(seg.get("text", ""))], and the
    confidence when there is one. *)
Definition to_row (meeting : Z) (s : segment) : TranscriptSegment :=
  {| meeting_id := meeting;
     row_start_ms := default 0 (t_start_ms s);
     row_end_ms := default 0 (t_end_ms s);
     row_speaker := default "Speaker" (speaker s);
     row_text := default [] (text s);
     row_confidence := confidence s |}.

(** The data path of [_worker] between the two [transcribe_file] calls and
    [add_segments]: label the microphone segments "You" and the system ones
    "Remote", merge, build the rows. *)
Definition transcript_rows (meeting : Z) (h : heap) (mic_segments sys_segments : list loc)
  : list TranscriptSegment :=
  let h := label "You" h mic_segments in
  let h := label "Remote" h sys_segments in
  let '(h, segments_all) := _merge_and_filter h mic_segments sys_segments in
  to_row meeting <$> deref h segments_all.

(** ** The job table *)

Record JobState := Job {
  status : string;          (* idle | running | done | error *)
  progress : Z;             (* the float, in thousandths *)
  message : option string;
}.

(** [JobState()] *)
Definition idle_job : JobState := Job "idle" 0 None.

(** What one call finds outside itself: the database's answers ([None] is
    the query raising), whether the thread starts, and what the worker thread,
    once started, has written into the job table by the time the caller reads
    it again (nothing, when the caller is faster). *)
Record db := Db {
  find_meeting : Z -> option bool;            (* [repo_m.get(id)] found one *)
  find_audio : Z -> string -> option bool;    (* [get_by_meeting_and_kind] found one *)
  worker_starts : bool;                       (* [Thread.start()] *)
  worker_head_start : list JobState;          (* the worker's first writes *)
}.

Record jobs_world := Jobs {
  _jobs : gmap Z JobState;
  _locks : gset Z;          (* the meetings that have a lock object *)
  workers : list Z;         (* the meetings a worker thread was started for *)
}.

Definition with_jobs (f : gmap Z JobState -> gmap Z JobState) (w : jobs_world) :=
  Jobs (f (_jobs w)) (_locks w) (workers w).

Definition _get_lock (meeting : Z) : M jobs_world unit :=
  modify (fun w => Jobs (_jobs w) ({[ meeting ]} ∪ _locks w) (workers w)).

Definition get_status (meeting : Z) (w : jobs_world) : JobState :=
  default idle_job (_jobs w !! meeting).

(** [_jobs[meeting]]; the [KeyError] of a missing key is counted with the
    runtime errors. *)
Definition job_at (meeting : Z) : M jobs_world JobState :=
  jobs ← gets _jobs;
  lift (RuntimeError "KeyError") (jobs !! meeting).

(** A write of the worker thread: [_jobs[meeting_id] = JobState(...)]. *)
Definition worker_write (meeting : Z) (st : JobState) : M jobs_world unit :=
  modify (with_jobs (<[meeting := st]>)).

Fixpoint worker_writes (meeting : Z) (sts : list JobState) : M jobs_world unit :=
  match sts with
  | [] => ret tt
  | st :: rest => worker_write meeting st;; worker_writes meeting rest
  end.

(** [start_transcription_job]. The lock is looked up and never taken. Once
    [t.start()] has returned the worker runs beside the caller, so the state
    [return _jobs[meeting_id]] reads is the last one the worker has written
    by then, or the caller's own "starting". *)
Definition start_transcription_job (T : db) (meeting : Z) : M jobs_world JobState :=
  _get_lock meeting;;
  jobs ← gets _jobs;
  if bool_decide (status <$> jobs !! meeting = Some "running") then
    job_at meeting
  else
    modify (with_jobs (<[meeting := Job "running" 0 (Some "starting")]>));;
    found ← lift LibraryError (find_meeting T meeting);
    audio_mic ← lift LibraryError (find_audio T meeting "mic");
    audio_sys ← lift LibraryError (find_audio T meeting "system");
    if negb found || negb (audio_mic && audio_sys) then
      modify (with_jobs (<[meeting := Job "error" 0 (Some "meeting or audio not found")]>));;
      job_at meeting
    else
      check LibraryError (worker_starts T);;
      modify (fun w => Jobs (_jobs w) (_locks w) (workers w ++ [meeting]));;
      worker_writes meeting (worker_head_start T);;
      job_at meeting.

(** The state a started job is in until its worker reports. *)
Definition starting : JobState := Job "running" 0 (Some "starting").

Definition not_found : JobState := Job "error" 0 (Some "meeting or audio not found").

(** The table once the worker has made the writes [sts]: the last one stays. *)
Definition written (meeting : Z) (sts : list JobState) (w : jobs_world)
  : jobs_world :=
  match last sts with
  | Some st => with_jobs (<[meeting := st]>) w
  | None => w
  end.

(** What the caller of a start that launched a worker reads back. *)
Definition read_after_start (T : db) : JobState :=
  default starting (last (worker_head_start T)).

(** The job of [meeting] is marked running. *)
Definition running (meeting : Z) (w : jobs_world) : bool :=
  bool_decide (status <$> _jobs w !! meeting = Some "running").

(** A database that knows meeting 7 with both tracks, and one that fails. *)
Definition db_with_meeting_7 : db :=
  Db (fun m => Some (m =? 7)) (fun m _ => Some (m =? 7)) true [].

Definition db_down : db := Db (fun _ => None) (fun _ _ => None) true [].

(** The same database, with a worker that fails before the caller has read
    the table again. *)
Definition db_with_hasty_worker : db :=
  Db (fun m => Some (m =? 7)) (fun m _ => Some (m =? 7)) true
     [Job "error" 0 (Some "model not found")].

(** The job of the meeting is still marked running after these writes. *)
Definition still_running (sts : list JobState) : bool :=
  forallb (fun st => bool_decide (status st = "running")) sts.

Definition no_jobs : jobs_world := Jobs ∅ ∅ [].

(** The database found the meeting and both of its tracks. *)
Definition has_tracks (T : db) (meeting : Z) : bool :=
  bool_decide (find_meeting T meeting = Some true) &&
  bool_decide (find_audio T meeting "mic" = Some true) &&
  bool_decide (find_audio T meeting "system" = Some true).

(** Every query of the start answered, and the meeting or a track is missing. *)
Definition lacks_tracks (T : db) (meeting : Z) : bool :=
  match find_meeting T meeting, find_audio T meeting "mic",
        find_audio T meeting "system" with
  | Some found, Some audio_mic, Some audio_sys =>
      negb found || negb (audio_mic && audio_sys)
  | _, _, _ => false
  end.

End Transcription.

(* ===================================================================== *)
(** * What the device registry lists *)
(* ===================================================================== *)

Module DevicesFacts.
Import Devices.

(** The descriptor [list_devices] appends to one of its lists for the device
    at [idx]: none when the channel count under [key] is not a positive int
    or the name is not a string. *)
Definition entry (dflt : option Z) (knd key : string) (idx : nat)
    (dev : dev_info) : list Device :=
  match default (PInt 0) (dev !! key),
        default (PStr ("Device " +:+ pretty idx)) (dev !! "name") with
  | PInt n, PStr s =>
      if 0 <? n
      then [mkDevice (pretty idx) s knd (bool_decide (Some (Z.of_nat idx) = dflt))]
      else []
  | _, _ => []
  end.

Fixpoint entries (dflt : option Z) (knd key : string) (idx : nat)
    (devices : list dev_info) : list Device :=
  match devices with
  | [] => []
  | dev :: rest => entry dflt knd key idx dev ++ entries dflt knd key (S idx) rest
  end.

(** A device dict as the backend documents it: both channel counts, where
    present, are ints and the name, where present, is a string. *)
Definition well_formed (dev : dev_info) : bool :=
  match default (PInt 0) (dev !! "max_input_channels"),
        default (PInt 0) (dev !! "max_output_channels"),
        default (PStr "") (dev !! "name") with
  | PInt _, PInt _, PStr _ => true
  | _, _, _ => false
  end.

(** The descriptors marked as the default device. *)
Definition defaults (l : list Device) : list Device :=
  filter (fun d => is_default d = true) l.

End DevicesFacts.


(* ===================================================================== *)
(** * Track files and the teardown of a session *)
(* ===================================================================== *)

Module CaptureFacts.
Import Capture.

(** A track file right after [_open_wav(path, channels=1, samplerate=48000)]. *)
Definition fresh_track : wave_write := WaveWrite 1 2 48000 [] false.

(** Mono, 16-bit, 48 kHz. *)
Definition track_format (f : wave_write) : Prop :=
  w_channels f = 1 /\ w_sampwidth f = 2 /\ w_framerate f = 48000.

Definition well_formatted (w : world) : Prop :=
  (forall key b, _recordings w !! key = Some b -> target_rate b = 48000) /\
  (forall path f, wavs w !! path = Some f -> track_format f).

(** The file after [Wave_write.close()]. *)
Definition closed_copy (f : wave_write) : wave_write :=
  WaveWrite (w_channels f) (w_sampwidth f) (w_framerate f) (w_data f) true.

(** The file after [writeframes(data)]. *)
Definition appended (data : list Z) (f : wave_write) : wave_write :=
  WaveWrite (w_channels f) (w_sampwidth f) (w_framerate f) (w_data f ++ data) false.

(** [stop()] and [close()] succeed on every stream the bundle holds. *)
Definition streams_stop (E : env) (key : string) (b : _StreamBundle) : bool :=
  (negb (bool_decide (is_Some (mic_stream b))) ||
   stream_stop_ok E key Mic && stream_close_ok E key Mic) &&
  (negb (bool_decide (is_Some (sys_stream b))) ||
   stream_stop_ok E key System && stream_close_ok E key System).

(** The bundle with its two frame counters put aside. *)
Definition without_counters (b : _StreamBundle) : _StreamBundle :=
  set_mic_frames 0 (set_sys_frames 0 b).

(** The session of [key] as a start request that got past registration
    leaves it: counters at zero, the target rate untouched, and each writer
    it holds a fresh file at the session's own path. *)
Definition just_started (E : env) (key : string) (w : world) : Prop :=
  exists b,
    _recordings w !! key = Some b /\
    mic_frames b = 0 /\ sys_frames b = 0 /\ target_rate b = 48000 /\
    (forall p, mic_wav b = Some p ->
       p = path_join (path_join (audio_dir E) key) "mic.wav" /\
       wavs w !! p = Some fresh_track) /\
    (forall p, sys_wav b = Some p ->
       p = path_join (path_join (audio_dir E) key) "system.wav" /\
       wavs w !! p = Some fresh_track).




(** The session ["m1"] on a host whose primary backend refuses loopback,
    taken through the fallback. *)
Definition fallback_m1 : world :=
  (start_recording (host true true false) "m1" None None empty_world).1.

(** The host of the examples with a microphone stream that refuses to stop
    and track files whose [close()] raises. *)
Definition stuck_mic_host : env :=
  {| sd_loaded := true; sc_loaded := true; audio_dir := "audio";
     py_int := py_int (host true true true);
     sd_query_all := sd_query_all (host true true true);
     sd_default_device := Some (Some 0, Some 1);
     sd_query := sd_query (host true true true);
     sd_query_output := sd_query_output (host true true true);
     wasapi_available := true;
     stream_create_ok := fun _ => true;
     stream_start_ok := fun _ => true;
     stream_stop_ok := fun _ t => bool_decide (t = System);
     stream_close_ok := fun _ _ => true;
     wav_open_ok := fun _ => true; wav_write_ok := fun _ _ => true;
     wav_close_ok := fun _ => false;
     thread_start_ok := true; thread_join_ok := true |}.

(** The default session of the examples, stopped at once. *)
Definition stopped_m1 : world :=
  (stop_recording (host true true true) "m1" recording_m1).1.

(** What a callback does to the bundle's counter for its feed. *)
Definition count_frames (p : feed) (n : Z) (b : _StreamBundle) : _StreamBundle :=
  match p with
  | MicCallback => set_mic_frames (mic_frames b + n) b
  | _ => set_sys_frames (sys_frames b + n) b
  end.

End CaptureFacts.

(* ===================================================================== *)
(** * The stop endpoint ([api/meetings.py]) *)
(* ===================================================================== *)

Module Api.
Import Capture.

Record StopResponse := mkStopResponse {
  ok : bool;
  frames : pyval;
  rate : pyval;
  channels : pyval;
  sys_backend : pyval;
}.

(** [info.get(k)] *)
Definition get (info : result) (k : string) : pyval := default PNone (info !! k).

(** [stop_meeting]: the recording is stopped inside [try .. except Exception],
    the meeting row and its audio rows are written ([persisted] says whether
    that part ran without raising), and the response is built from [info]. *)
Definition stop_meeting (E : env) (persisted : bool) (meeting_id : Z)
  : M world StopResponse :=
  info ← try_except (stop_recording E (pretty meeting_id)) (fun _ => ret ∅);
  check LibraryError persisted;;
  ret (mkStopResponse true (get info "frames") (get info "rate")
         (get info "channels") (get info "sys_backend")).

(** [start_meeting]: the meeting row is created ([created] is its id, or
    [None] when the database raises), the recording is started inside
    [try .. except Exception: pass], and the id is returned. *)
Definition start_meeting (E : env) (created : option Z)
    (mic_device_id output_device_id : option string) : M world result :=
  meeting_id ← lift LibraryError created;
  try_except
    (start_recording E (pretty meeting_id) mic_device_id output_device_id;; ret tt)
    (fun _ => ret tt);;
  ret ({[ "meeting_id" := PStr (pretty meeting_id) ]} : result).

End Api.

Import Merger.
Import Devices.
Import Capture.

(* ===================================================================== *)
(** * Reasoning about computations that may raise *)
(* ===================================================================== *)

Section Keeps.
Context {S : Type} (I : S -> Prop).

Lemma keeps_ret {A} (a : A) (Q : A -> Prop) : Q a -> keeps I (ret a) Q.
Proof. intros Ha s Hs. split; [done|]. by intros ? [= <-]. Qed.

Lemma keeps_raise {A} e (Q : A -> Prop) : keeps I (raise e) Q.
Proof. intros s Hs. split; [done|]. intros ?; discriminate. Qed.

Lemma keeps_gets {A} (f : S -> A) (Q : A -> Prop) :
  (forall s, I s -> Q (f s)) -> keeps I (gets f) Q.
Proof. intros Hf s Hs. split; [done|]. intros ? [= <-]. auto. Qed.

Lemma keeps_modify (f : S -> S) (Q : unit -> Prop) :
  (forall s, I s -> I (f s)) -> Q tt -> keeps I (modify f) Q.
Proof. intros Hf Hq s Hs. split; [by apply Hf|]. by intros [] _. Qed.

Lemma keeps_bind {A B} (m : M S A) (f : A -> M S B) Q R :
  keeps I m Q -> (forall a, Q a -> keeps I (f a) R) -> keeps I (bind m f) R.
Proof.
  intros Hm Hf s Hs. destruct (Hm s Hs) as [H1 H2]. unfold bind.
  destruct (m s) as [s' [a|e]]; simpl in *.
  - apply Hf; auto.
  - split; [done|]. intros ?; discriminate.
Qed.

Lemma keeps_try_except {A} (m : M S A) (h : pyexn -> M S A) Q :
  keeps I m Q -> (forall e, keeps I (h e) Q) -> keeps I (try_except m h) Q.
Proof.
  intros Hm Hh s Hs. destruct (Hm s Hs) as [H1 H2]. unfold try_except.
  destruct (m s) as [s' [a|e]]; simpl in *.
  - split; [done|]. intros ? [= <-]. auto.
  - by apply Hh.
Qed.

Lemma keeps_try_finally {A} (m : M S A) (f : M S unit) Q :
  keeps I m Q -> keeps I f (fun _ => True) -> keeps I (try_finally m f) Q.
Proof.
  intros Hm Hf s Hs. destruct (Hm s Hs) as [H1 H2]. unfold try_finally.
  destruct (m s) as [s' [a|e]]; simpl in *;
    destruct (Hf s' H1) as [H3 _]; destruct (f s') as [s'' [[]|e']]; simpl in *;
    (split; [done|]); try (intros ?; discriminate).
  intros ? [= <-]. auto.
Qed.

Lemma keeps_check e ok (Q : unit -> Prop) : Q tt -> keeps I (check e ok) Q.
Proof. intros. destruct ok; [by apply keeps_ret | apply keeps_raise]. Qed.

Lemma keeps_lift {A} e (o : option A) (Q : A -> Prop) :
  (forall a, o = Some a -> Q a) -> keeps I (lift e o) Q.
Proof. intros. destruct o; [apply keeps_ret; auto | apply keeps_raise]. Qed.

Lemma keeps_when c (m : M S unit) (Q : unit -> Prop) :
  keeps I m Q -> Q tt -> keeps I (when c m) Q.
Proof. intros. destruct c; [done | by apply keeps_ret]. Qed.

Lemma keeps_weaken {A} (m : M S A) (Q Q' : A -> Prop) :
  keeps I m Q -> (forall a, Q a -> Q' a) -> keeps I m Q'.
Proof. intros Hm HQ s Hs. destruct (Hm s Hs). split; auto. Qed.

End Keeps.

(** Invariants alone: [keeps] with a trivial postcondition. *)
Section Inv.
Context {S : Type} (I : S -> Prop).

Local Abbreviation inv m := (keeps I m (fun _ => True)).

Lemma inv_ret {A} (a : A) : inv (ret a).
Proof. by apply keeps_ret. Qed.

Lemma inv_raise {A} e : inv (raise (A := A) e).
Proof. apply keeps_raise. Qed.

Lemma inv_gets {A} (f : S -> A) : inv (gets f).
Proof. by apply keeps_gets. Qed.

Lemma inv_modify (f : S -> S) : (forall s, I s -> I (f s)) -> inv (modify f).
Proof. intros. by apply keeps_modify. Qed.

Lemma inv_bind {A B} (m : M S A) (f : A -> M S B) :
  inv m -> (forall a, inv (f a)) -> inv (bind m f).
Proof. intros Hm Hf. eapply keeps_bind; [exact Hm|]. intros a _. apply Hf. Qed.

Lemma inv_try_except {A} (m : M S A) (h : pyexn -> M S A) :
  inv m -> (forall e, inv (h e)) -> inv (try_except m h).
Proof. intros. by apply keeps_try_except. Qed.

Lemma inv_try_finally {A} (m : M S A) (f : M S unit) :
  inv m -> inv f -> inv (try_finally m f).
Proof. intros. by apply keeps_try_finally. Qed.

Lemma inv_check e ok : inv (check e ok).
Proof. by apply keeps_check. Qed.

Lemma inv_lift {A} e (o : option A) : inv (lift e o).
Proof. by apply keeps_lift. Qed.

Lemma inv_when c (m : M S unit) : inv m -> inv (when c m).
Proof. intros. by apply keeps_when. Qed.

Lemma inv_modify_pair {B} (f g : S -> S) (rest : M S B) :
  (forall s, I s -> I (g (f s))) -> inv rest ->
  inv (bind (modify f) (fun _ => bind (modify g) (fun _ => rest))).
Proof.
  intros Hfg Hr s Hs. unfold bind, modify. simpl. apply Hr. by apply Hfg.
Qed.

Lemma inv_modify_switch {B} (J : S -> Prop) (f : S -> S) (rest : M S B) :
  (forall s, I s -> J (f s)) -> (forall s, J s -> I s) ->
  keeps J rest (fun _ => True) ->
  inv (bind (modify f) (fun _ => rest)).
Proof.
  intros Hf HJ Hr s Hs. unfold bind, modify. simpl.
  destruct (Hr (f s) (Hf s Hs)) as [H1 _]. split; [by apply HJ|done].
Qed.

Lemma inv_apply {A} (m : M S A) s : inv m -> I s -> I (m s).1.
Proof. intros Hm Hs. by destruct (Hm s Hs). Qed.

Lemma inv_result {A} (m : M S A) s s' o :
  inv m -> I s -> m s = (s', o) -> I s'.
Proof. intros Hm Hs Heq. destruct (Hm s Hs) as [H _]. by rewrite Heq in H. Qed.

End Inv.

(** Inversion of a [bind] that returned. *)
Lemma bind_returns {S A B} (m : M S A) (f : A -> M S B) s s' b :
  bind m f s = (s', Return b) ->
  exists s1 a, m s = (s1, Return a) /\ f a s1 = (s', Return b).
Proof.
  unfold bind. destruct (m s) as [s1 [a|e]]; [|discriminate]. eauto.
Qed.

Lemma bind_raises {S A B} (m : M S A) (f : A -> M S B) s s' e :
  bind m f s = (s', Raise e) ->
  m s = (s', Raise e) \/
  exists s1 a, m s = (s1, Return a) /\ f a s1 = (s', Raise e).
Proof.
  unfold bind. destruct (m s) as [s1 [a|e']]; [right; eauto|].
  intros [= <- <-]. by left.
Qed.

(** Walks down a computation built from the primitives, leaving the
    [modify] steps to the caller. *)
Ltac inv_walk_with hook :=
  repeat first
    [ hook
    | apply inv_ret | apply inv_raise | apply inv_gets | apply inv_check
    | apply inv_lift
    | apply inv_bind; [|intros ?]
    | apply inv_try_except; [|intros ?]
    | apply inv_try_finally
    | apply inv_when
    | match goal with
      | |- keeps _ (match ?x with _ => _ end) _ => destruct x
      | |- keeps _ (if ?x then _ else _) _ => destruct x
      end ].

Ltac inv_walk := inv_walk_with fail.

Lemma try_finally_returns {S A} (m : M S A) (f : M S unit) s s' a :
  try_finally m f s = (s', Return a) ->
  exists s1, m s = (s1, Return a) /\ f s1 = (s', Return tt).
Proof.
  unfold try_finally. destruct (m s) as [s1 [a'|e]];
    destruct (f s1) as [s2 [[]|e']] eqn:Hf; intros Heq; try discriminate Heq.
  injection Heq as <- <-. eauto.
Qed.

(* ===================================================================== *)
(** * Properties of the segment merger *)
(* ===================================================================== *)

Section KeyOrder.

Lemma key_le_spec a b : key_le a b = true <-> lex_le a b.
Proof.
  unfold key_le, lex_le. destruct a as [a1 a2], b as [b1 b2]; simpl.
  rewrite orb_true_iff, andb_true_iff, Z.ltb_lt, Z.eqb_eq, Z.leb_le.
  tauto.
Qed.

Lemma key_le_false a b : key_le a b = false -> lex_le b a /\ a <> b.
Proof.
  intros H. assert (~ lex_le a b) as Hn.
  { rewrite <- key_le_spec. congruence. }
  unfold lex_le in *. destruct a as [a1 a2], b as [b1 b2]; simpl in *.
  split; [lia | intros [= -> ->]; lia].
Qed.

Lemma lex_le_refl a : lex_le a a.
Proof. unfold lex_le. lia. Qed.

Lemma lex_le_trans a b c : lex_le a b -> lex_le b c -> lex_le a c.
Proof. unfold lex_le. lia. Qed.

Lemma lex_le_antisym a b : lex_le a b -> lex_le b a -> a = b.
Proof.
  unfold lex_le. destruct a, b; simpl. intros ? ?. f_equal; lia.
Qed.

End KeyOrder.

Section StableSort.
Variable k : loc -> Z * Z.

Local Abbreviation R := (key_rel k).

Lemma insert_by_perm x l : insert_by k x l ≡ₚ x :: l.
Proof.
  induction l as [|y l IH]; simpl; [done|].
  destruct (key_le (k x) (k y)); [done|].
  rewrite IH. apply Permutation_swap.
Qed.

Lemma sort_by_key_perm l : sort_by_key k l ≡ₚ l.
Proof.
  induction l as [|x l IH]; simpl; [done|].
  rewrite insert_by_perm. by rewrite IH.
Qed.

Lemma insert_by_sorted x l :
  StronglySorted R l -> StronglySorted R (insert_by k x l).
Proof.
  induction 1 as [|y l Hl IH Hy]; simpl.
  - repeat constructor.
  - destruct (key_le (k x) (k y)) eqn:E.
    + apply key_le_spec in E.
      constructor; [by constructor|].
      constructor; [done|].
      eapply Forall_impl; [exact Hy|]. intros z Hz.
      unfold key_rel in *. eauto using lex_le_trans.
    + apply key_le_false in E as [E _].
      constructor; [done|].
      rewrite insert_by_perm. by constructor.
Qed.

Lemma sort_by_key_sorted l : StronglySorted R (sort_by_key k l).
Proof.
  induction l; simpl; [constructor | by apply insert_by_sorted].
Qed.

Lemma insert_by_filter c x l :
  filter (fun y => k y = c) (insert_by k x l)
  = filter (fun y => k y = c) (x :: l).
Proof.
  induction l as [|y l IH]; simpl; [done|].
  destruct (key_le (k x) (k y)) eqn:E; [done|].
  apply key_le_false in E as [_ E].
  rewrite (filter_cons _ y), IH, !filter_cons.
  repeat case_decide; congruence.
Qed.

Lemma sort_by_key_filter c l :
  filter (fun y => k y = c) (sort_by_key k l) = filter (fun y => k y = c) l.
Proof.
  induction l as [|x l IH]; simpl; [done|].
  rewrite insert_by_filter, !filter_cons. by rewrite IH.
Qed.

Lemma sort_by_key_stable l : stable_sorted k l (sort_by_key k l).
Proof. split; [apply sort_by_key_sorted | intros; apply sort_by_key_filter]. Qed.

(** There is one stable sort of a list: whatever stable algorithm
    [list.sort] runs, it returns this list. *)
Lemma stable_sorted_unique l l1 l2 :
  stable_sorted k l l1 -> stable_sorted k l l2 -> l1 = l2.
Proof.
  intros [Hs1 Hf1] [Hs2 Hf2].
  assert (forall c, filter (fun y => k y = c) l1 = filter (fun y => k y = c) l2)
    as Hf by (intros c; by rewrite Hf1, Hf2).
  clear Hf1 Hf2. revert l2 Hs2 Hf.
  induction Hs1 as [|x l1 Hl1 IH Hx]; intros l2 Hs2 Hf.
  - destruct l2 as [|y l2]; [done|].
    specialize (Hf (k y)). rewrite filter_cons_True in Hf by done. done.
  - destruct Hs2 as [|y l2 Hl2 Hy].
    { specialize (Hf (k x)). rewrite filter_cons_True in Hf by done. done. }
    assert (k x = k y) as Hk.
    { apply lex_le_antisym.
      - assert (y ∈ x :: l1) as Hin.
        { apply (list_elem_of_filter (fun z => k z = k y)).
          rewrite (Hf (k y)), filter_cons_True by done. by left. }
        apply elem_of_cons in Hin as [->|Hin]; [apply lex_le_refl|].
        rewrite Forall_forall in Hx. by apply Hx.
      - assert (x ∈ y :: l2) as Hin.
        { apply (list_elem_of_filter (fun z => k z = k x)).
          rewrite <- (Hf (k x)), filter_cons_True by done. by left. }
        apply elem_of_cons in Hin as [->|Hin]; [apply lex_le_refl|].
        rewrite Forall_forall in Hy. by apply Hy. }
    assert (x = y) as ->.
    { pose proof (Hf (k x)) as Hc.
      rewrite filter_cons_True in Hc by done.
      rewrite filter_cons_True in Hc by done. by injection Hc. }
    f_equal. apply IH; [done|]. intros c. specialize (Hf c).
    rewrite !filter_cons in Hf. case_decide; [by injection Hf|done].
Qed.

(** An already sorted list is left as it is. *)
Lemma sort_by_key_id l : StronglySorted R l -> sort_by_key k l = l.
Proof.
  induction 1 as [|x l Hl IH Hx]; simpl; [done|].
  rewrite IH. destruct l as [|y l]; simpl; [done|].
  apply Forall_cons in Hx as [Hxy _]. apply key_le_spec in Hxy.
  by rewrite Hxy.
Qed.

End StableSort.

Section Trimming.

Local Abbreviation spaces := (Forall (fun c => is_space c = true)).








End Trimming.

Section Walk.

Lemma is_dup_spec w h p s :
  is_dup w h p s = true <->
  get_text (h !!! s) = get_text (h !!! p) /\
  get_start (h !!! s) - get_start (h !!! p) < w.
Proof.
  unfold is_dup. rewrite andb_true_iff, bool_decide_eq_true, Z.ltb_lt. tauto.
Qed.





End Walk.


(** Section 8: identical text at 1000 and 1300 collapses into one segment
    spanning both ranges; at 1000 and 2000 both are kept. *)
Example merge_collapses_within_window :
  merged_values (alloc ∅ 0%nat [seg 1000 1200 "hello" "You";
                                seg 1300 1700 " hello " "Remote"])
                [0%nat] [1%nat]
  = [seg 1000 1700 "hello" "You"].
Proof. vm_compute. reflexivity. Qed.

Example merge_keeps_outside_window :
  merged_values (alloc ∅ 0%nat [seg 1000 1200 "hello" "You";
                                seg 2000 2400 "hello" "Remote"])
                [0%nat] [1%nat]
  = [seg 1000 1200 "hello" "You"; seg 2000 2400 "hello" "Remote"].
Proof. vm_compute. reflexivity. Qed.

Section Invariants.

Lemma extend_prev_other h p s x :
  x <> p -> extend_prev h p s !!! x = h !!! x.
Proof. intros Hx. unfold extend_prev. by rewrite lookup_total_insert_ne. Qed.

Lemma extend_prev_same h p s :
  extend_prev h p s !!! p
  = set_end (h !!! p) (Z.max (get_end (h !!! p)) (get_end (h !!! s))).
Proof. unfold extend_prev. by rewrite lookup_total_insert_eq. Qed.

(** The write touches ["t_end_ms"] only. *)
Lemma extend_prev_text h p s x :
  get_text (extend_prev h p s !!! x) = get_text (h !!! x).
Proof.
  destruct (decide (x = p)) as [->|Hx].
  - by rewrite extend_prev_same.
  - by rewrite extend_prev_other.
Qed.

Lemma extend_prev_start h p s x :
  get_start (extend_prev h p s !!! x) = get_start (h !!! x).
Proof.
  destruct (decide (x = p)) as [->|Hx].
  - by rewrite extend_prev_same.
  - by rewrite extend_prev_other.
Qed.

Lemma is_dup_extend w h p s a b :
  is_dup w (extend_prev h p s) a b = is_dup w h a b.
Proof.
  unfold is_dup. by rewrite !extend_prev_text, !extend_prev_start.
Qed.

Lemma key_at_extend_same h p s :
  key_at (extend_prev h p s) p
  = ((key_at h p).1, Z.max (key_at h p).2 (key_at h s).2).
Proof. unfold key_at. by rewrite extend_prev_same. Qed.

Lemma key_at_extend_other h p s x :
  x <> p -> key_at (extend_prev h p s) x = key_at h x.
Proof. intros. unfold key_at. by rewrite extend_prev_other. Qed.

Lemma lex_le_extend_r (a p s : Z * Z) : lex_le a p -> lex_le a (p.1, Z.max p.2 s.2).
Proof. unfold lex_le. simpl. lia. Qed.

Lemma lex_le_extend_l (p s y : Z * Z) :
  lex_le p s -> lex_le s y -> lex_le (p.1, Z.max p.2 s.2) y.
Proof. unfold lex_le. simpl. lia. Qed.

Lemma sorted_key_ext k k' l :
  (forall x, x ∈ l -> k x = k' x) ->
  StronglySorted (key_rel k) l -> StronglySorted (key_rel k') l.
Proof.
  intros Hk Hs. induction Hs as [|x l Hl IH Hx]; [constructor|].
  constructor.
  - apply IH. intros y Hy. apply Hk. by right.
  - rewrite Forall_forall in Hx |- *. intros y Hy.
    unfold key_rel. rewrite <- !Hk by (by constructor). by apply Hx.
Qed.

(** With pairwise distinct dicts, extending the last emitted one keeps the
    emitted entries followed by the pending ones sorted. *)
Lemma extend_keeps_sorted h d0 p s rest :
  NoDup ((d0 ++ [p]) ++ s :: rest) ->
  StronglySorted (key_rel (key_at h)) ((d0 ++ [p]) ++ s :: rest) ->
  StronglySorted (key_rel (key_at (extend_prev h p s))) ((d0 ++ [p]) ++ rest).
Proof.
  rewrite <- !(assoc_L (++)). simpl.
  rewrite NoDup_app, !NoDup_cons.
  intros (_ & Hd0 & Hp & _ & _).
  assert (p ∉ d0) as Hpd0.
  { intros Hin. apply (Hd0 _ Hin). by left. }
  assert (p ∉ rest) as Hprest.
  { intros Hin. apply Hp. by right. }
  rewrite !StronglySorted_app, !StronglySorted_cons, !Forall_forall.
  intros (Hcross & Hs0 & Hps & Hsr & Hrest).
  assert (forall x, x ∈ d0 -> key_at (extend_prev h p s) x = key_at h x) as K0.
  { intros x Hx. apply key_at_extend_other. intros ->. done. }
  assert (forall x, x ∈ rest -> key_at (extend_prev h p s) x = key_at h x) as Kr.
  { intros x Hx. apply key_at_extend_other. intros ->. done. }
  split; [|split; [|split]].
  - intros x y Hx Hy. unfold key_rel. rewrite (K0 _ Hx).
    apply elem_of_cons in Hy as [->|Hy].
    + rewrite key_at_extend_same. apply lex_le_extend_r.
      apply (Hcross x p Hx). by left.
    + rewrite (Kr _ Hy). apply (Hcross x y Hx). right. by right.
  - eapply sorted_key_ext; [|exact Hs0]. intros x Hx. by rewrite K0.
  - intros y Hy. unfold key_rel. rewrite key_at_extend_same, (Kr _ Hy).
    apply lex_le_extend_l.
    + apply Hps. by left.
    + by apply Hsr.
  - eapply sorted_key_ext; [|exact Hrest]. intros x Hx. by rewrite Kr.
Qed.

Lemma walk_sorted rest : forall h d,
  NoDup (d ++ rest) ->
  StronglySorted (key_rel (key_at h)) (d ++ rest) ->
  StronglySorted (key_rel (key_at (fold_left dedup_step rest (h, d)).1))
                 (fold_left dedup_step rest (h, d)).2.
Proof.
  induction rest as [|s rest IH]; intros h d Hnd Hs; simpl.
  - by rewrite app_nil_r in Hs.
  - destruct (last d) as [p|] eqn:El.
    + destruct (is_dup 500 h p s) eqn:Ed.
      * apply last_Some in El as [d0 ->]. apply IH.
        -- rewrite NoDup_app in Hnd |- *. rewrite NoDup_cons in Hnd.
           destruct Hnd as (H1 & H2 & _ & H3). repeat split; [done| |done].
           intros x Hx Hr. apply (H2 x Hx). by right.
        -- by apply extend_keeps_sorted.
      * apply IH; by rewrite <- (assoc_L (++)).
    + apply IH; by rewrite <- (assoc_L (++)).
Qed.

Lemma no_adjacent_dup_snoc w h d s :
  no_adjacent_dup w h d ->
  (forall p, last d = Some p -> is_dup w h p s = false) ->
  no_adjacent_dup w h (d ++ [s]).
Proof.
  intros Hd Hl i p' s' Hp Hs.
  destruct (decide (S i < length d)%nat) as [Hlt|Hge].
  - rewrite lookup_app_l in Hp by lia. rewrite lookup_app_l in Hs by lia.
    eauto.
  - rewrite lookup_app_r in Hs by lia.
    destruct (S i - length d)%nat as [|n] eqn:En; simpl in Hs; [|done].
    injection Hs as <-. rewrite lookup_app_l in Hp by lia.
    apply Hl. rewrite last_lookup, <- Hp. f_equal. lia.
Qed.

Lemma no_adjacent_dup_extend w h p s l :
  no_adjacent_dup w h l -> no_adjacent_dup w (extend_prev h p s) l.
Proof. intros Hl i a b Ha Hb. rewrite is_dup_extend. eauto. Qed.

(** Section 3's invariant on the emitted list, shared dicts or not. *)
Lemma walk_no_adjacent_dup rest : forall h d,
  no_adjacent_dup 500 h d ->
  no_adjacent_dup 500 (fold_left dedup_step rest (h, d)).1
                      (fold_left dedup_step rest (h, d)).2.
Proof.
  induction rest as [|s rest IH]; intros h d Hd; simpl; [done|].
  destruct (last d) as [p|] eqn:El.
  - destruct (is_dup 500 h p s) eqn:Ed.
    + apply IH. by apply no_adjacent_dup_extend.
    + apply IH. apply no_adjacent_dup_snoc; [done|]. congruence.
  - apply IH. apply no_adjacent_dup_snoc; [done|]. congruence.
Qed.

(** Without a duplicate among neighbours the walk emits everything and
    writes nothing. *)
Lemma walk_without_dup h rest : forall d,
  no_adjacent_dup 500 h (d ++ rest) ->
  fold_left dedup_step rest (h, d) = (h, d ++ rest).
Proof.
  induction rest as [|s rest IH]; intros d Hn; simpl.
  - by rewrite app_nil_r.
  - assert (fold_left dedup_step rest (h, d ++ [s]) = (h, d ++ s :: rest)) as E.
    { rewrite IH; rewrite <- (assoc_L (++)); done. }
    destruct (last d) as [p|] eqn:El; [|done].
    apply last_Some in El as [d0 ->].
    rewrite (Hn (length d0) p s); [done| |].
    + rewrite <- !(assoc_L (++)). simpl. by apply list_lookup_middle.
    + rewrite <- !(assoc_L (++)). rewrite lookup_app_r by lia.
      by replace (S (length d0) - length d0)%nat with 1%nat by lia.
Qed.

Lemma merge_again_is_identity h m :
  StronglySorted (key_rel (key_at h)) m ->
  no_adjacent_dup 500 h m ->
  _merge_and_filter h m [] = (h, m).
Proof.
  intros Hs Hn. unfold _merge_and_filter, _filter_and_merge_adjacent.
  rewrite app_nil_r, sort_by_key_id by done.
  by apply (walk_without_dup h m []).
Qed.

Lemma merge_output_sorted h mic sys :
  NoDup (mic ++ sys) ->
  StronglySorted (key_rel (key_at (_merge_and_filter h mic sys).1))
                 (_merge_and_filter h mic sys).2.
Proof.
  intros Hnd. unfold _merge_and_filter, _filter_and_merge_adjacent.
  apply walk_sorted; simpl.
  - by rewrite sort_by_key_perm.
  - apply sort_by_key_sorted.
Qed.

Lemma merge_output_no_adjacent_dup h mic sys :
  no_adjacent_dup 500 (_merge_and_filter h mic sys).1
                      (_merge_and_filter h mic sys).2.
Proof.
  unfold _merge_and_filter. apply walk_no_adjacent_dup.
  intros i p s Hp. done.
Qed.

End Invariants.


Section FreshDicts.

Lemma alloc_below vs : forall (h : heap) n m,
  (m < n)%nat -> alloc h n vs !! m = h !! m.
Proof.
  induction vs as [|v vs IH]; intros h n m Hm; simpl; [done|].
  rewrite IH by lia. apply lookup_insert_ne. lia.
Qed.

(** Dicts built one after the other hold the values they were built from. *)
Lemma alloc_deref vs : forall (h : heap) n,
  deref (alloc h n vs) (seq n (length vs)) = vs.
Proof.
  induction vs as [|v vs IH]; intros h n; simpl; [done|].
  unfold deref in *. simpl. f_equal; [|apply IH].
  rewrite lookup_total_alt, alloc_below by lia.
  by rewrite lookup_insert_eq.
Qed.

Lemma alloc_deref_app va vb (h : heap) n :
  deref (alloc h n (va ++ vb)) (seq n (length va)) = va /\
  deref (alloc h n (va ++ vb)) (seq (n + length va) (length vb)) = vb.
Proof.
  pose proof (alloc_deref (va ++ vb) h n) as Hd.
  rewrite length_app, seq_app in Hd. unfold deref in *.
  rewrite fmap_app in Hd.
  apply app_inj_1 in Hd; [done|]. by rewrite length_fmap, length_seq.
Qed.

(** The caller's case: the two lists hold freshly built dicts. *)
Lemma fresh_dicts_distinct (n : nat) (va vb : list segment) :
  NoDup (seq n (length va) ++ seq (n + length va) (length vb)).
Proof. rewrite <- seq_app. apply NoDup_seq. Qed.

End FreshDicts.


(** Sortedness needs the dicts to be distinct objects: [merge(a, a)] appends
    each shared dict twice and then extends it through [dedup[-1]], which
    lifts the earlier occurrence above its neighbour.  No caller does this. *)
Example merge_unsorted_with_shared_dicts :
  ~ StronglySorted seg_le
      (merged_values shared_heap [0; 1; 2]%nat [0; 1; 2]%nat).
Proof.
  assert (merged_values shared_heap [0; 1; 2]%nat [0; 1; 2]%nat
          = [seg 0 10 "x" "You"; seg 0 20 "y" "You";
             seg 0 10 "x" "You"; seg 0 20 "y" "You"]) as ->
    by (vm_compute; reflexivity).
  intros Hs. apply StronglySorted_cons in Hs as [_ Hs].
  apply StronglySorted_cons in Hs as [Hf _].
  apply Forall_cons in Hf as [Hle _].
  unfold seg_le, lex_le, seg_key, get_start, get_end, seg in Hle.
  simpl in Hle. lia.
Qed.

(** With no dict object twice across the two lists, merging the returned
    list with an empty list yields that list again. *)
Lemma merge_idempotent_for_distinct_dicts (h : heap) (mic sys : list loc) :
  NoDup (mic ++ sys) ->
  merge_idempotent_at h mic sys.
Proof.
  intros Hnd. unfold merge_idempotent_at.
  pose proof (merge_output_sorted h mic sys Hnd) as Hs.
  pose proof (merge_output_no_adjacent_dup h mic sys) as Hn.
  destruct (_merge_and_filter h mic sys) as [h1 m]. simpl in Hs, Hn.
  by rewrite merge_again_is_identity.
Qed.

(** C4 (as amended). For every pair of input segment lists a and b (built,
    as the caller's are, from the values [va] and [vb], one new dict per
    segment): with m the list [merge(a, b)] returned, [merge(m, [])] returns
    the same dicts in the same order and writes nothing, so
    [merge(m, []) == m]. *)
Theorem merge_idempotent_for_fresh_dicts (h : heap) (n : nat)
    (va vb : list segment) :
  let h0 := alloc h n (va ++ vb) in
  let mic := seq n (length va) in
  let sys := seq (n + length va) (length vb) in
  deref h0 mic = va /\ deref h0 sys = vb /\
  merge_idempotent_at h0 mic sys /\
  _merge_and_filter (_merge_and_filter h0 mic sys).1
                    (_merge_and_filter h0 mic sys).2 []
  = _merge_and_filter h0 mic sys.
Proof.
  intros h0 mic sys.
  destruct (alloc_deref_app va vb h n) as [Ha Hb].
  split; [exact Ha|]. split; [exact Hb|].
  pose proof (fresh_dicts_distinct n va vb) as Hnd.
  split; [by apply merge_idempotent_for_distinct_dicts|].
  pose proof (merge_output_sorted h0 mic sys Hnd) as Hs.
  pose proof (merge_output_no_adjacent_dup h0 mic sys) as Hn.
  destruct (_merge_and_filter h0 mic sys) as [h1 m]. simpl in *.
  by apply merge_again_is_identity.
Qed.

(** C4 as stated fails on two distinct dicts: with a = [You 0..20 "x"] and
    b = [Remote 0..10 "x"] the first [merge(a, b)] keeps Remote's dict and
    extends it to 20; evaluating [merge(a, b)] again for the right-hand side
    of the formula now finds equal keys, keeps You's dict, and the two sides
    differ in their speaker. *)
Lemma merge_reevaluated_differs :
  ~ merge_idempotent_as_stated swapped_heap [0%nat] [1%nat].
Proof. vm_compute. intros H. discriminate H. Qed.

(** The two sides of that comparison. *)
Example merge_rerun_reads_mutated_inputs :
  let '(h1, m1) := _merge_and_filter swapped_heap [0%nat] [1%nat] in
  let '(h2, m2) := _merge_and_filter h1 [0%nat] [1%nat] in
  deref h1 m1 = [seg 0 20 "x" "Remote"] /\
  deref h2 m2 = [seg 0 20 "x" "You"].
Proof. vm_compute. split; reflexivity. Qed.

(** Idempotence too needs distinct objects: after [merge(a, a)] the second
    merge collapses what the first one returned twice. *)
Example merge_not_idempotent_with_shared_dicts :
  ~ merge_idempotent_at shared_heap [0; 1; 2]%nat [0; 1; 2]%nat.
Proof. vm_compute. intros H. discriminate H. Qed.

(* ===================================================================== *)
(** * Properties of the device registry *)
(* ===================================================================== *)

Example list_devices_demo :
  list_devices demo_env
  = Return (Listing [mkDevice "0" "Mic" "input" true]
                    [mkDevice "1" "Speakers" "output" true]).
Proof. vm_compute. reflexivity. Qed.

Section Enumeration.
Variables (devices : list dev_info) (din dout : option Z).

Local Abbreviation all_listed := (all_listed devices din dout).

Lemma make_device_listed idx dev nm knd dflt :
  devices !! idx = Some dev ->
  keeps all_listed (make_device idx nm knd dflt) (listed_from devices dflt).
Proof.
  intros Hdev. unfold make_device.
  destruct nm; try apply keeps_raise.
  apply keeps_ret. by exists idx, dev.
Qed.

Lemma gt_zero_listed v : keeps all_listed (gt_zero v) (fun _ => True).
Proof. destruct v; try apply keeps_raise. by apply keeps_ret. Qed.

Lemma visit_listed idx dev :
  devices !! idx = Some dev ->
  keeps all_listed (visit din dout idx dev) (fun _ => True).
Proof.
  intros Hdev. unfold visit.
  eapply keeps_bind; [apply gt_zero_listed|]. intros is_in _.
  eapply (keeps_bind _ _ _ (fun _ => True)).
  { destruct is_in; [|by apply keeps_ret].
    eapply keeps_bind; [by eapply make_device_listed|].
    intros d Hd. apply keeps_modify; [|done].
    intros l [Hi Ho]. split; simpl; [|done].
    apply Forall_app. split; [done|]. by constructor. }
  intros _ _.
  eapply keeps_bind; [apply gt_zero_listed|]. intros is_out _.
  destruct is_out; [|by apply keeps_ret].
  eapply keeps_bind; [by eapply make_device_listed|].
  intros d Hd. apply keeps_modify; [|done].
  intros l [Hi Ho]. split; simpl; [done|].
  apply Forall_app. split; [done|]. by constructor.
Qed.

Lemma enumerate_listed rest : forall pre,
  devices = pre ++ rest ->
  keeps all_listed (enumerate_from din dout (length pre) rest) (fun _ => True).
Proof.
  induction rest as [|dev rest IH]; intros pre Hd; simpl.
  - by apply keeps_ret.
  - eapply keeps_bind.
    + apply (visit_listed _ dev). rewrite Hd. by apply list_lookup_middle.
    + intros _ _. specialize (IH (pre ++ [dev])).
      rewrite length_app in IH. simpl in IH.
      replace (length pre + 1)%nat with (S (length pre)) in IH by lia.
      apply IH. by rewrite <- (assoc_L (++)).
Qed.

End Enumeration.

(** C8. [list_devices] never throws: whatever the audio subsystem does, it
    returns two sequences of descriptors, both empty when the backend module
    is absent or the enumeration itself fails; every descriptor stands for an
    entry of the backend's enumeration, and is marked default only when that
    entry's index is the backend's default, so a device the backend does not
    enumerate is never marked default. *)
Theorem list_devices_never_throws (E : env) :
  exists l,
    list_devices E = Return l /\
    (sd_loaded E = false \/ sd_query_all E = None -> l = Listing [] []) /\
    Forall (listed_from (default [] (sd_query_all E)) (default_input E))
           (inputs l) /\
    Forall (listed_from (default [] (sd_query_all E)) (default_output E))
           (outputs l).
Proof.
  unfold list_devices. destruct (sd_loaded E) eqn:Hsd; simpl.
  2:{ exists (Listing [] []). repeat split; constructor. }
  unfold try_except, bind, lift.
  destruct (sd_query_all E) as [devices|] eqn:Hq; simpl.
  2:{ exists (Listing [] []). repeat split; constructor. }
  pose proof (enumerate_listed devices (default_input E) (default_output E)
                devices [] eq_refl (Listing [] [])) as [[Hi Ho] _].
  { split; constructor. }
  simpl in Hi, Ho.
  destruct (enumerate_from _ _ 0%nat devices (Listing [] [])) as [l [[]|e]];
    exists l; simpl in *; (split; [done|]); (split; [|done]);
    intros [?|?]; discriminate.
Qed.

(** A device dict whose ["name"] is not a string stops the enumeration; the
    descriptors appended before it are still returned. *)
Example list_devices_keeps_partial_listing :
  list_devices
    {| sd_loaded := true; sc_loaded := false; audio_dir := "";
       py_int := fun _ => None;
       sd_query_all := Some (demo_devices ++
                             [ {[ "name" := PNone; "max_input_channels" := PInt 1 ]} ]);
       sd_default_device := None;
       sd_query := fun _ => None; sd_query_output := fun _ => None;
       wasapi_available := false;
       stream_create_ok := fun _ => false; stream_start_ok := fun _ => false;
       stream_stop_ok := fun _ _ => true; stream_close_ok := fun _ _ => true;
       wav_open_ok := fun _ => true; wav_write_ok := fun _ _ => true;
       wav_close_ok := fun _ => true;
       thread_start_ok := true; thread_join_ok := true |}
  = Return (Listing [mkDevice "0" "Mic" "input" false]
                    [mkDevice "1" "Speakers" "output" false]).
Proof. vm_compute. reflexivity. Qed.

(* ===================================================================== *)
(** * Properties of recording sessions *)
(* ===================================================================== *)

Example start_on_default_devices :
  start_recording (host true true true) "m1" None None empty_world
  = (recording_m1,
     Return {[ "mic_path" := PStr "audio/m1/mic.wav";
               "sys_path" := PStr "audio/m1/system.wav" ]}).
Proof. vm_compute. reflexivity. Qed.

Example recording_m1_bundle :
  _recordings recording_m1 !! "m1"
  = Some (StreamBundle
            (Some (StreamRequest 0 2 44100 4096 false))
            (Some (StreamRequest 1 2 48000 4096 true))
            (Some "audio/m1/mic.wav") (Some "audio/m1/system.wav")
            0 0 None None (Some 44100) (Some 2) (Some 48000) (Some 2)
            (Some "sounddevice") 48000).
Proof. vm_compute. reflexivity. Qed.

(** [pop(key, None)] on a key that is not there. *)
Lemma pop_unknown_key (key : string) (w : world) :
  _recordings w !! key = None ->
  with_recordings (delete key) w = w.
Proof.
  intros Hk. destruct w as [recs ? ? ? ? ?]. unfold with_recordings.
  simpl in *. f_equal. by apply delete_id.
Qed.

Lemma stop_recording_unknown_key (E : env) (key : string) (w : world) :
  _recordings w !! key = None ->
  (stop_recording E key w).1 = w /\ (stop_recording E key w).2 = Return ∅.
Proof.
  intros Hk. unfold stop_recording, bind, gets, modify. simpl. rewrite Hk.
  simpl. split; [by apply pop_unknown_key|done].
Qed.

(** C7. Stopping a key with no active session returns an empty result, raises
    nothing and changes nothing. *)
Theorem stop_unknown_key_returns_empty (E : env) (key : string) (w : world) :
  _recordings w !! key = None ->
  stop_recording E key w = (w, Return ∅).
Proof.
  intros Hk. unfold stop_recording.
  unfold bind at 1. unfold gets at 1. simpl. rewrite Hk.
  unfold bind, modify, ret. simpl. f_equal. by apply pop_unknown_key.
Qed.

Lemma stop_unknown_key_returns_empty_witness :
  _recordings recording_m1 !! "unknown" = None /\
  stop_recording (host true true true) "unknown" recording_m1
  = (recording_m1, Return ∅).
Proof.
  assert (_recordings recording_m1 !! "unknown" = None) as Hk
    by (vm_compute; reflexivity).
  split; [exact Hk|].
  exact (stop_unknown_key_returns_empty (host true true true) "unknown"
           recording_m1 Hk).
Defined.

Section Pipeline.
Variables (E : env) (D : dsp).

Lemma resample_or_pass_failure rate target (f32 : samples D) :
  (forall r, rate = Some r -> soxr_resample D f32 r target = None) ->
  resample_or_pass D rate target f32 = f32.
Proof.
  intros Hf. unfold resample_or_pass. destruct rate as [r|]; [|done].
  rewrite (Hf r eq_refl). by destruct (negb (r =? 0) && negb (r =? target)).
Qed.

Lemma get_bundle_registered key (w : world) b :
  _recordings w !! key = Some b -> get_bundle key w = (w, Return b).
Proof. intros Hb. unfold get_bundle, gets. by rewrite Hb. Qed.

Lemma deliver_unresampled key p (indata : block D) (w : world) b :
  _recordings w !! key = Some b ->
  resample_or_pass D (feed_rate p b) (target_rate b) (to_mono_f32 D indata)
  = to_mono_f32 D indata ->
  deliver E D key p indata w
  = write_block E D key p (to_mono_f32 D indata) w.
Proof.
  intros Hb Hr.
  destruct p; simpl in *; unfold _mic_cb, _sys_cb, _sc_loop_turn, bind;
    rewrite (get_bundle_registered _ _ _ Hb), Hr; done.
Qed.

Lemma write_block_appends key p (f32 : samples D) (w : world) b wf f :
  _recordings w !! key = Some b ->
  feed_wav p b = Some wf ->
  wavs w !! wf = Some f ->
  w_closed f = false ->
  wav_write_ok E wf (encode_pcm16 D f32) = true ->
  wavs (write_block E D key p f32 w).1 !! wf
  = Some (WaveWrite (w_channels f) (w_sampwidth f) (w_framerate f)
                    (w_data f ++ encode_pcm16 D f32) false) /\
  feed_frames p <$> _recordings (write_block E D key p f32 w).1 !! key
  = Some (feed_frames p b + frame_count D f32).
Proof.
  intros Hb Hwf Hf Hc Hok. unfold write_block, bind.
  rewrite (get_bundle_registered _ _ _ Hb), Hwf.
  unfold try_except, bind, writeframes, bind, gets. rewrite Hf, Hc, Hok.
  destruct p; simpl; rewrite lookup_insert_eq, lookup_alter_eq, Hb; done.
Qed.

End Pipeline.

(** C9. When the resampler fails on a delivered block, each of the three
    feeds (microphone callback, system callback, fallback loop) hands the
    unresampled block to the rest of the pipeline; with the track's writer
    open and taking the write, the block's bytes are appended to the track
    file and the frame counter advances by the block's own length. *)
Theorem resample_failure_passes_block_through
    (E : env) (D : dsp) (key : string) (p : feed) (indata : block D)
    (w : world) (b : _StreamBundle) :
  _recordings w !! key = Some b ->
  (forall r, feed_rate p b = Some r ->
     soxr_resample D (to_mono_f32 D indata) r (target_rate b) = None) ->
  deliver E D key p indata w
  = write_block E D key p (to_mono_f32 D indata) w /\
  forall wf f,
    feed_wav p b = Some wf ->
    wavs w !! wf = Some f ->
    w_closed f = false ->
    wav_write_ok E wf (encode_pcm16 D (to_mono_f32 D indata)) = true ->
    wavs (deliver E D key p indata w).1 !! wf
    = Some (WaveWrite (w_channels f) (w_sampwidth f) (w_framerate f)
              (w_data f ++ encode_pcm16 D (to_mono_f32 D indata)) false) /\
    feed_frames p <$> _recordings (deliver E D key p indata w).1 !! key
    = Some (feed_frames p b + frame_count D (to_mono_f32 D indata)).
Proof.
  intros Hb Hfail.
  assert (deliver E D key p indata w
          = write_block E D key p (to_mono_f32 D indata) w) as Hd.
  { apply (deliver_unresampled E D key p indata w b Hb).
    by apply resample_or_pass_failure. }
  split; [exact Hd|]. intros wf f Hwf Hf Hc Hok. rewrite Hd.
  by apply (write_block_appends E D key p _ w b wf f).
Qed.

Lemma resample_failure_passes_block_through_witness :
  wavs (deliver (host true true true) failing_resampler "m1" MicCallback
          [7; 8; 9] recording_m1).1 !! "audio/m1/mic.wav"
  = Some (WaveWrite 1 2 48000 [7; 8; 9] false) /\
  mic_frames <$> _recordings (deliver (host true true true) failing_resampler
                   "m1" MicCallback [7; 8; 9] recording_m1).1 !! "m1"
  = Some 3.
Proof.
  exact (proj2 (resample_failure_passes_block_through
           (host true true true) failing_resampler "m1" MicCallback [7; 8; 9]
           recording_m1 _ recording_m1_bundle (fun r _ => eq_refl))
         "audio/m1/mic.wav" (WaveWrite 1 2 48000 [] false)
         eq_refl eq_refl eq_refl eq_refl).
Defined.

(** A block delivered while the writer is not open is dropped, resampled or
    not: the write step is where blocks get lost. *)
Example block_before_writer_is_dropped :
  let w := (modify (with_recordings (<["m2" := set_mic_rate (Some 44100) new_bundle]>))
              empty_world).1 in
  (deliver (host true true true) failing_resampler "m2" MicCallback [7; 8; 9] w).1 = w.
Proof. vm_compute. reflexivity. Qed.

Lemma registered_alter key k f (w : world) :
  registered key w -> registered key (with_recordings (alter f k) w).
Proof.
  unfold registered. destruct w; simpl. by rewrite lookup_alter_is_Some.
Qed.

Lemma registered_insert key k b (w : world) :
  registered key w -> registered key (with_recordings (<[k := b]>) w).
Proof.
  unfold registered. destruct w; simpl. rewrite lookup_insert_is_Some'. tauto.
Qed.

Ltac capture_walk :=
  inv_walk_with ltac:(progress unfold resolve_device, open_system_fallback, to_int).

Ltac registered_side :=
  first
    [ apply inv_modify;
      first [ intros ?; apply registered_insert
            | intros ?; apply registered_alter
            | by intros [] ] ].

Section Registered.
Variables (E : env) (key : string).

Local Abbreviation stays m := (keeps (registered key) m (fun _ => True)).

(** [start_recording], for whichever key, removes no key. *)
Lemma start_recording_registered k mic out : stays (start_recording E k mic out).
Proof. unfold start_recording. capture_walk; registered_side. Qed.

(** Neither do the capture callbacks. *)
Lemma deliver_registered D k p indata : stays (deliver E D k p indata).
Proof. destruct p; capture_walk; registered_side. Qed.

(** Once the backend module is there, a start request leaves the key
    registered, however the call ends. *)
Lemma start_recording_registers mic out (w : world) :
  sd_loaded E = true ->
  registered key (start_recording E key mic out w).1.
Proof.
  intros Hsd. unfold start_recording. rewrite Hsd. simpl.
  unfold bind at 1. unfold gets at 1. simpl.
  case_bool_decide as Hreg; [done|].
  unfold bind at 1. unfold modify at 1. simpl.
  match goal with |- registered _ (?m ?s).1 =>
    apply (inv_apply (registered key) m s) end.
  - capture_walk; registered_side.
  - unfold registered. destruct w; simpl. by rewrite lookup_insert_eq.
Qed.

Lemma start_on_registered_key mic out (w : world) :
  sd_loaded E = true -> registered key w ->
  start_recording E key mic out w = (w, Return ∅).
Proof.
  intros Hsd Hreg. unfold start_recording. rewrite Hsd. simpl.
  unfold bind, gets. simpl. by rewrite bool_decide_eq_true_2.
Qed.

End Registered.

Section Consistent.
Variables (E : env).

Local Abbreviation sound m := (keeps consistent m (fun _ => True)).

Lemma consistent_add_stream x (w : world) :
  consistent w -> consistent (with_streams (union {[ x ]}) w).
Proof.
  intros Hc key b Hb. destruct (Hc key b) as (H1 & H2 & H3).
  { by destruct w. }
  destruct w; simpl in *. repeat split; [done|..]; set_solver.
Qed.

Lemma consistent_insert_new k (w : world) :
  consistent w -> consistent (with_recordings (<[k := new_bundle]>) w).
Proof.
  intros Hc key b. destruct w as [recs ss ? ? ? ?]; simpl.
  rewrite lookup_insert. case_decide as Hk.
  - intros [= <-]. repeat split; [by left|..]; intros [? [=]].
  - intros Hb. by apply (Hc key b).
Qed.

(** A setter that leaves the stream handles and the backend name alone. *)
Lemma consistent_alter_frame k f (w : world) :
  (forall b, sys_backend (f b) = sys_backend b /\
             mic_stream (f b) = mic_stream b /\
             sys_stream (f b) = sys_stream b) ->
  consistent w -> consistent (with_recordings (alter f k) w).
Proof.
  intros Hf Hc key b. destruct w as [recs ss ? ? ? ?]; simpl.
  rewrite lookup_alter. case_decide as Hk; [|by apply (Hc key b)].
  subst. destruct (recs !! key) as [b0|] eqn:Hb0; [|done].
  intros [= <-]. destruct (Hf b0) as (Ha & Hm & Hs).
  destruct (Hc key b0 Hb0) as (H1 & H2 & H3).
  unfold backend_named. by rewrite Ha, Hm, Hs.
Qed.

Lemma consistent_alter_backend k v (w : world) :
  v = "sounddevice" \/ v = "soundcard" ->
  consistent w ->
  consistent (with_recordings (alter (set_sys_backend (Some v)) k) w).
Proof.
  intros Hv Hc key b. destruct w as [recs ss ? ? ? ?]; simpl.
  rewrite lookup_alter. case_decide as Hk; [|by apply (Hc key b)].
  subst. destruct (recs !! key) as [b0|] eqn:Hb0; [|done].
  intros [= <-]. destruct (Hc key b0 Hb0) as (H1 & H2 & H3).
  repeat split; [|done..]. unfold backend_named. simpl.
  destruct Hv as [-> | ->]; auto.
Qed.

Lemma consistent_started_mic k v (w : world) :
  consistent w ->
  consistent (with_recordings (alter (set_mic_stream v) k)
                (with_streams (union {[ (k, Mic) ]}) w)).
Proof.
  intros Hc key b. destruct w as [recs ss ? ? ? ?]; simpl.
  rewrite lookup_alter. case_decide as Hk.
  - subst. destruct (recs !! key) as [b0|] eqn:Hb0; [|done].
    intros [= <-]. destruct (Hc key b0 Hb0) as (H1 & H2 & H3). simpl in *.
    repeat split; [done|..]; set_solver.
  - intros Hb. destruct (Hc key b Hb) as (H1 & H2 & H3). simpl in *.
    repeat split; [done|..]; set_solver.
Qed.

Lemma consistent_started_system k v (w : world) :
  consistent w ->
  consistent (with_recordings (alter (set_sys_stream v) k)
                (with_streams (union {[ (k, System) ]}) w)).
Proof.
  intros Hc key b. destruct w as [recs ss ? ? ? ?]; simpl.
  rewrite lookup_alter. case_decide as Hk.
  - subst. destruct (recs !! key) as [b0|] eqn:Hb0; [|done].
    intros [= <-]. destruct (Hc key b0 Hb0) as (H1 & H2 & H3). simpl in *.
    repeat split; [done|..]; set_solver.
  - intros Hb. destruct (Hc key b Hb) as (H1 & H2 & H3). simpl in *.
    repeat split; [done|..]; set_solver.
Qed.

Ltac consistent_side :=
  apply inv_modify;
  first
    [ intros ?; apply consistent_insert_new
    | intros ?; apply consistent_alter_backend; solve [auto]
    | intros ?; apply consistent_alter_frame; solve [intros ?; auto]
    | intros ?; apply consistent_add_stream
    | by intros [] ].

Ltac consistent_hook :=
  first
    [ progress unfold resolve_device, open_system_fallback, to_int
    | match goal with
      | |- keeps _ (bind (modify (with_streams (union {[ (_, Mic) ]}))) _) _ =>
          apply inv_modify_pair; [intros ?; apply consistent_started_mic|]
      | |- keeps _ (bind (modify (with_streams (union {[ (_, System) ]}))) _) _ =>
          apply inv_modify_pair; [intros ?; apply consistent_started_system|]
      end ].

Lemma start_recording_consistent key mic out :
  sound (start_recording E key mic out).
Proof.
  unfold start_recording. inv_walk_with consistent_hook; consistent_side.
Qed.

Lemma deliver_consistent D key p indata : sound (deliver E D key p indata).
Proof. destruct p; inv_walk_with consistent_hook; consistent_side. Qed.

Lemma stopping_remove_stream key t (w : world) :
  stopping key w -> stopping key (with_streams (fun s => s ∖ {[ (key, t) ]}) w).
Proof.
  intros [Hc Hk]. destruct w as [recs ss ? ? ? ?]; simpl in *.
  split; [|done]. intros k b Hb. destruct (Hc k b Hb) as (H1 & H2 & H3).
  simpl in *. assert (k <> key) by congruence.
  repeat split; [done|..]; set_solver.
Qed.

Lemma stop_recording_consistent key : sound (stop_recording E key).
Proof.
  unfold stop_recording. apply inv_bind; [apply inv_gets|]. intros popped.
  apply (inv_modify_switch _ (stopping key)).
  - intros w Hc. destruct w as [recs ss ? ? ? ?]; simpl. split.
    + intros k b. simpl. rewrite lookup_delete_Some. intros [_ Hb].
      by apply (Hc k b).
    + simpl. by rewrite lookup_delete_eq.
  - by intros w [Hc _].
  - unfold stop_and_close, close_quietly. inv_walk; apply inv_modify;
      first [ intros ?; apply stopping_remove_stream | by intros [] ].
Qed.

End Consistent.

Lemma reachable_consistent sd sc (w : world) :
  reachable sd sc w -> consistent w.
Proof.
  induction 1 as [|E' key mic out w Hr IH|E' key w Hr IH|E' D key p blk w Hr IH].
  - intros key b. done.
  - by apply (inv_apply _ _ _ (start_recording_consistent E' key mic out)).
  - by apply (inv_apply _ _ _ (stop_recording_consistent E' key)).
  - by apply (inv_apply _ _ _ (deliver_consistent E' D key p blk)).
Qed.

Section Unregistered.
Variables (E : env) (key : string).

(** A callback whose session is not in the table finds no writer. *)
Lemma deliver_unregistered D p indata (w : world) :
  _recordings w !! key = None ->
  deliver E D key p indata w = (w, Return tt).
Proof.
  intros Hk.
  destruct p; simpl; unfold _mic_cb, _sys_cb, _sc_loop_turn, write_block,
    bind, get_bundle, gets; rewrite Hk; reflexivity.
Qed.

Lemma start_without_backend mic out (w : world) :
  sd_loaded E = false ->
  start_recording E key mic out w
  = (w, Raise (RuntimeError "sounddevice not available")).
Proof. intros Hsd. unfold start_recording. by rewrite Hsd. Qed.

End Unregistered.

(** Without the backend module no session is ever registered. *)
Lemma reachable_without_backend sc (w : world) :
  reachable false sc w -> _recordings w = ∅.
Proof.
  induction 1 as [|E key mic out w Hr IH Hsd|E key w Hr IH|E D key p blk w Hr IH].
  - done.
  - by rewrite start_without_backend.
  - assert (_recordings w !! key = None) as Hk by (by rewrite IH).
    by rewrite (proj1 (stop_recording_unknown_key E key w Hk)).
  - rewrite deliver_unregistered; [done|]. by rewrite IH.
Qed.

Lemma registered_needs_backend sd sc key (w : world) :
  reachable sd sc w -> registered key w -> sd = true.
Proof.
  intros Hr [b Hb]. destruct sd; [done|].
  apply reachable_without_backend in Hr. by rewrite Hr in Hb.
Qed.

(** C6. In any process, a start request for a key that already has an active
    session returns an empty result and leaves everything as it was: the
    session table, the running streams and threads, the track files and the
    log. *)
Theorem second_start_is_noop (sd sc : bool) (w : world) (E : env)
    (key : string) (mic out : option string) :
  reachable sd sc w ->
  sd_loaded E = sd ->
  registered key w ->
  start_recording E key mic out w = (w, Return ∅).
Proof.
  intros Hr Hsd Hreg. apply start_on_registered_key; [|done].
  rewrite Hsd. by eapply registered_needs_backend.
Qed.

Lemma second_start_is_noop_witness :
  start_recording (host true true false) "m1" (Some "0") (Some "1") recording_m1
  = (recording_m1, Return ∅).
Proof.
  refine (second_start_is_noop true true recording_m1 (host true true false)
            "m1" (Some "0") (Some "1") _ eq_refl _).
  - exact (reach_start true true (host true true true) "m1" None None
             empty_world (reach_init true true) eq_refl eq_refl).
  - unfold registered. rewrite recording_m1_bundle. by eexists.
Defined.

Section Stop.
Variables (E : env) (key : string).

(** [stop_recording] pops the key and touches no other entry. *)
Lemma stop_recording_table (w : world) :
  _recordings (stop_recording E key w).1 = delete key (_recordings w).
Proof.
  unfold stop_recording. unfold bind at 1. unfold gets at 1. simpl.
  unfold bind at 1. unfold modify at 1. simpl.
  match goal with |- _recordings (?m ?s).1 = _ =>
    apply (inv_apply (fun s' => _recordings s' = delete key (_recordings w)) m s)
  end.
  - unfold stop_and_close, close_quietly. inv_walk; apply inv_modify; by intros [].
  - by destruct w.
Qed.

Lemma stop_recording_unregisters (w : world) :
  ~ registered key (stop_recording E key w).1.
Proof.
  unfold registered. rewrite stop_recording_table, lookup_delete_eq.
  by intros [? [=]].
Qed.

Lemma stop_and_close_stopped t t' :
  keeps (fun w => (key, t) ∉ streams w) (stop_and_close E key t') (fun _ => True).
Proof.
  unfold stop_and_close. inv_walk; apply inv_modify.
  intros [? ss ? ? ? ?]; simpl. intros Hs [Hin _]%elem_of_difference. done.
Qed.

Lemma stop_and_close_returns t (s s' : world) :
  stop_and_close E key t s = (s', Return tt) -> (key, t) ∉ streams s'.
Proof.
  unfold stop_and_close, bind, check, modify.
  destruct (stream_stop_ok E key t); [|discriminate]. simpl.
  destruct (stream_close_ok E key t); [|discriminate]. simpl.
  intros [= <-]. destruct s; simpl. intros [_ Hn]%elem_of_difference.
  apply Hn. by apply elem_of_singleton.
Qed.

(** The streams a bundle holds are stopped once [stop_recording] returns. *)
Lemma stop_recording_stops_streams (w w2 : world) b r :
  _recordings w !! key = Some b ->
  stop_recording E key w = (w2, Return r) ->
  (is_Some (mic_stream b) -> (key, Mic) ∉ streams w2) /\
  (is_Some (sys_stream b) -> (key, System) ∉ streams w2).
Proof.
  intros Hb Hstop. unfold stop_recording in Hstop.
  apply bind_returns in Hstop as (s1 & popped & Hg & Hstop).
  unfold gets in Hg. injection Hg as <- <-. rewrite Hb in Hstop.
  apply bind_returns in Hstop as (s2 & [] & _ & Hstop).
  apply bind_returns in Hstop as (s3 & [] & Hbody & Hret).
  unfold ret in Hret. injection Hret as <- _.
  apply try_finally_returns in Hbody as (s4 & Hbody & Hfin).
  apply bind_returns in Hbody as (s5 & [] & Hmic & Hbody).
  apply bind_returns in Hbody as (s6 & [] & Hsys & Htail).
  assert (forall t, (key, t) ∉ streams s6 -> (key, t) ∉ streams s3) as Hkeep.
  { intros t Ht.
    eapply (inv_result (fun w => (key, t) ∉ streams w)); [| |exact Hfin].
    { unfold close_quietly. inv_walk; apply inv_modify; by intros []. }
    eapply (inv_result (fun w => (key, t) ∉ streams w)); [| |exact Htail]; [|done].
    inv_walk; apply inv_modify; by intros []. }
  split; intros Hs; apply Hkeep.
  - rewrite bool_decide_eq_true_2 in Hmic by done. simpl in Hmic.
    apply stop_and_close_returns in Hmic.
    eapply (inv_result (fun w => (key, Mic) ∉ streams w)); [| |exact Hsys]; [|done].
    apply inv_when, stop_and_close_stopped.
  - rewrite bool_decide_eq_true_2 in Hsys by done. simpl in Hsys.
    by apply stop_and_close_returns in Hsys.
Qed.

End Stop.

(** The microphone opens, the loopback does not, and there is no fallback
    module: the call raises, the session stays, the microphone keeps running. *)
Example start_raises_without_fallback :
  let '(w', o) := start_recording (host true false false) "m1" None None
                    empty_world in
  o = Raise LibraryError /\
  (mic_stream <$> _recordings w' !! "m1")
    = Some (Some (StreamRequest 0 2 44100 4096 false)) /\
  (sys_stream <$> _recordings w' !! "m1") = Some None /\
  streams w' = {[ ("m1", Mic) ]}.
Proof. vm_compute. repeat split; reflexivity. Qed.

(** The microphone of that half-started session still writes its track. *)
Example failed_start_mic_still_captures :
  wavs (deliver (host true false false) failing_resampler "m1" MicCallback
          [7; 8; 9] failed_m1).1 !! "audio/m1/mic.wav"
  = Some (WaveWrite 1 2 48000 [7; 8; 9] false).
Proof. vm_compute. reflexivity. Qed.

Section Returns.
Variables (E : env) (key : string).

Lemma to_int_spec v (w : world) :
  exists e, to_int E v w = (w, match int_of E v with
                               | Some n => Return n
                               | None => Raise e
                               end).
Proof.
  destruct v as [|s|n]; simpl.
  - by exists TypeError.
  - exists ValueError. unfold lift. by destruct (py_int E s).
  - by exists TypeError.
Qed.

Lemma open_mic_returns path d (w : world) :
  returns (open_mic E key path d w) <-> mic_opens E path d = true.
Proof.
  unfold returns, open_mic, mic_opens, bind at 1, lift.
  destruct (sd_query E d) as [info|]; simpl; [|done].
  unfold bind at 1.
  destruct (to_int_spec (default (PInt 48000) (info !! "default_samplerate")) w)
    as [e1 ->].
  destruct (int_of E (default (PInt 48000) (info !! "default_samplerate")))
    as [rate|]; simpl; [|done].
  unfold bind at 1.
  destruct (to_int_spec (default (PInt 1) (info !! "max_input_channels")) w)
    as [e2 ->].
  destruct (int_of E (default (PInt 1) (info !! "max_input_channels")))
    as [n|]; simpl; [|done].
  unfold bind, check, modify, update_bundle, get_bundle, gets, _open_wav,
    logger_info, ret, raise.
  destruct (stream_create_ok E _); simpl; [|done].
  destruct (stream_start_ok E _); simpl; [|done].
  destruct (wav_open_ok E path); simpl; done.
Qed.

Lemma open_system_tail_returns path d r n (w : world) :
  returns
    (try_except
       (open_system_primary E key path d (if r =? 0 then 48000 else r) (Z.max 1 n))
       (open_system_fallback E key path (if r =? 0 then 48000 else r) (Z.max 1 n))
       w)
  <-> (stream_create_ok E (StreamRequest d (Z.max 1 n) (if r =? 0 then 48000 else r)
                             DEFAULT_BLOCKSIZE (wasapi_available E))
       && stream_start_ok E (StreamRequest d (Z.max 1 n) (if r =? 0 then 48000 else r)
                               DEFAULT_BLOCKSIZE (wasapi_available E))
       || sc_loaded E && thread_start_ok E)
      && wav_open_ok E path = true.
Proof.
  unfold returns, try_except, open_system_primary, open_system_fallback,
    bind, check, modify, update_bundle, get_bundle, gets, _open_wav,
    logger_info, ret, raise.
  destruct (stream_create_ok E _); simpl;
    [destruct (stream_start_ok E _); simpl|];
    destruct (wav_open_ok E path); simpl;
    destruct (sc_loaded E); simpl; try done;
    destruct (thread_start_ok E); simpl; try done;
    destruct (wav_open_ok E path); simpl; done.
Qed.

Lemma open_system_returns path d (w : world) :
  returns (open_system E key path d w) <-> system_opens E path d = true.
Proof.
  unfold open_system, system_opens.
  assert (forall info : dev_info,
    returns
      ((r ← to_int E (default (PInt 48000) (info !! "default_samplerate"));
        n ← to_int E (if truthy (default (PInt 2) (info !! "max_output_channels"))
                      then default (PInt 2) (info !! "max_output_channels")
                      else PInt 2);
        try_except
          (open_system_primary E key path d (if r =? 0 then 48000 else r) (Z.max 1 n))
          (open_system_fallback E key path (if r =? 0 then 48000 else r) (Z.max 1 n)))%py
         w)
    <-> match int_of E (default (PInt 48000) (info !! "default_samplerate")),
              int_of E (if truthy (default (PInt 2) (info !! "max_output_channels"))
                        then default (PInt 2) (info !! "max_output_channels")
                        else PInt 2) with
        | Some r, Some n =>
            (stream_create_ok E (StreamRequest d (Z.max 1 n)
                                   (if r =? 0 then 48000 else r)
                                   DEFAULT_BLOCKSIZE (wasapi_available E))
             && stream_start_ok E (StreamRequest d (Z.max 1 n)
                                     (if r =? 0 then 48000 else r)
                                     DEFAULT_BLOCKSIZE (wasapi_available E))
             || sc_loaded E && thread_start_ok E)
            && wav_open_ok E path
        | _, _ => false
        end = true) as Hinfo.
  { intros info. unfold bind at 1.
    destruct (to_int_spec (default (PInt 48000) (info !! "default_samplerate")) w)
      as [e1 ->].
    destruct (int_of E (default (PInt 48000) (info !! "default_samplerate")))
      as [r|]; [|done].
    unfold bind at 1.
    match goal with |- context [to_int E ?v w] =>
      destruct (to_int_spec v w) as [e2 ->]; destruct (int_of E v) as [n|]
    end; [|done].
    apply open_system_tail_returns. }
  unfold bind at 1, try_except at 1, lift.
  destruct (sd_query_output E d) as [info|]; simpl; [apply Hinfo|].
  destruct (sd_query E d) as [info|]; simpl; [apply Hinfo|done].
Qed.

Lemma resolve_device_spec id dflt (w : world) :
  resolve_device E id dflt w
  = (w, match id with
        | Some s => match py_int E s with
                    | Some n => Return (Some n)
                    | None => Raise ValueError
                    end
        | None => Return dflt
        end).
Proof.
  unfold resolve_device. destruct id as [s|]; [|done].
  unfold bind, lift. by destruct (py_int E s).
Qed.

(** With the backend module loaded and the key free, the call returns
    exactly when every step it attempts succeeds. *)
Lemma start_recording_returns mic out (w : world) :
  sd_loaded E = true -> ~ registered key w ->
  returns (start_recording E key mic out w)
  <-> start_succeeds E key mic out = true.
Proof.
  intros Hsd Hreg. unfold start_recording, start_succeeds. rewrite Hsd. simpl.
  unfold bind at 1. unfold gets at 1. simpl.
  rewrite bool_decide_eq_false_2 by done.
  unfold bind at 1. unfold modify at 1. simpl.
  unfold bind at 1. rewrite resolve_device_spec.
  unfold device_parses, resolved.
  assert (forall (w1 : world),
    returns
      ((out_dev ← resolve_device E out (default_output E);
        match usable out_dev with
        | Some d => open_system E key
                      (path_join (path_join (audio_dir E) key) "system.wav") d
        | None => ret tt
        end;;
        bundle ← get_bundle key;
        ret ({[ "mic_path" := path_or_none (mic_wav bundle)
                  (path_join (path_join (audio_dir E) key) "mic.wav");
                "sys_path" := path_or_none (sys_wav bundle)
                  (path_join (path_join (audio_dir E) key) "system.wav") ]}
             : result))%py w1)
    <-> match out with
        | Some s => bool_decide (is_Some (py_int E s))
        | None => true
        end &&
        match usable match out with
                     | Some s => py_int E s
                     | None => default_output E
                     end with
        | Some d => system_opens E
                      (path_join (path_join (audio_dir E) key) "system.wav") d
        | None => true
        end = true) as Hsys.
  { intros w1. unfold bind at 1. rewrite resolve_device_spec.
    assert (forall o,
      returns
        ((match usable o with
          | Some d => open_system E key
                        (path_join (path_join (audio_dir E) key) "system.wav") d
          | None => ret tt
          end;;
          bundle ← get_bundle key;
          ret ({[ "mic_path" := path_or_none (mic_wav bundle)
                    (path_join (path_join (audio_dir E) key) "mic.wav");
                  "sys_path" := path_or_none (sys_wav bundle)
                    (path_join (path_join (audio_dir E) key) "system.wav") ]}
               : result))%py w1)
      <-> match usable o with
          | Some d => system_opens E
                        (path_join (path_join (audio_dir E) key) "system.wav") d
          | None => true
          end = true) as Ho.
    { intros o. destruct (usable o) as [d|]; [|done].
      rewrite <- (open_system_returns _ d w1). unfold returns, bind at 1.
      by destruct (open_system E key _ d w1) as [w2 [[]|e]]. }
    destruct out as [s|]; simpl; [|apply Ho].
    destruct (py_int E s) as [n|] eqn:Hn; simpl.
    - apply (Ho (Some n)).
    - by unfold returns. }
  assert (forall o (w0 : world),
    returns
      ((match usable o with
        | Some d => open_mic E key
                      (path_join (path_join (audio_dir E) key) "mic.wav") d
        | None => ret tt
        end;;
        out_dev ← resolve_device E out (default_output E);
        match usable out_dev with
        | Some d => open_system E key
                      (path_join (path_join (audio_dir E) key) "system.wav") d
        | None => ret tt
        end;;
        bundle ← get_bundle key;
        ret ({[ "mic_path" := path_or_none (mic_wav bundle)
                  (path_join (path_join (audio_dir E) key) "mic.wav");
                "sys_path" := path_or_none (sys_wav bundle)
                  (path_join (path_join (audio_dir E) key) "system.wav") ]}
             : result))%py w0)
    <-> match usable o with
        | Some d => mic_opens E
                      (path_join (path_join (audio_dir E) key) "mic.wav") d
        | None => true
        end &&
        (match out with
         | Some s => bool_decide (is_Some (py_int E s))
         | None => true
         end &&
         match usable match out with
                      | Some s => py_int E s
                      | None => default_output E
                      end with
         | Some d => system_opens E
                       (path_join (path_join (audio_dir E) key) "system.wav") d
         | None => true
         end) = true) as Hmic.
  { intros o w0. destruct (usable o) as [d|]; simpl.
    - pose proof (open_mic_returns
                    (path_join (path_join (audio_dir E) key) "mic.wav") d w0) as Hm.
      unfold returns in Hm |- *. unfold bind at 1.
      destruct (open_mic E key _ d w0) as [w1 [[]|e]]; simpl in *.
      + rewrite (proj1 Hm I). simpl. apply Hsys.
      + destruct (mic_opens E _ d); [|done]. by destruct (proj2 Hm eq_refl).
    - apply Hsys. }
  rewrite <- !andb_assoc.
  destruct mic as [s|]; simpl; [|apply Hmic].
  destruct (py_int E s) as [n|] eqn:Hn; simpl.
  - apply (Hmic (Some n)).
  - by unfold returns.
Qed.

End Returns.

Section Results.
Variables (E : env) (key : string).

(** What a returning start request hands back. *)
Lemma start_recording_result mic out (w w' : world) r :
  sd_loaded E = true -> ~ registered key w ->
  start_recording E key mic out w = (w', Return r) ->
  exists b,
    _recordings w' !! key = Some b /\
    r = {[ "mic_path" := path_or_none (mic_wav b)
             (path_join (path_join (audio_dir E) key) "mic.wav");
           "sys_path" := path_or_none (sys_wav b)
             (path_join (path_join (audio_dir E) key) "system.wav") ]}.
Proof.
  intros Hsd Hfree Hstart.
  pose proof (start_recording_registers E key mic out w Hsd) as [b Hb].
  rewrite Hstart in Hb. simpl in Hb. exists b. split; [done|].
  unfold start_recording in Hstart. rewrite Hsd in Hstart. simpl in Hstart.
  apply bind_returns in Hstart as (s1 & recs & Hg & Hstart).
  unfold gets in Hg. injection Hg as <- <-.
  rewrite bool_decide_eq_false_2 in Hstart by done.
  apply bind_returns in Hstart as (s2 & [] & _ & Hstart).
  apply bind_returns in Hstart as (s3 & mic_dev & _ & Hstart).
  apply bind_returns in Hstart as (s4 & [] & _ & Hstart).
  apply bind_returns in Hstart as (s5 & out_dev & _ & Hstart).
  apply bind_returns in Hstart as (s6 & [] & _ & Hstart).
  apply bind_returns in Hstart as (s7 & b' & Hg & Hret).
  unfold get_bundle, gets in Hg. injection Hg as <- <-.
  unfold ret in Hret. injection Hret as <- <-. by rewrite Hb.
Qed.

(** What a returning stop request hands back for a registered bundle. *)
Lemma stop_recording_result (w w2 : world) b r :
  _recordings w !! key = Some b ->
  stop_recording E key w = (w2, Return r) ->
  r = {[ "mic_path" := path_or_none (mic_wav b)
           (path_join (path_join (audio_dir E) key) "mic.wav");
         "sys_path" := path_or_none (sys_wav b)
           (path_join (path_join (audio_dir E) key) "system.wav");
         "mic_frames" := PInt (mic_frames b);
         "sys_frames" := PInt (sys_frames b);
         "rate" := PInt (target_rate b);
         "channels" := PInt 1;
         "sys_backend" := from_option PStr PNone (sys_backend b) ]}.
Proof.
  intros Hb Hstop. unfold stop_recording in Hstop.
  apply bind_returns in Hstop as (s1 & popped & Hg & Hstop).
  unfold gets in Hg. injection Hg as <- <-. rewrite Hb in Hstop.
  apply bind_returns in Hstop as (s2 & [] & _ & Hstop).
  apply bind_returns in Hstop as (s3 & [] & _ & Hret).
  unfold ret in Hret. by injection Hret as <- <-.
Qed.




End Results.

(** C1 as stated fails: the call raises when the backend module is missing,
    when the microphone cannot be opened, and when the loopback cannot be
    opened and there is no fallback module. *)
Lemma start_recording_can_raise :
  ~ returns (start_recording (host false false false) "m1" None None empty_world) /\
  ~ returns (start_recording busy_mic_host "m1" None None empty_world) /\
  ~ returns (start_recording (host true false false) "m1" None None empty_world).
Proof. vm_compute. tauto. Qed.

(** C1 (as amended). Without the backend module [start_recording] raises
    RuntimeError and changes nothing. With it, for a key that is not
    recording, the call returns exactly when every step it attempts succeeds:
    the device ids parse, a track whose device does not resolve is skipped,
    the microphone stream and its file open, and the system stream opens
    through the primary backend or, that failing, through the fallback
    backend when its module is loaded; any other failure is raised to the
    caller. However the call ends the key is registered, and a result that is
    returned holds, per track, the path of its file or null. *)
Theorem start_recording_returns_iff_every_open_succeeds
    (E : env) (key : string) (mic out : option string) (w : world) :
  ~ registered key w ->
  (sd_loaded E = false ->
     start_recording E key mic out w
     = (w, Raise (RuntimeError "sounddevice not available"))) /\
  (sd_loaded E = true ->
     (returns (start_recording E key mic out w)
      <-> start_succeeds E key mic out = true) /\
     registered key (start_recording E key mic out w).1 /\
     forall w' r,
       start_recording E key mic out w = (w', Return r) ->
       exists b,
         _recordings w' !! key = Some b /\
         r = {[ "mic_path" := path_or_none (mic_wav b)
                  (path_join (path_join (audio_dir E) key) "mic.wav");
                "sys_path" := path_or_none (sys_wav b)
                  (path_join (path_join (audio_dir E) key) "system.wav") ]}).
Proof.
  intros Hfree. split.
  - apply start_without_backend.
  - intros Hsd. split; [by apply start_recording_returns|].
    split; [by apply start_recording_registers|].
    intros w' r. by apply start_recording_result.
Qed.

Lemma empty_world_unregistered key : ~ registered key empty_world.
Proof. intros [b Hb]. simpl in Hb. by rewrite lookup_empty in Hb. Qed.

Lemma start_recording_returns_iff_every_open_succeeds_witness :
  returns (start_recording (host true true false) "m1" None None empty_world) /\
  returns (start_recording deviceless_host "m1" None None empty_world).
Proof.
  split.
  - exact (proj2 (proj1 (proj2
            (start_recording_returns_iff_every_open_succeeds
               (host true true false) "m1" None None empty_world
               (empty_world_unregistered "m1")) eq_refl)) eq_refl).
  - exact (proj2 (proj1 (proj2
            (start_recording_returns_iff_every_open_succeeds
               deviceless_host "m1" None None empty_world
               (empty_world_unregistered "m1")) eq_refl)) eq_refl).
Defined.

(** No device resolves for either track: the session is registered with no
    track and both paths are null. *)
Example start_with_no_devices :
  start_recording deviceless_host "m1" None None empty_world
  = (World {[ "m1" := new_bundle ]} ∅ ∅ ∅ ∅ [],
     Return {[ "mic_path" := PNone; "sys_path" := PNone ]}).
Proof. vm_compute. reflexivity. Qed.

(* ===================================================================== *)
(** * More about the segment merger *)
(* ===================================================================== *)

Import MergerFacts.

Section MergeFrame.
Variable h0 : heap.

Lemma extended_refl v : extended v v.
Proof. unfold extended. repeat split; lia. Qed.

Lemma extended_trans v1 v2 v3 : extended v1 v2 -> extended v2 v3 -> extended v1 v3.
Proof.
  unfold extended. intros (-> & -> & -> & -> & ?) (-> & -> & -> & -> & ?).
  repeat split; lia.
Qed.

Lemma extend_prev_extended h p s l :
  extended (h !!! l) (extend_prev h p s !!! l).
Proof.
  destruct (decide (l = p)) as [->|Hl].
  - rewrite extend_prev_same. unfold extended, set_end, get_end. simpl.
    repeat split; lia.
  - rewrite extend_prev_other by done. apply extended_refl.
Qed.

Lemma walk_extends rest : forall h d,
  (forall l, extended (h0 !!! l) (h !!! l)) ->
  forall l, extended (h0 !!! l) ((fold_left dedup_step rest (h, d)).1 !!! l).
Proof.
  induction rest as [|s rest IH]; intros h d Hh; simpl; [done|].
  destruct (last d) as [p|]; [|by apply IH].
  destruct (is_dup 500 h p s); [|by apply IH].
  apply IH. intros l. eapply extended_trans; [apply Hh|apply extend_prev_extended].
Qed.

Lemma walk_frame (all : list loc) rest : forall h d,
  (forall x, x ∈ d ++ rest -> x ∈ all) ->
  (forall l, l ∉ all -> h !! l = h0 !! l) ->
  forall l, l ∉ all -> (fold_left dedup_step rest (h, d)).1 !! l = h0 !! l.
Proof.
  induction rest as [|s rest IH]; intros h d Hin Hh; simpl; [done|].
  assert (forall x, x ∈ (d ++ [s]) ++ rest -> x ∈ all) as Hin'.
  { intros x Hx. apply Hin. by rewrite <- (assoc_L (++)) in Hx. }
  destruct (last d) as [p|] eqn:El; [|by apply IH].
  destruct (is_dup 500 h p s); [|by apply IH].
  apply IH.
  - intros x Hx. apply Hin. rewrite elem_of_app, elem_of_cons.
    rewrite elem_of_app in Hx. tauto.
  - intros l Hl. unfold extend_prev. rewrite lookup_insert_ne; [by apply Hh|].
    intros ->. apply Hl, Hin. apply last_Some in El as [d0 ->].
    rewrite !elem_of_app, list_elem_of_singleton. tauto.
Qed.

End MergeFrame.

(** X1. The merge writes nothing but end-ms into the caller's dicts, and only
    later values: every dict keeps its start-ms, text, speaker and
    confidence, its end-ms never moves earlier, and a dict that is in
    neither input list is left exactly as it was. *)
Theorem merge_only_extends_ends (h : heap) (mic sys : list loc) (l : loc) :
  extended (h !!! l) ((_merge_and_filter h mic sys).1 !!! l) /\
  (l ∉ mic ++ sys -> (_merge_and_filter h mic sys).1 !! l = h !! l).
Proof.
  unfold _merge_and_filter, _filter_and_merge_adjacent. split.
  - apply walk_extends. intros l'. apply extended_refl.
  - apply (walk_frame h (mic ++ sys)); [|done].
    intros x Hx. simpl in Hx. by rewrite sort_by_key_perm in Hx.
Qed.

Section MergeShape.

Lemma walk_sublist rest : forall h d,
  (fold_left dedup_step rest (h, d)).2 `sublist_of` d ++ rest.
Proof.
  induction rest as [|s rest IH]; intros h d; simpl.
  - by rewrite app_nil_r.
  - assert ((fold_left dedup_step rest (h, d ++ [s])).2 `sublist_of` d ++ s :: rest)
      as Hemit.
    { specialize (IH h (d ++ [s])). by rewrite <- (assoc_L (++)) in IH. }
    destruct (last d) as [p|]; [|done].
    destruct (is_dup 500 h p s); [|done].
    etrans; [apply IH|]. apply sublist_app; [done|]. by apply sublist_cons.
Qed.

Lemma walk_prefix rest : forall h d,
  d `prefix_of` (fold_left dedup_step rest (h, d)).2.
Proof.
  induction rest as [|s rest IH]; intros h d; simpl; [done|].
  assert (d `prefix_of` (fold_left dedup_step rest (h, d ++ [s])).2) as Hemit.
  { etrans; [|apply IH]. by apply prefix_app_r. }
  destruct (last d) as [p|]; [|done].
  destruct (is_dup 500 h p s); [apply IH|done].
Qed.

End MergeShape.

(** X2. The merge returns input dicts in sorted order and drops some of
    them: its result is a subsequence of the stable sort of the two lists, and
    the segment that sorts first is always kept. *)
Theorem merge_returns_subsequence (h : heap) (mic sys : list loc) :
  (_merge_and_filter h mic sys).2
    `sublist_of` sort_by_key (key_at h) (mic ++ sys) /\
  head (_merge_and_filter h mic sys).2
  = head (sort_by_key (key_at h) (mic ++ sys)).
Proof.
  unfold _merge_and_filter, _filter_and_merge_adjacent. split.
  - apply (walk_sublist _ h []).
  - destruct (sort_by_key (key_at h) (mic ++ sys)) as [|s rest]; [done|].
    simpl. destruct (walk_prefix rest h [s]) as [t ->]. done.
Qed.

(** X3. Whatever the inputs, no two neighbours of the returned list carry the
    same trimmed text with starts less than 500 ms apart. *)
Theorem merge_leaves_no_adjacent_duplicates (h : heap) (mic sys : list loc)
    (i : nat) (a b : segment) :
  merged_values h mic sys !! i = Some a ->
  merged_values h mic sys !! S i = Some b ->
  ~ (get_text b = get_text a /\ get_start b - get_start a < 500).
Proof.
  unfold merged_values.
  pose proof (merge_output_no_adjacent_dup h mic sys) as Hn.
  destruct (_merge_and_filter h mic sys) as [h' out]. simpl in Hn.
  unfold deref. rewrite !list_lookup_fmap.
  destruct (out !! i) as [p|] eqn:Hp; [|done].
  destruct (out !! S i) as [s|] eqn:Hs; [|done].
  simpl. intros [= <-] [= <-] Hdup.
  apply (proj2 (is_dup_spec 500 h' p s)) in Hdup.
  by rewrite (Hn i p s Hp Hs) in Hdup.
Qed.

Lemma merge_leaves_no_adjacent_duplicates_witness :
  ~ (get_text (seg 0 20 "y" "You") = get_text (seg 0 10 "x" "You") /\
     get_start (seg 0 20 "y" "You") - get_start (seg 0 10 "x" "You") < 500).
Proof.
  exact (merge_leaves_no_adjacent_duplicates shared_heap
           [0; 1; 2]%nat [0; 1; 2]%nat 0%nat
           (seg 0 10 "x" "You") (seg 0 20 "y" "You") eq_refl eq_refl).
Defined.

Section MergeCoverage.
Variable h0 : heap.

Lemma extended_start v v' : extended v v' -> get_start v' = get_start v.
Proof. intros (H & _). unfold get_start. by rewrite H. Qed.

Lemma extended_text v v' : extended v v' -> get_text v' = get_text v.
Proof. intros (_ & H & _). unfold get_text. by rewrite H. Qed.

Lemma extended_end v v' : extended v v' -> get_end v <= get_end v'.
Proof. by intros (_ & _ & _ & _ & H). Qed.

Lemma covered_mono h1 h2 d1 d2 s :
  covered 500 h0 h1 d1 s ->
  (forall l, extended (h1 !!! l) (h2 !!! l)) ->
  (forall p, p ∈ d1 -> p ∈ d2) ->
  covered 500 h0 h2 d2 s.
Proof.
  intros (p & Hp & Ht & Hs & Hw & He) Hext Hsub. exists p.
  pose proof (Hext p) as Hx.
  rewrite (extended_text _ _ Hx), (extended_start _ _ Hx).
  pose proof (extended_end _ _ Hx). repeat split; auto; lia.
Qed.

Lemma walk_covers rest : forall pre h d,
  StronglySorted (key_rel (key_at h0)) (pre ++ rest) ->
  (forall p, p ∈ d -> p ∈ pre) ->
  (forall l, extended (h0 !!! l) (h !!! l)) ->
  (forall s, s ∈ pre -> covered 500 h0 h d s) ->
  forall s, s ∈ pre ++ rest ->
    covered 500 h0 (fold_left dedup_step rest (h, d)).1
                   (fold_left dedup_step rest (h, d)).2 s.
Proof.
  induction rest as [|s rest IH]; intros pre h d Hsorted Hsub Hagree Hcov x Hx.
  { rewrite app_nil_r in Hx. by apply Hcov. }
  assert (pre ++ s :: rest = (pre ++ [s]) ++ rest) as Hassoc
    by (by rewrite <- (assoc_L (++))).
  rewrite Hassoc in Hx, Hsorted. simpl.
  assert (forall x, x ∈ pre ++ [s] ->
            covered 500 h0 h (d ++ [s]) x) as Hemit.
  { intros y [Hy|Hy%list_elem_of_singleton]%elem_of_app.
    - eapply covered_mono; [by apply Hcov|intros; apply extended_refl|].
      intros p Hp. apply elem_of_app. by left.
    - subst y. exists s. pose proof (Hagree s) as Hs.
      rewrite (extended_text _ _ Hs), (extended_start _ _ Hs).
      pose proof (extended_end _ _ Hs).
      repeat split; [|lia..]. apply elem_of_app. right. by left. }
  assert (forall p, p ∈ d ++ [s] -> p ∈ pre ++ [s]) as Hsub_emit.
  { intros p [Hp|Hp]%elem_of_app; apply elem_of_app; auto. }
  destruct (last d) as [p|] eqn:El; [|by apply (IH (pre ++ [s]))].
  destruct (is_dup 500 h p s) eqn:Ed; [|by apply (IH (pre ++ [s]))].
  apply last_Some in El as [d0 ->].
  assert (p ∈ pre) as Hp.
  { apply Hsub. apply elem_of_app. right. by left. }
  apply is_dup_spec in Ed as [Htext Hwin].
  apply (IH (pre ++ [s])); try done.
  - intros q Hq. apply elem_of_app. left. by apply Hsub.
  - intros l. eapply extended_trans; [apply Hagree|apply extend_prev_extended].
  - intros y [Hy|Hy%list_elem_of_singleton]%elem_of_app.
    + eapply covered_mono; [by apply Hcov| |done].
      intros l. apply extend_prev_extended.
    + subst y. exists p.
      pose proof (Hagree s) as Hs. pose proof (Hagree p) as Hpp.
      rewrite extend_prev_text, extend_prev_start, extend_prev_same.
      rewrite <- (extended_text _ _ Hs), <- (extended_start _ _ Hs).
      pose proof (extended_end _ _ Hs).
      assert (get_start (h !!! p) <= get_start (h !!! s)) as Hle.
      { rewrite (extended_start _ _ Hs), (extended_start _ _ Hpp).
        assert (key_rel (key_at h0) p s) as Hk.
        { apply StronglySorted_app_1_l in Hsorted.
          eapply StronglySorted_app_1_elem_of; [exact Hsorted|done|by left]. }
        unfold key_rel, lex_le, key_at, seg_key in Hk. simpl in Hk. lia. }
      repeat split; [|done|done|done|].
      * apply elem_of_app. right. by left.
      * unfold set_end, get_end in *. simpl. lia.
Qed.

End MergeCoverage.

(** X4. No utterance is lost: every input segment is accounted for in the
    result by an emitted segment with the same trimmed text that starts no
    later and less than 500 ms earlier, and ends no earlier. *)
Theorem merge_covers_every_input (h : heap) (mic sys : list loc) (s : loc) :
  s ∈ mic ++ sys ->
  covered 500 h (_merge_and_filter h mic sys).1 (_merge_and_filter h mic sys).2 s.
Proof.
  intros Hs. unfold _merge_and_filter, _filter_and_merge_adjacent.
  apply (walk_covers h _ [] h []); simpl.
  - apply sort_by_key_sorted.
  - intros p Hp. by apply elem_of_nil in Hp.
  - intros l. apply extended_refl.
  - intros x Hx. by apply elem_of_nil in Hx.
  - by rewrite sort_by_key_perm.
Qed.

Lemma merge_covers_every_input_witness :
  covered 500 interleaved_heap
    (_merge_and_filter interleaved_heap [0; 1]%nat [2; 3]%nat).1
    (_merge_and_filter interleaved_heap [0; 1]%nat [2; 3]%nat).2 2%nat.
Proof.
  apply (merge_covers_every_input interleaved_heap [0; 1]%nat [2; 3]%nat 2%nat).
  apply (bool_decide_unpack _). vm_compute. exact I.
Defined.

Example merge_interleaves_and_collapses :
  merged_values interleaved_heap [0; 1]%nat [2; 3]%nat
  = [seg 0 950 "hello" "You"; seg 1000 1800 "well" "Remote";
     seg 2000 2500 "bye" "You"].
Proof. vm_compute. reflexivity. Qed.

Section SortSymmetry.
Variable k : loc -> Z * Z.

Lemma filter_none (P : loc -> Prop) `{!forall x, Decision (P x)} (l : list loc) :
  (forall x, x ∈ l -> ~ P x) -> filter P l = [].
Proof.
  induction l as [|x l IH]; intros Hn; [done|].
  rewrite filter_cons_False by (apply Hn; by left).
  apply IH. intros y Hy. apply Hn. by right.
Qed.

Lemma filter_key_short c l :
  NoDup (k <$> l) -> (length (filter (fun x => k x = c) l) <= 1)%nat.
Proof.
  induction l as [|x l IH]; [simpl; lia|].
  rewrite fmap_cons, NoDup_cons. intros [Hx Hl].
  rewrite filter_cons. case_decide as Hc; [|by apply IH].
  rewrite filter_none; [simpl; lia|].
  intros y Hy Hky. apply Hx. rewrite Hc, <- Hky.
  apply list_elem_of_fmap. by exists y.
Qed.

Lemma short_perm_eq (l1 l2 : list loc) :
  l1 ≡ₚ l2 -> (length l1 <= 1)%nat -> l1 = l2.
Proof.
  intros Hp Hlen. destruct l1 as [|x [|y l1]]; simpl in Hlen; [| |lia].
  - by apply Permutation_nil_l in Hp.
  - by apply Permutation_singleton_l in Hp.
Qed.

(** With pairwise distinct keys the sort forgets the order of its input. *)
Lemma sort_by_key_perm_distinct l1 l2 :
  l1 ≡ₚ l2 -> NoDup (k <$> l1) -> sort_by_key k l1 = sort_by_key k l2.
Proof.
  intros Hp Hnd. apply (stable_sorted_unique k l1).
  - apply sort_by_key_stable.
  - split; [apply sort_by_key_sorted|]. intros c.
    rewrite sort_by_key_filter. symmetry. apply short_perm_eq.
    + by rewrite Hp.
    + by apply filter_key_short.
Qed.

End SortSymmetry.

(** X5. The order of the two arguments matters only for ties: when no two
    input segments share both start-ms and end-ms, [merge(a, b)] and
    [merge(b, a)] return the same list and write the same values. *)
Theorem merge_symmetric_without_ties (h : heap) (mic sys : list loc) :
  NoDup (key_at h <$> (mic ++ sys)) ->
  _merge_and_filter h mic sys = _merge_and_filter h sys mic.
Proof.
  intros Hnd. unfold _merge_and_filter, _filter_and_merge_adjacent.
  rewrite (sort_by_key_perm_distinct (key_at h) (mic ++ sys) (sys ++ mic));
    [done| |done].
  apply Permutation_app_comm.
Qed.

Lemma merge_symmetric_without_ties_witness :
  _merge_and_filter interleaved_heap [0; 1]%nat [2; 3]%nat
  = _merge_and_filter interleaved_heap [2; 3]%nat [0; 1]%nat.
Proof.
  apply (merge_symmetric_without_ties interleaved_heap [0; 1]%nat [2; 3]%nat).
  apply (bool_decide_unpack _). vm_compute. exact I.
Defined.

(** With a tie the first argument's segment is the one kept. *)
Example merge_tie_keeps_first_argument :
  let h := alloc ∅ 0%nat [seg 0 10 "x" "You"; seg 0 10 "x" "Remote"] in
  merged_values h [0%nat] [1%nat] = [seg 0 10 "x" "You"] /\
  merged_values h [1%nat] [0%nat] = [seg 0 10 "x" "Remote"].
Proof. vm_compute. split; reflexivity. Qed.

(* ===================================================================== *)
(** * The transcription worker's rows and the job table *)
(* ===================================================================== *)

Import Transcription.

Section Rows.

Lemma label_lookup who ls : forall h l,
  label who h ls !!! l
  = if bool_decide (l ∈ ls) then set_speaker who (h !!! l) else h !!! l.
Proof.
  induction ls as [|x ls IH]; intros h l.
  - done.
  - change (label who h (x :: ls)) with (label who (<[x := set_speaker who (h !!! x)]> h) ls).
    rewrite IH.
    destruct (decide (l = x)) as [->|Hne].
    + rewrite lookup_total_insert, decide_True by done.
      rewrite (bool_decide_eq_true_2 (x ∈ x :: ls)) by left.
      by destruct (bool_decide (x ∈ ls)).
    + rewrite lookup_total_insert_ne by done.
      destruct (decide (l ∈ ls)) as [Hin|Hout].
      * rewrite !bool_decide_eq_true_2; [done|by right|done].
      * rewrite !bool_decide_eq_false_2; [done| |done].
        rewrite elem_of_cons. tauto.
Qed.

Lemma merge_extends h mic sys l :
  extended (h !!! l) ((_merge_and_filter h mic sys).1 !!! l).
Proof.
  unfold _merge_and_filter, _filter_and_merge_adjacent.
  apply walk_extends. intros l'. apply extended_refl.
Qed.

Lemma merge_output_from_inputs h mic sys l :
  l ∈ (_merge_and_filter h mic sys).2 -> l ∈ mic ++ sys.
Proof.
  unfold _merge_and_filter, _filter_and_merge_adjacent. intros Hl.
  rewrite <- (sort_by_key_perm (key_at h)).
  eapply elem_of_sublist; [exact Hl|]. apply (walk_sublist _ h []).
Qed.

Lemma merge_output_length h mic sys :
  (length (_merge_and_filter h mic sys).2 <= length mic + length sys)%nat.
Proof.
  unfold _merge_and_filter, _filter_and_merge_adjacent.
  rewrite <- length_app, <- (Permutation_length (sort_by_key_perm (key_at h) (mic ++ sys))).
  apply sublist_length, (walk_sublist _ h []).
Qed.

End Rows.

(** X6. Every row the worker stores is one of the transcribed segments under
    its track's name: it carries the meeting's id, the text and start of an
    input dict, an end no earlier than that dict's, and the speaker "Remote"
    when the dict is in the system list and "You" otherwise. There are never
    more rows than transcribed segments. *)
Theorem rows_come_from_labelled_segments (meeting : Z) (h : heap)
    (mic_segments sys_segments : list loc) :
  Forall (fun r =>
            exists l, l ∈ mic_segments ++ sys_segments /\
              meeting_id r = meeting /\
              row_speaker r = (if bool_decide (l ∈ sys_segments) then "Remote" else "You") /\
              row_text r = default [] (text (h !!! l)) /\
              row_start_ms r = get_start (h !!! l) /\
              get_end (h !!! l) <= row_end_ms r)
         (transcript_rows meeting h mic_segments sys_segments) /\
  (length (transcript_rows meeting h mic_segments sys_segments)
   <= length mic_segments + length sys_segments)%nat.
Proof.
  unfold transcript_rows.
  set (h2 := label "Remote" (label "You" h mic_segments) sys_segments).
  pose proof (merge_extends h2 mic_segments sys_segments) as Hext.
  pose proof (merge_output_from_inputs h2 mic_segments sys_segments) as Hin.
  pose proof (merge_output_length h2 mic_segments sys_segments) as Hlen.
  destruct (_merge_and_filter h2 mic_segments sys_segments) as [h3 out].
  simpl in *. split; [|by unfold deref; rewrite !length_fmap].
  apply Forall_forall. intros r Hr. unfold deref in Hr.
  apply list_elem_of_fmap in Hr as (v & -> & Hv).
  apply list_elem_of_fmap in Hv as (l & -> & Hl).
  exists l. specialize (Hin l Hl). specialize (Hext l).
  destruct Hext as (Hs & Ht & Hsp & _ & He).
  unfold to_row, get_start, get_end in *. simpl.
  rewrite Hs, Ht, Hsp. subst h2. rewrite !label_lookup in *.
  apply elem_of_app in Hin as Hcase.
  destruct (bool_decide (l ∈ sys_segments)) eqn:Hsys;
    destruct (bool_decide (l ∈ mic_segments)) eqn:Hmic; simpl in *;
    try (repeat split; first [by apply elem_of_app|done]).
  apply bool_decide_eq_false in Hsys, Hmic. tauto.
Qed.

Example rows_of_interleaved_tracks :
  transcript_rows 7 interleaved_heap [0; 1]%nat [2; 3]%nat
  = [Row 7 0 950 "You" (str "hello") None;
     Row 7 1000 1800 "Remote" (str "well") None;
     Row 7 2000 2500 "You" (str "bye") None].
Proof. vm_compute. reflexivity. Qed.

Section Jobs.
Variable T : db.
Variable meeting : Z.

Lemma start_while_running w st :
  _jobs w !! meeting = Some st -> status st = "running" ->
  start_transcription_job T meeting w
  = (Jobs (_jobs w) ({[meeting]} ∪ _locks w) (workers w), Return st).
Proof.
  intros Hst Hrun. unfold start_transcription_job, bind, _get_lock, modify, gets.
  simpl. rewrite bool_decide_eq_true_2 by (by rewrite Hst; simpl; rewrite Hrun).
  unfold job_at, bind, gets. simpl. by rewrite Hst.
Qed.

Lemma running_spec w :
  running meeting w = true ->
  exists st, _jobs w !! meeting = Some st /\ status st = "running".
Proof.
  unfold running. intros H%bool_decide_eq_true.
  destruct (_jobs w !! meeting) as [st|]; [|done].
  exists st. split; [done|]. by injection H.
Qed.

Lemma worker_writes_spec sts : forall w,
  worker_writes meeting sts w = (written meeting sts w, Return tt).
Proof.
  induction sts as [|st sts IH]; intros w; [done|].
  simpl. unfold bind, worker_write, modify. simpl. rewrite IH.
  unfold written. rewrite last_cons. destruct (last sts) as [st'|] eqn:Hl.
  - destruct w; unfold with_jobs; simpl. by rewrite insert_insert_eq.
  - done.
Qed.

Lemma written_other sts w m :
  m <> meeting -> _jobs (written meeting sts w) !! m = _jobs w !! m.
Proof.
  intros Hm. unfold written. destruct (last sts); [|done].
  destruct w; simpl. by rewrite lookup_insert_ne.
Qed.

Lemma written_same sts w st :
  _jobs w !! meeting = Some st ->
  _jobs (written meeting sts w) !! meeting = Some (default st (last sts)).
Proof.
  intros Hst. unfold written. destruct (last sts); [|done].
  destruct w; simpl. by rewrite lookup_insert_eq.
Qed.

Lemma written_workers sts w :
  workers (written meeting sts w) = workers w /\
  _locks (written meeting sts w) = _locks w.
Proof. unfold written. destruct (last sts); [|done]. by destruct w. Qed.

(** The four ways a start can go. *)
Lemma start_cases w :
  let r := start_transcription_job T meeting w in
  (forall m, m <> meeting -> _jobs r.1 !! m = _jobs w !! m) /\
  ((running meeting w = true /\ _jobs r.1 = _jobs w /\ workers r.1 = workers w /\
    exists st, _jobs w !! meeting = Some st /\ r.2 = Return st) \/
   (running meeting w = false /\ _jobs r.1 !! meeting = Some starting /\
    workers r.1 = workers w /\ has_tracks T meeting && worker_starts T = false /\
    lacks_tracks T meeting = false /\ exists e, r.2 = Raise e) \/
   (running meeting w = false /\ _jobs r.1 !! meeting = Some not_found /\
    workers r.1 = workers w /\ lacks_tracks T meeting = true /\
    r.2 = Return not_found) \/
   (running meeting w = false /\
    _jobs r.1 !! meeting = Some (read_after_start T) /\
    workers r.1 = workers w ++ [meeting] /\
    has_tracks T meeting && worker_starts T = true /\
    r.2 = Return (read_after_start T))).
Proof.
  destruct (running meeting w) eqn:Hrun.
  - apply running_spec in Hrun as Hst. destruct Hst as (st & Hst & Hs).
    simpl. rewrite (start_while_running w st Hst Hs). simpl.
    split; [done|]. left. repeat split; try done. by exists st.
  - unfold running in Hrun. simpl.
    unfold start_transcription_job, bind, _get_lock, modify, gets, has_tracks,
      lacks_tracks. simpl. rewrite Hrun. unfold lift, ret, raise.
    destruct (find_meeting T meeting) as [[]|];
      destruct (find_audio T meeting "mic") as [[]|];
      destruct (find_audio T meeting "system") as [[]|];
      destruct (worker_starts T);
      unfold check, ret, raise; simpl;
      rewrite ?worker_writes_spec; simpl;
      unfold job_at, bind, gets, lift, ret, raise; simpl;
      rewrite ?(written_same _ _ starting) by (simpl; apply lookup_insert_eq);
      rewrite ?lookup_insert_eq, ?insert_insert_eq; simpl;
      (split; [intros m Hm; rewrite ?written_other by done; simpl;
               rewrite ?lookup_insert_ne by done; done|]);
      rewrite ?lookup_insert_eq;
      first [ right; right; right; repeat split; try done;
              [ by apply (written_same _ _ starting), lookup_insert_eq
              | by rewrite (proj1 (written_workers _ _)) ]
            | by right; right; left
            | right; left; repeat split; eauto ].
Qed.

Lemma start_locks w :
  _locks (start_transcription_job T meeting w).1 = {[meeting]} ∪ _locks w.
Proof.
  destruct (running meeting w) eqn:Hrun.
  - apply running_spec in Hrun as (st & Hst & Hs).
    by rewrite (start_while_running w st Hst Hs).
  - unfold running in Hrun.
    unfold start_transcription_job, bind, _get_lock, modify, gets. simpl.
    rewrite Hrun. unfold lift, ret, raise.
    destruct (find_meeting T meeting) as [[]|];
      destruct (find_audio T meeting "mic") as [[]|];
      destruct (find_audio T meeting "system") as [[]|];
      destruct (worker_starts T);
      unfold check, ret, raise; simpl;
      rewrite ?worker_writes_spec; simpl;
      unfold job_at, bind, gets, lift, ret, raise; simpl;
      rewrite ?(written_same _ _ starting) by (simpl; apply lookup_insert_eq);
      rewrite ?lookup_insert_eq; simpl;
      rewrite ?(proj2 (written_workers _ _)); done.
Qed.

(** A start on a job marked running changes neither the table nor the
    workers. *)
Lemma start_on_running w :
  running meeting w = true ->
  _jobs (start_transcription_job T meeting w).1 = _jobs w /\
  workers (start_transcription_job T meeting w).1 = workers w.
Proof.
  intros (st & Hst & Hs)%running_spec.
  by rewrite (start_while_running w st Hst Hs).
Qed.

End Jobs.

Lemma still_running_elem sts st :
  still_running sts = true -> st ∈ sts -> status st = "running".
Proof.
  unfold still_running. rewrite forallb_forall. intros Hall Hin.
  apply list_elem_of_In in Hin. apply Hall in Hin.
  by apply bool_decide_eq_true in Hin.
Qed.

Lemma still_running_last sts st :
  still_running sts = true -> last sts = Some st -> status st = "running".
Proof.
  intros Hall Hl. apply (still_running_elem sts); [done|].
  apply last_Some in Hl as [l' ->]. apply elem_of_app. right. by left.
Qed.

(** X7. Two start requests for a meeting launch at most one worker thread
    between them, whatever the database answers, and change no other
    meeting's job, as long as the job is still marked running when the second
    request arrives: that is, unless the worker of the first has already
    finished or failed. ([between] are the worker's writes between the two
    requests.) *)
Theorem back_to_back_starts_launch_one_worker (T T' : db) (meeting : Z)
    (between : list JobState) (w : jobs_world) :
  still_running (worker_head_start T ++ between) = true ->
  let w1 := (start_transcription_job T meeting w).1 in
  let w1' := (worker_writes meeting between w1).1 in
  let w2 := (start_transcription_job T' meeting w1').1 in
  (workers w2 = workers w \/ workers w2 = workers w ++ [meeting]) /\
  forall m, m <> meeting -> _jobs w2 !! m = _jobs w !! m.
Proof.
  intros Hrun w1 w1' w2.
  destruct (start_cases T meeting w) as [Hf1 H1].
  destruct (start_cases T' meeting w1') as [Hf2 H2].
  fold w1 in Hf1, H1. fold w2 in Hf2, H2.
  assert (w1' = written meeting between w1) as Hw1'
    by (subst w1'; by rewrite worker_writes_spec).
  assert (workers w1' = workers w1) as Hwk
    by (rewrite Hw1'; apply written_workers).
  split.
  2:{ intros m Hm. rewrite Hf2, Hw1', written_other, Hf1 by done. done. }
  assert (forall st, _jobs w1 !! meeting = Some st -> status st = "running" ->
                     workers w2 = workers w1) as Hnoop.
  { intros st Hst Hs. rewrite <- Hwk.
    apply (start_on_running T' meeting w1'). unfold running.
    rewrite Hw1', (written_same meeting between w1 st Hst). simpl.
    apply bool_decide_eq_true. f_equal.
    destruct (last between) as [st'|] eqn:Hl; simpl; [|done].
    apply (still_running_last (worker_head_start T ++ between)); [done|].
    by rewrite last_app, Hl. }
  destruct H1 as [(Hr & Hj & Hw & st & Hst & _)|[(_ & Hj & Hw & _)|[(_ & Hj & Hw & _)|(_ & Hj & Hw & _)]]].
  - left. rewrite <- Hw. apply (Hnoop st); [by rewrite Hj|].
    apply running_spec in Hr as (st' & Hst' & Hs). congruence.
  - left. rewrite <- Hw. by apply (Hnoop starting).
  - destruct (last between) as [st'|] eqn:Hl.
    + left. rewrite <- Hw, <- Hwk.
      apply (start_on_running T' meeting w1'). unfold running.
      rewrite Hw1', (written_same meeting between w1 _ Hj), Hl. simpl.
      apply bool_decide_eq_true. f_equal.
      apply (still_running_last (worker_head_start T ++ between)); [done|].
      by rewrite last_app, Hl.
    + destruct H2 as [(_ & _ & Hw2 & _)|[(_ & _ & Hw2 & _)|[(_ & _ & Hw2 & _)|(_ & _ & Hw2 & _)]]];
        rewrite Hw2, Hwk, Hw; auto.
  - right. rewrite <- Hw. apply (Hnoop (read_after_start T)); [done|].
    unfold read_after_start.
    destruct (last (worker_head_start T)) as [st'|] eqn:Hl; simpl; [|done].
    apply (still_running_elem (worker_head_start T ++ between)); [done|].
    apply elem_of_app. left. apply last_Some in Hl as [l' ->].
    apply elem_of_app. right. by left.
Qed.

Lemma back_to_back_starts_launch_one_worker_witness :
  let w1 := (start_transcription_job db_with_meeting_7 7 no_jobs).1 in
  let w1' := (worker_writes 7 [Job "running" 450 (Some "transcribing")] w1).1 in
  let w2 := (start_transcription_job db_with_meeting_7 7 w1').1 in
  (workers w2 = workers no_jobs \/ workers w2 = workers no_jobs ++ [7]) /\
  forall m, m <> 7 -> _jobs w2 !! m = _jobs no_jobs !! m.
Proof.
  exact (back_to_back_starts_launch_one_worker db_with_meeting_7
           db_with_meeting_7 7 [Job "running" 450 (Some "transcribing")]
           no_jobs eq_refl).
Defined.

(** X8. A start request that raises (a database query or the thread start
    failed) leaves the job marked running with the message "starting" and no
    worker; every later start request then returns that state and starts
    nothing, so the job stays where it is. *)
Theorem failed_start_blocks_the_job (T : db) (meeting : Z) (w : jobs_world)
    (e : pyexn) :
  (start_transcription_job T meeting w).2 = Raise e ->
  let w1 := (start_transcription_job T meeting w).1 in
  get_status meeting w1 = starting /\
  workers w1 = workers w /\
  forall T', start_transcription_job T' meeting w1 = (w1, Return starting).
Proof.
  intros Hraise w1.
  destruct (start_cases T meeting w) as [_ H1]. fold w1 in H1.
  pose proof (start_locks T meeting w) as Hlocks. fold w1 in Hlocks.
  destruct H1 as [(_ & _ & _ & st & _ & Hr)|[(_ & Hj & Hw & _)|[(_ & _ & _ & _ & Hr)|(_ & _ & _ & _ & Hr)]]];
    try congruence.
  unfold get_status. rewrite Hj. repeat split; [done|].
  intros T'. rewrite (start_while_running T' meeting w1 starting Hj eq_refl).
  f_equal. destruct w1 as [j l k]. simpl in *. subst l.
  f_equal. by rewrite (assoc_L (∪)), (idemp_L (∪)).
Qed.

Lemma failed_start_blocks_the_job_witness :
  get_status 7 (start_transcription_job db_down 7 no_jobs).1 = starting /\
  workers (start_transcription_job db_down 7 no_jobs).1 = [] /\
  forall T', start_transcription_job T' 7 (start_transcription_job db_down 7 no_jobs).1
             = ((start_transcription_job db_down 7 no_jobs).1, Return starting).
Proof.
  exact (failed_start_blocks_the_job db_down 7 no_jobs LibraryError eq_refl).
Defined.

(** X9. When the meeting or one of its two tracks is not in the database, a
    start request on a job that is not running returns and records the error
    state "meeting or audio not found" and starts no worker; the error does
    not stick: a later request that finds everything starts the worker, and
    returns the state the table then holds, which is the caller's own
    "starting" or whatever the worker has written since. *)
Theorem missing_tracks_give_retriable_error (T T' : db) (meeting : Z)
    (w : jobs_world) :
  running meeting w = false ->
  lacks_tracks T meeting = true ->
  has_tracks T' meeting && worker_starts T' = true ->
  let r := start_transcription_job T meeting w in
  let r' := start_transcription_job T' meeting r.1 in
  r.2 = Return not_found /\ get_status meeting r.1 = not_found /\
  workers r.1 = workers w /\
  r'.2 = Return (read_after_start T') /\
  get_status meeting r'.1 = read_after_start T' /\
  workers r'.1 = workers w ++ [meeting].
Proof.
  intros Hrun Hlack Hhas r r'.
  destruct (start_cases T meeting w) as [_ H1]. fold r in H1.
  destruct (start_cases T' meeting r.1) as [_ H2]. fold r' in H2.
  assert (lacks_tracks T' meeting = false) as Hfound.
  { revert Hhas. unfold has_tracks, lacks_tracks.
    destruct (find_meeting T' meeting) as [[]|]; try done;
      destruct (find_audio T' meeting "mic") as [[]|]; try done;
      destruct (find_audio T' meeting "system") as [[]|]; done. }
  destruct H1 as [(Hr & _)|[(_ & _ & _ & _ & Hl & _)|[(_ & Hj & Hw & _ & Hret)|(_ & _ & _ & Hh & _)]]];
    try congruence.
  - unfold get_status at 1. rewrite Hj.
    split; [done|]. split; [done|]. split; [done|].
    destruct H2 as [(Hr2 & _)|[(_ & _ & _ & Hh & _)|[(_ & _ & _ & Hl2 & _)|(_ & Hj2 & Hw2 & _ & Hret2)]]];
      try congruence.
    + unfold running in Hr2. by rewrite Hj in Hr2.
    + unfold get_status. rewrite Hj2, Hw2, Hw. done.
  - exfalso. revert Hlack Hh. unfold has_tracks, lacks_tracks.
    destruct (find_meeting T meeting) as [[]|]; try done;
      destruct (find_audio T meeting "mic") as [[]|]; try done;
      destruct (find_audio T meeting "system") as [[]|]; done.
Qed.

Lemma missing_tracks_give_retriable_error_witness :
  let r := start_transcription_job
             (Db (fun _ => Some false) (fun _ _ => Some true) true []) 7 no_jobs in
  let r' := start_transcription_job db_with_hasty_worker 7 r.1 in
  r.2 = Return not_found /\ get_status 7 r.1 = not_found /\
  workers r.1 = [] /\
  r'.2 = Return (read_after_start db_with_hasty_worker) /\
  get_status 7 r'.1 = read_after_start db_with_hasty_worker /\
  workers r'.1 = [7].
Proof.
  exact (missing_tracks_give_retriable_error
           (Db (fun _ => Some false) (fun _ _ => Some true) true [])
           db_with_hasty_worker 7 no_jobs eq_refl eq_refl eq_refl).
Defined.

(** The race the guard leaves open: a worker that fails before the next
    request arrives lets that request launch a second worker. *)
Example hasty_worker_is_started_twice :
  let r := start_transcription_job db_with_hasty_worker 7 no_jobs in
  let r' := start_transcription_job db_with_hasty_worker 7 r.1 in
  r.2 = Return (Job "error" 0 (Some "model not found")) /\
  workers r'.1 = [7; 7].
Proof. vm_compute. split; reflexivity. Qed.

(* ===================================================================== *)
(** * What the device registry lists *)
(* ===================================================================== *)

Import DevicesFacts.

Section Entries.
Variables (dflt : option Z) (knd key : string).

Lemma entry_spec idx dev d :
  d ∈ entry dflt knd key idx dev ->
  id d = pretty idx /\ kind d = knd /\
  is_default d = bool_decide (Some (Z.of_nat idx) = dflt).
Proof.
  unfold entry.
  destruct (default _ (dev !! key)) as [| |n]; try by intros ?%elem_of_nil.
  destruct (default _ (dev !! "name")) as [|s|]; try by intros ?%elem_of_nil.
  destruct (0 <? n); [|by intros ?%elem_of_nil].
  by intros ->%list_elem_of_singleton.
Qed.

Lemma entries_spec devices : forall idx d,
  d ∈ entries dflt knd key idx devices ->
  exists k, (idx <= k)%nat /\ devices !! (k - idx)%nat <> None /\
    id d = pretty k /\ kind d = knd /\
    is_default d = bool_decide (Some (Z.of_nat k) = dflt).
Proof.
  induction devices as [|dev rest IH]; intros idx d; simpl.
  - by intros ?%elem_of_nil.
  - intros [Hd|Hd]%elem_of_app.
    + exists idx. split; [lia|]. replace (idx - idx)%nat with 0%nat by lia.
      split; [done|]. by eapply entry_spec.
    + destruct (IH _ _ Hd) as (k & Hk & Hl & Hrest). exists k.
      split; [lia|]. split; [|done].
      replace (k - idx)%nat with (S (k - S idx)) by lia. done.
Qed.

Lemma entry_length idx dev : (length (entry dflt knd key idx dev) <= 1)%nat.
Proof.
  unfold entry. repeat (case_match; simpl; try lia).
Qed.

Lemma entries_ids_distinct devices : forall idx,
  NoDup (id <$> entries dflt knd key idx devices).
Proof.
  induction devices as [|dev rest IH]; intros idx; simpl; [constructor|].
  rewrite fmap_app. apply NoDup_app. split; [|split; [|apply IH]].
  - pose proof (entry_length idx dev).
    destruct (entry dflt knd key idx dev) as [|d [|d' t]]; simpl in *;
      [constructor|apply NoDup_singleton|lia].
  - intros s (d & -> & Hd)%list_elem_of_fmap (d' & Heq & Hd')%list_elem_of_fmap.
    apply entry_spec in Hd as (Hid & _).
    apply entries_spec in Hd' as (k & Hk & _ & Hid' & _).
    rewrite Hid, Hid' in Heq. apply (inj pretty) in Heq. lia.
Qed.

Lemma defaults_none (l : list Device) :
  (forall d, d ∈ l -> is_default d <> true) -> defaults l = [].
Proof.
  unfold defaults. induction l as [|x l IH]; intros Hn; [done|].
  rewrite filter_cons_False by (apply Hn; by left).
  apply IH. intros y Hy. apply Hn. by right.
Qed.

Lemma entries_one_default devices : forall idx,
  (length (defaults (entries dflt knd key idx devices)) <= 1)%nat.
Proof.
  unfold defaults.
  induction devices as [|dev rest IH]; intros idx; simpl; [lia|].
  rewrite filter_app, length_app.
  pose proof (entry_length idx dev) as Hlen. specialize (IH (S idx)).
  destruct (entry dflt knd key idx dev) as [|d [|d' t]] eqn:He; simpl in *;
    [lia| |lia].
  rewrite filter_cons, filter_nil. case_decide as Hdef; simpl; [|lia].
  assert (d ∈ entry dflt knd key idx dev) as Hd by (rewrite He; left).
  apply entry_spec in Hd as (_ & _ & Hflag).
  rewrite Hflag in Hdef. apply bool_decide_eq_true in Hdef.
  assert (filter (fun d => is_default d = true)
            (entries dflt knd key (S idx) rest) = []) as ->; [|simpl; lia].
  apply defaults_none. intros d' Hd'.
  apply entries_spec in Hd' as (k & Hk & _ & _ & _ & Hflag').
  rewrite Hflag'. intros Hk'%bool_decide_eq_true. rewrite <- Hdef in Hk'.
  injection Hk' as Hk'. lia.
Qed.

End Entries.

Section Enumerate.
Variables (din dout : option Z).

Local Abbreviation ins := (entry din "input" "max_input_channels").
Local Abbreviation outs := (entry dout "output" "max_output_channels").

(** One turn of the loop appends a prefix of the device's entries, all of
    them unless it raises, and does not raise on a well-formed dict. *)
Lemma visit_run idx dev (l : listing) :
  exists ein eout,
    (visit din dout idx dev l).1 = Listing (inputs l ++ ein) (outputs l ++ eout) /\
    ein `prefix_of` ins idx dev /\ eout `prefix_of` outs idx dev /\
    ((visit din dout idx dev l).2 = Return tt ->
     ein = ins idx dev /\ eout = outs idx dev) /\
    (well_formed dev = true -> (visit din dout idx dev l).2 = Return tt).
Proof.
  unfold visit, entry, well_formed, bind, gt_zero, make_device, ret, raise, modify.
  destruct l as [li lo].
  destruct (default (PInt 0) (dev !! "max_input_channels")) as [| |n];
    destruct (default (PInt 0) (dev !! "max_output_channels")) as [| |m];
    destruct (dev !! "name") as [[|nm|]|]; simpl;
    try destruct (0 <? n); try destruct (0 <? m); simpl;
    first
      [ by exists [], []; rewrite !app_nil_r; repeat split;
          try done; try apply prefix_nil
      | by eexists [_], []; rewrite !app_nil_r; repeat split;
          try done; try apply prefix_nil
      | by eexists [], [_]; rewrite !app_nil_r; repeat split;
          try done; try apply prefix_nil
      | by eexists [_], [_]; repeat split; try done ].
Qed.

Lemma enumerate_run devices : forall idx (l : listing),
  exists ein eout,
    (enumerate_from din dout idx devices l).1
    = Listing (inputs l ++ ein) (outputs l ++ eout) /\
    ein `prefix_of` entries din "input" "max_input_channels" idx devices /\
    eout `prefix_of` entries dout "output" "max_output_channels" idx devices /\
    (forallb well_formed devices = true ->
     (enumerate_from din dout idx devices l).2 = Return tt /\
     ein = entries din "input" "max_input_channels" idx devices /\
     eout = entries dout "output" "max_output_channels" idx devices).
Proof.
  induction devices as [|dev rest IH]; intros idx l; simpl.
  - exists [], []. destruct l. by rewrite !app_nil_r.
  - destruct (visit_run idx dev l) as (ein & eout & Hw & Hpi & Hpo & Hret & Hwf).
    unfold bind.
    destruct (visit din dout idx dev l) as [l1 [[]|e]] eqn:Hv; simpl in *.
    + destruct (Hret eq_refl) as [-> ->]. subst l1.
      destruct (IH (S idx) (Listing (inputs l ++ ins idx dev)
                                    (outputs l ++ outs idx dev)))
        as (ein' & eout' & Hw' & Hpi' & Hpo' & Hall).
      simpl in Hw'. exists (ins idx dev ++ ein'), (outs idx dev ++ eout').
      rewrite Hw', !(assoc_L (++)). split; [done|].
      split; [by apply prefix_app|]. split; [by apply prefix_app|].
      intros [Hd Hr]%andb_prop. destruct (Hall Hr) as (Hok & -> & ->). done.
    + exists ein, eout. split; [done|].
      split; [by apply prefix_app_r|]. split; [by apply prefix_app_r|].
      intros [Hd Hr]%andb_prop. by specialize (Hwf Hd).
Qed.

End Enumerate.

(** What [list_devices] returns next to the full listing of the enumeration. *)
Lemma list_devices_prefix (E : env) (l : listing) :
  list_devices E = Return l ->
  inputs l `prefix_of` entries (default_input E) "input" "max_input_channels" 0
                         (default [] (sd_query_all E)) /\
  outputs l `prefix_of` entries (default_output E) "output" "max_output_channels" 0
                          (default [] (sd_query_all E)).
Proof.
  unfold list_devices. destruct (sd_loaded E); simpl.
  2:{ intros [= <-]. split; apply prefix_nil. }
  unfold try_except, bind, lift.
  destruct (sd_query_all E) as [devices|]; simpl.
  2:{ intros [= <-]. split; apply prefix_nil. }
  destruct (enumerate_run (default_input E) (default_output E) devices 0%nat
              (Listing [] [])) as (ein & eout & Hw & Hpi & Hpo & _).
  destruct (enumerate_from _ _ 0%nat devices (Listing [] [])) as [l1 [[]|e]];
    simpl in *; intros [= <-]; subst l1; done.
Qed.

(** X10. When every device dict of the backend is well formed, the listing is
    complete and in enumeration order: the inputs are exactly the devices
    with a positive input channel count, the outputs those with a positive
    output channel count, each under its index as id and its name (or
    "Device <index>" when it has none). *)
Theorem list_devices_lists_every_device (E : env) (devices : list dev_info) :
  sd_loaded E = true ->
  sd_query_all E = Some devices ->
  forallb well_formed devices = true ->
  list_devices E
  = Return (Listing
              (entries (default_input E) "input" "max_input_channels" 0 devices)
              (entries (default_output E) "output" "max_output_channels" 0 devices)).
Proof.
  intros Hsd Hq Hwf. unfold list_devices. rewrite Hsd. simpl.
  unfold try_except, bind, lift. rewrite Hq. simpl.
  destruct (enumerate_run (default_input E) (default_output E) devices 0%nat
              (Listing [] [])) as (ein & eout & Hw & _ & _ & Hall).
  destruct (Hall Hwf) as (Hok & -> & ->).
  destruct (enumerate_from _ _ 0%nat devices (Listing [] [])) as [l1 o].
  simpl in *. by subst.
Qed.

Lemma list_devices_lists_every_device_witness :
  list_devices demo_env
  = Return (Listing
              (entries (default_input demo_env) "input" "max_input_channels" 0
                 demo_devices)
              (entries (default_output demo_env) "output" "max_output_channels" 0
                 demo_devices)).
Proof.
  exact (list_devices_lists_every_device demo_env demo_devices
           eq_refl eq_refl eq_refl).
Defined.

(** X11. Whatever the backend answers, the ids within each returned list are
    pairwise distinct, at most one entry of each list is marked default, and
    every entry carries the kind of its list. (A device that both records and
    plays is in both lists under the same id.) *)
Theorem list_devices_ids_identify (E : env) (l : listing) :
  list_devices E = Return l ->
  NoDup (id <$> inputs l) /\ NoDup (id <$> outputs l) /\
  (length (defaults (inputs l)) <= 1)%nat /\
  (length (defaults (outputs l)) <= 1)%nat /\
  Forall (fun d => kind d = "input") (inputs l) /\
  Forall (fun d => kind d = "output") (outputs l).
Proof.
  intros [[ti Hi] [to Ho]]%list_devices_prefix.
  pose proof (entries_ids_distinct (default_input E) "input" "max_input_channels"
                (default [] (sd_query_all E)) 0) as Hni.
  pose proof (entries_ids_distinct (default_output E) "output" "max_output_channels"
                (default [] (sd_query_all E)) 0) as Hno.
  pose proof (entries_one_default (default_input E) "input" "max_input_channels"
                (default [] (sd_query_all E)) 0) as Hdi.
  pose proof (entries_one_default (default_output E) "output" "max_output_channels"
                (default [] (sd_query_all E)) 0) as Hdo.
  unfold defaults in *.
  rewrite Hi, fmap_app in Hni. rewrite Ho, fmap_app in Hno.
  rewrite Hi, filter_app, length_app in Hdi.
  rewrite Ho, filter_app, length_app in Hdo.
  apply NoDup_app in Hni as (Hni & _). apply NoDup_app in Hno as (Hno & _).
  repeat split; try done; try lia; apply Forall_forall; intros d Hd.
  - assert (d ∈ entries (default_input E) "input" "max_input_channels" 0
                  (default [] (sd_query_all E))) as Hd'
      by (rewrite Hi; apply elem_of_app; by left).
    by apply entries_spec in Hd' as (k & _ & _ & _ & Hk & _).
  - assert (d ∈ entries (default_output E) "output" "max_output_channels" 0
                  (default [] (sd_query_all E))) as Hd'
      by (rewrite Ho; apply elem_of_app; by left).
    by apply entries_spec in Hd' as (k & _ & _ & _ & Hk & _).
Qed.

Lemma list_devices_ids_identify_witness :
  NoDup (id <$> [mkDevice "0" "Mic" "input" true]) /\
  NoDup (id <$> [mkDevice "1" "Speakers" "output" true]) /\
  (length (defaults [mkDevice "0" "Mic" "input" true]) <= 1)%nat /\
  (length (defaults [mkDevice "1" "Speakers" "output" true]) <= 1)%nat /\
  Forall (fun d => kind d = "input") [mkDevice "0" "Mic" "input" true] /\
  Forall (fun d => kind d = "output") [mkDevice "1" "Speakers" "output" true].
Proof.
  exact (list_devices_ids_identify demo_env
           (Listing [mkDevice "0" "Mic" "input" true]
                    [mkDevice "1" "Speakers" "output" true]) eq_refl).
Defined.

Example list_devices_shared_id :
  list_devices
    {| sd_loaded := true; sc_loaded := false; audio_dir := "";
       py_int := fun _ => None;
       sd_query_all := Some [ {[ "name" := PStr "Headset";
                                 "max_input_channels" := PInt 1;
                                 "max_output_channels" := PInt 2 ]};
                              {[ "max_input_channels" := PInt 1 ]} ];
       sd_default_device := Some (Some 0, Some 0);
       sd_query := fun _ => None; sd_query_output := fun _ => None;
       wasapi_available := false;
       stream_create_ok := fun _ => false; stream_start_ok := fun _ => false;
       stream_stop_ok := fun _ _ => true; stream_close_ok := fun _ _ => true;
       wav_open_ok := fun _ => true; wav_write_ok := fun _ _ => true;
       wav_close_ok := fun _ => true;
       thread_start_ok := true; thread_join_ok := true |}
  = Return (Listing [mkDevice "0" "Headset" "input" true;
                     mkDevice "1" "Device 1" "input" false]
                    [mkDevice "0" "Headset" "output" true]).
Proof. vm_compute. reflexivity. Qed.


(* ===================================================================== *)
(** * Teardown of a session *)
(* ===================================================================== *)

Import CaptureFacts.

Section Teardown.
Variables (E : env) (key : string).

Lemma try_finally_quiet {S A} (m : M S A) (f : M S unit) (s : S) :
  (forall s', (f s').2 = Return tt) ->
  (try_finally m f s).1 = (f (m s).1).1 /\ (try_finally m f s).2 = (m s).2.
Proof.
  intros Hf. unfold try_finally. destruct (m s) as [s1 [a|e]]; simpl;
    specialize (Hf s1); destruct (f s1) as [s2 [[]|e']]; simpl in *; done.
Qed.

(** [wav.close()] under [except Exception: pass] leaves the writer closed
    and never raises, whether or not the close itself does. *)
Lemma close_quietly_spec path (s : world) :
  close_quietly E path s = (with_wavs (alter closed_copy path) s, Return tt).
Proof.
  unfold close_quietly, try_except, bind, check, modify, ret, raise. simpl.
  by destruct (wav_close_ok E path).
Qed.

Local Abbreviation closing o s :=
  (match o with
   | Some p => with_wavs (alter closed_copy p) s
   | None => s
   end).

Local Abbreviation stop_try b :=
  (bind (when (bool_decide (is_Some (mic_stream b))) (stop_and_close E key Mic))
     (fun _ =>
      bind (when (bool_decide (is_Some (sys_stream b))) (stop_and_close E key System))
        (fun _ =>
         bind (when (bool_decide (is_Some (sys_stop_event b)))
                 (modify (with_stop_flags (union {[ key ]}))))
           (fun _ =>
            when (bool_decide (is_Some (sys_thread b)))
              (when (thread_join_ok E)
                 (modify (with_threads (fun s => s ∖ {[ key ]})))))))).

Local Abbreviation stop_finally b :=
  (bind (match mic_wav b with
         | Some p => close_quietly E p
         | None => ret tt
         end)
     (fun _ => match sys_wav b with
               | Some p => close_quietly E p
               | None => ret tt
               end)).

Lemma stop_finally_spec b (s : world) :
  stop_finally b s = (closing (sys_wav b) (closing (mic_wav b) s), Return tt).
Proof.
  unfold bind. destruct (mic_wav b), (sys_wav b);
    rewrite ?close_quietly_spec; simpl; rewrite ?close_quietly_spec; done.
Qed.

(** The try block touches neither the table nor the files, and starts no
    stream. *)
Lemma stop_try_frame b (w : world) :
  keeps (fun s => _recordings s = _recordings w /\ wavs s = wavs w /\
                  streams s ⊆ streams w)
        (stop_try b) (fun _ => True).
Proof.
  unfold stop_and_close. inv_walk; apply inv_modify;
    first [ by intros []
          | intros [? ss ? ? ? ?] (? & ? & Hs); simpl in *;
            repeat split; try done;
            intros x [Hx _]%elem_of_difference; by apply Hs ].
Qed.

Lemma bind_ret_frame {S A B} (m : M S A) (r : B) (s : S) :
  (bind m (fun _ => ret r) s).1 = (m s).1 /\
  (returns (bind m (fun _ => ret r) s) <-> returns (m s)).
Proof. unfold bind, returns. by destruct (m s) as [s1 [a|e]]. Qed.

Lemma stop_recording_unfold (w : world) b :
  _recordings w !! key = Some b ->
  exists r,
    stop_recording E key w
    = bind (try_finally (stop_try b) (stop_finally b)) (fun _ => ret r)
        (with_recordings (delete key) w).
Proof.
  intros Hb. eexists. unfold stop_recording.
  unfold bind at 1. unfold gets at 1. simpl. rewrite Hb.
  unfold bind at 1. unfold modify at 1. simpl. reflexivity.
Qed.

(** Where [stop_recording] leaves the process, returning or raising: the try
    block runs on the table without the key, then the finally block closes
    the two writers. *)
Lemma stop_recording_world (w : world) b :
  _recordings w !! key = Some b ->
  exists s1,
    _recordings s1 = delete key (_recordings w) /\ wavs s1 = wavs w /\
    streams s1 ⊆ streams w /\
    (stop_recording E key w).1 = closing (sys_wav b) (closing (mic_wav b) s1) /\
    (returns (stop_recording E key w) <->
     returns (stop_try b (with_recordings (delete key) w))).
Proof.
  intros Hb.
  exists (stop_try b (with_recordings (delete key) w)).1.
  destruct (stop_try_frame b (with_recordings (delete key) w)
              (with_recordings (delete key) w)) as [(H1 & H2 & H3) _].
  { done. }
  split; [by rewrite H1; destruct w|]. split; [by rewrite H2; destruct w|].
  split; [by destruct w|].
  destruct (stop_recording_unfold w b Hb) as [r ->].
  destruct (bind_ret_frame (try_finally (stop_try b) (stop_finally b)) r
              (with_recordings (delete key) w)) as [-> ->].
  destruct (try_finally_quiet (stop_try b) (stop_finally b)
              (with_recordings (delete key) w)) as [-> Ho].
  { intros s'. by rewrite stop_finally_spec. }
  rewrite stop_finally_spec. simpl. split; [done|].
  unfold returns. by rewrite Ho.
Qed.

Lemma closing_table o (s : world) : _recordings (closing o s) = _recordings s.
Proof. destruct o as [p|]; [|done]. by destruct s. Qed.

Lemma closing_streams o (s : world) : streams (closing o s) = streams s.
Proof. destruct o as [p|]; [|done]. by destruct s. Qed.

Lemma closing_threads o (s : world) :
  threads (closing o s) = threads s /\ stop_flags (closing o s) = stop_flags s.
Proof. destruct o as [p|]; [|done]. by destruct s. Qed.

Lemma closing_wavs o (s : world) path :
  wavs (closing o s) !! path
  = if bool_decide (o = Some path)
    then closed_copy <$> wavs s !! path else wavs s !! path.
Proof.
  destruct o as [p|]; [|done].
  destruct (decide (p = path)) as [->|Hne].
  - rewrite bool_decide_eq_true_2 by done.
    destruct s; simpl. by rewrite lookup_alter_eq.
  - rewrite bool_decide_eq_false_2 by congruence.
    destruct s; simpl. by rewrite lookup_alter_ne.
Qed.

Lemma closed_copy_twice (o : option wave_write) :
  closed_copy <$> (closed_copy <$> o) = closed_copy <$> o.
Proof. by destruct o. Qed.

(** The try block returns exactly when every stream the bundle holds stops
    and closes; setting the stop event and joining the thread cannot fail. *)
Lemma stop_try_returns b (s : world) :
  returns (stop_try b s) <-> streams_stop E key b = true.
Proof.
  unfold returns, streams_stop, bind, when, stop_and_close, bind, check,
    modify, ret, raise.
  destruct (bool_decide (is_Some (mic_stream b)));
    [destruct (stream_stop_ok E key Mic); [destruct (stream_close_ok E key Mic)|]|];
    simpl; try done;
    (destruct (bool_decide (is_Some (sys_stream b)));
     [destruct (stream_stop_ok E key System);
      [destruct (stream_close_ok E key System)|]|]);
    simpl; try done;
    destruct (bool_decide (is_Some (sys_stop_event b)));
    destruct (bool_decide (is_Some (sys_thread b)));
    destruct (thread_join_ok E); simpl; done.
Qed.

Lemma stop_returns_iff_streams_stop_aux (w : world) b :
  _recordings w !! key = Some b ->
  (returns (stop_recording E key w) <-> streams_stop E key b = true).
Proof.
  intros Hb.
  destruct (stop_recording_world w b Hb) as (s1 & _ & _ & _ & _ & ->).
  apply stop_try_returns.
Qed.

(** A try block that returns has set the stop event and, when the thread
    ended within the timeout, joined it. *)
Lemma stop_try_releases b (s : world) :
  returns (stop_try b s) ->
  (is_Some (sys_stop_event b) -> key ∈ stop_flags (stop_try b s).1) /\
  (is_Some (sys_thread b) -> thread_join_ok E = true ->
   key ∉ threads (stop_try b s).1).
Proof.
  unfold returns, bind, when, stop_and_close, bind, check, modify, ret, raise.
  destruct (bool_decide (is_Some (mic_stream b)));
    [destruct (stream_stop_ok E key Mic); [destruct (stream_close_ok E key Mic)|]|];
    simpl; try done;
    (destruct (bool_decide (is_Some (sys_stream b)));
     [destruct (stream_stop_ok E key System);
      [destruct (stream_close_ok E key System)|]|]);
    simpl; try done;
    destruct (bool_decide (is_Some (sys_stop_event b))) eqn:Hev;
    destruct (bool_decide (is_Some (sys_thread b))) eqn:Hth;
    destruct (thread_join_ok E); simpl; intros _;
    (split; [intros He|intros Ht Hj]);
    try (apply bool_decide_eq_false in Hev; done);
    try (apply bool_decide_eq_false in Hth; done);
    try discriminate;
    destruct s; simpl;
    rewrite ?elem_of_difference, ?elem_of_union, ?elem_of_singleton; tauto.
Qed.

Lemma stop_recording_releases (w : world) b :
  _recordings w !! key = Some b ->
  returns (stop_recording E key w) ->
  (is_Some (sys_stop_event b) -> key ∈ stop_flags (stop_recording E key w).1) /\
  (is_Some (sys_thread b) -> thread_join_ok E = true ->
   key ∉ threads (stop_recording E key w).1).
Proof.
  intros Hb Hret.
  destruct (stop_recording_unfold w b Hb) as [r Heq].
  rewrite Heq in Hret |- *.
  destruct (bind_ret_frame (try_finally (stop_try b) (stop_finally b)) r
              (with_recordings (delete key) w)) as [-> Hiff].
  apply Hiff in Hret.
  destruct (try_finally_quiet (stop_try b) (stop_finally b)
              (with_recordings (delete key) w)) as [-> Ho].
  { intros s'. by rewrite stop_finally_spec. }
  unfold returns in Hret. rewrite Ho in Hret.
  rewrite stop_finally_spec. simpl.
  rewrite !(proj1 (closing_threads _ _)), !(proj2 (closing_threads _ _)).
  by apply stop_try_releases.
Qed.

(** A failing microphone stream ends the try block at once. *)
Lemma stop_try_mic_fails b (s : world) :
  is_Some (mic_stream b) ->
  stream_stop_ok E key Mic && stream_close_ok E key Mic = false ->
  (stop_try b s).2 = Raise LibraryError /\
  forall x, x <> (key, Mic) -> x ∈ streams s -> x ∈ streams (stop_try b s).1.
Proof.
  intros Hm Hfail. unfold bind at 1.
  rewrite bool_decide_eq_true_2 by done. simpl.
  unfold stop_and_close, bind, check, modify, ret, raise.
  destruct (stream_stop_ok E key Mic); simpl in *.
  - rewrite Hfail. simpl. split; [done|]. intros x Hx Hin.
    destruct s; simpl in *. apply elem_of_difference. split; [done|].
    by intros ->%elem_of_singleton.
  - done.
Qed.

End Teardown.

Lemma stop_recording_files (E : env) (key : string) (w : world)
    (b : _StreamBundle) :
  _recordings w !! key = Some b ->
  forall path,
    wavs (stop_recording E key w).1 !! path
    = if bool_decide (mic_wav b = Some path \/ sys_wav b = Some path)
      then closed_copy <$> wavs w !! path
      else wavs w !! path.
Proof.
  intros Hb.
  destruct (stop_recording_world E key w b Hb) as (s1 & Ht & Hw & _ & -> & _).
  intros path. rewrite !closing_wavs, Hw.
  destruct (decide (mic_wav b = Some path)) as [Hm|Hm];
    destruct (decide (sys_wav b = Some path)) as [Hs|Hs];
    rewrite ?(bool_decide_eq_true_2 _ Hm), ?(bool_decide_eq_true_2 _ Hs),
      ?(bool_decide_eq_false_2 _ Hm), ?(bool_decide_eq_false_2 _ Hs);
    [rewrite (bool_decide_eq_true_2 (_ \/ _)) by tauto
    |rewrite (bool_decide_eq_true_2 (_ \/ _)) by tauto
    |rewrite (bool_decide_eq_true_2 (_ \/ _)) by tauto
    |rewrite (bool_decide_eq_false_2 (_ \/ _)) by tauto];
    rewrite ?closed_copy_twice; done.
Qed.

(** X12. [stop_recording] on a registered key always takes the key out of the
    table, touching no other entry, and closes the writers the bundle holds,
    whether it returns or raises and whether or not a [close()] itself raises:
    every file the bundle holds ends up closed with its data unchanged, and
    every file it does not hold is left as it was. *)
Theorem stop_always_unregisters_and_closes (E : env) (key : string)
    (w : world) (b : _StreamBundle) :
  _recordings w !! key = Some b ->
  _recordings (stop_recording E key w).1 = delete key (_recordings w) /\
  forall path,
    wavs (stop_recording E key w).1 !! path
    = if bool_decide (mic_wav b = Some path \/ sys_wav b = Some path)
      then closed_copy <$> wavs w !! path
      else wavs w !! path.
Proof.
  intros Hb. split.
  - apply stop_recording_table.
  - by apply stop_recording_files.
Qed.

Lemma stop_always_unregisters_and_closes_witness :
  _recordings (stop_recording stuck_mic_host "m1" recording_m1).1
  = delete "m1" (_recordings recording_m1) /\
  forall path,
    wavs (stop_recording stuck_mic_host "m1" recording_m1).1 !! path
    = if bool_decide (Some "audio/m1/mic.wav" = Some path \/
                      Some "audio/m1/system.wav" = Some path)
      then closed_copy <$> wavs recording_m1 !! path
      else wavs recording_m1 !! path.
Proof.
  exact (stop_always_unregisters_and_closes stuck_mic_host "m1" recording_m1 _
           recording_m1_bundle).
Defined.

(** X13. On a registered key [stop_recording] returns exactly when stopping
    and closing each stream the bundle holds succeeds; a stop event, a thread
    that does not join in time or a file that does not close never make it
    raise. *)
Theorem stop_returns_iff_streams_stop (E : env) (key : string) (w : world)
    (b : _StreamBundle) :
  _recordings w !! key = Some b ->
  (returns (stop_recording E key w) <-> streams_stop E key b = true).
Proof.
  intros Hb.
  destruct (stop_recording_world E key w b Hb) as (s1 & _ & _ & _ & _ & ->).
  apply stop_try_returns.
Qed.

Lemma stop_returns_iff_streams_stop_witness :
  returns (stop_recording (host true true true) "m1" recording_m1) <->
  streams_stop (host true true true) "m1"
    (StreamBundle
       (Some (StreamRequest 0 2 44100 4096 false))
       (Some (StreamRequest 1 2 48000 4096 true))
       (Some "audio/m1/mic.wav") (Some "audio/m1/system.wav")
       0 0 None None (Some 44100) (Some 2) (Some 48000) (Some 2)
       (Some "sounddevice") 48000) = true.
Proof.
  exact (stop_returns_iff_streams_stop (host true true true) "m1" recording_m1 _
           recording_m1_bundle).
Defined.

(** X14. When the microphone stream of a session fails to stop or close,
    [stop_recording] raises without ever stopping the system stream: that
    stream keeps running, the key is gone from the table, and every later
    stop request for the key returns an empty result and changes nothing. *)
Theorem failed_stop_strands_system_stream (sd sc : bool) (E : env)
    (key : string) (w : world) (b : _StreamBundle) :
  reachable sd sc w ->
  _recordings w !! key = Some b ->
  is_Some (mic_stream b) -> is_Some (sys_stream b) ->
  stream_stop_ok E key Mic && stream_close_ok E key Mic = false ->
  let w' := (stop_recording E key w).1 in
  ~ returns (stop_recording E key w) /\
  (key, System) ∈ streams w' /\
  ~ registered key w' /\
  forall E', stop_recording E' key w' = (w', Return ∅).
Proof.
  intros Hreach Hb Hmic Hsys Hfail w'.
  pose proof (reachable_consistent sd sc w Hreach key b Hb) as (_ & _ & Hrun).
  assert (_recordings w' !! key = None) as Hgone.
  { subst w'. rewrite stop_recording_table. apply lookup_delete_eq. }
  split; [|split; [|split]].
  - rewrite (stop_returns_iff_streams_stop_aux E key w b Hb).
    unfold streams_stop. rewrite bool_decide_eq_true_2 by done. simpl.
    rewrite Hfail. done.
  - subst w'. unfold stop_recording.
    unfold bind at 1. unfold gets at 1. simpl. rewrite Hb.
    unfold bind at 1. unfold modify at 1. simpl.
    match goal with |- _ ∈ streams (bind ?m ?f ?s).1 =>
      rewrite (proj1 (bind_ret_frame m _ s)) end.
    match goal with |- _ ∈ streams (try_finally ?m ?f ?s).1 =>
      destruct (try_finally_quiet m f s) as [-> _];
        [intros s'; by rewrite stop_finally_spec|]
    end.
    rewrite stop_finally_spec. simpl. rewrite !closing_streams.
    apply (stop_try_mic_fails E key b _ Hmic Hfail); [done|].
    destruct w; simpl in *. by apply Hrun.
  - unfold registered. rewrite Hgone. by intros [? [=]].
  - intros E'.
    destruct (stop_recording_unknown_key E' key w' Hgone) as [H1 H2].
    destruct (stop_recording E' key w') as [w2 o]. simpl in *. by subst.
Qed.

Lemma failed_stop_strands_system_stream_witness :
  let w' := (stop_recording stuck_mic_host "m1" recording_m1).1 in
  ~ returns (stop_recording stuck_mic_host "m1" recording_m1) /\
  ("m1", System) ∈ streams w' /\
  ~ registered "m1" w' /\
  forall E', stop_recording E' "m1" w' = (w', Return ∅).
Proof.
  exact (failed_stop_strands_system_stream true true stuck_mic_host "m1"
           recording_m1 _
           (reach_start true true (host true true true) "m1" None None
              empty_world (reach_init true true) eq_refl eq_refl)
           recording_m1_bundle (mk_is_Some _ _ eq_refl) (mk_is_Some _ _ eq_refl)
           eq_refl).
Defined.

Example stop_with_stuck_microphone :
  (stop_recording stuck_mic_host "m1" recording_m1).2 = Raise LibraryError /\
  streams (stop_recording stuck_mic_host "m1" recording_m1).1
  = {[ ("m1", Mic); ("m1", System) ]}.
Proof. split; vm_compute; reflexivity. Qed.

(* ===================================================================== *)
(** * What a start request leaves behind *)
(* ===================================================================== *)

Lemma track_paths_differ (dir : string) :
  path_join dir "mic.wav" <> path_join dir "system.wav".
Proof.
  unfold path_join. intros H. apply (inj (String.append dir)) in H.
  discriminate H.
Qed.

Lemma just_started_frame (E : env) (key : string) (g : world -> world) (s : world) :
  _recordings (g s) = _recordings s -> wavs (g s) = wavs s ->
  just_started E key s -> just_started E key (g s).
Proof.
  intros Hr Hw (b & Hb & H). exists b. rewrite Hr, Hw. done.
Qed.

Lemma just_started_alter (E : env) (key : string) f (s : world) :
  (forall b, mic_frames (f b) = mic_frames b /\ sys_frames (f b) = sys_frames b /\
             target_rate (f b) = target_rate b /\ mic_wav (f b) = mic_wav b /\
             sys_wav (f b) = sys_wav b) ->
  just_started E key s -> just_started E key (with_recordings (alter f key) s).
Proof.
  intros Hf (b & Hb & Hm & Hs & Ht & Hmw & Hsw). exists (f b).
  destruct (Hf b) as (-> & -> & -> & -> & ->).
  destruct s; simpl in *. rewrite lookup_alter_eq, Hb. done.
Qed.

(** Opening the microphone track and handing it to the bundle. *)
Lemma open_mic_track_fresh (E : env) (key : string) msg :
  keeps (just_started E key)
    (bind (get_bundle key) (fun b =>
     bind (_open_wav E (path_join (path_join (audio_dir E) key) "mic.wav") 1
             (target_rate b)) (fun wf =>
     bind (update_bundle key (set_mic_wav (Some wf))) (fun _ =>
     logger_info msg))))
    (fun _ => True).
Proof.
  intros s Hs. split; [|done]. destruct Hs as (b & Hb & Hm & Hs & Ht & Hmw & Hsw).
  unfold bind, get_bundle, gets, _open_wav, bind, check, update_bundle, modify,
    logger_info, ret, raise. simpl. rewrite Hb. simpl.
  destruct (wav_open_ok E _); simpl; [|by exists b].
  exists (set_mic_wav (Some (path_join (path_join (audio_dir E) key) "mic.wav")) b).
  destruct s; simpl in *. rewrite lookup_alter_eq, Hb, Ht. simpl.
  split; [done|]. split; [done|]. split; [done|]. split; [done|]. split.
  - intros p [= <-]. by rewrite lookup_insert_eq.
  - intros p Hp. destruct (Hsw p Hp) as [-> Hf]. split; [done|].
    rewrite lookup_insert_ne; [done|apply track_paths_differ].
Qed.

Lemma open_sys_track_fresh (E : env) (key : string) msg :
  keeps (just_started E key)
    (bind (get_bundle key) (fun b =>
     bind (_open_wav E (path_join (path_join (audio_dir E) key) "system.wav") 1
             (target_rate b)) (fun wf =>
     bind (update_bundle key (set_sys_wav (Some wf))) (fun _ =>
     logger_info msg))))
    (fun _ => True).
Proof.
  intros s Hs. split; [|done]. destruct Hs as (b & Hb & Hm & Hs & Ht & Hmw & Hsw).
  unfold bind, get_bundle, gets, _open_wav, bind, check, update_bundle, modify,
    logger_info, ret, raise. simpl. rewrite Hb. simpl.
  destruct (wav_open_ok E _); simpl; [|by exists b].
  exists (set_sys_wav (Some (path_join (path_join (audio_dir E) key) "system.wav")) b).
  destruct s; simpl in *. rewrite lookup_alter_eq, Hb, Ht. simpl.
  split; [done|]. split; [done|]. split; [done|]. split; [done|]. split.
  - intros p Hp. destruct (Hmw p Hp) as [-> Hf]. split; [done|].
    rewrite lookup_insert_ne; [done|]. intros Heq. symmetry in Heq. by apply track_paths_differ in Heq.
  - intros p [= <-]. by rewrite lookup_insert_eq.
Qed.

Ltac fresh_hook :=
  first
    [ progress unfold resolve_device, open_system_fallback, to_int
    | match goal with
      | |- keeps _ (bind (get_bundle _) (fun b => bind (_open_wav _ _ _ _) _)) _ =>
          first [ apply open_mic_track_fresh | apply open_sys_track_fresh ]
      end ].

Ltac fresh_side :=
  apply inv_modify; intros ? ?;
  first
    [ apply just_started_alter; [by intros []|done]
    | apply just_started_frame; [by destruct_all world|by destruct_all world|done] ].

Section Started.
Variables (E : env) (key : string).

(** Past the registration, a start request keeps the session fresh. *)
Lemma start_recording_fresh mic out (w : world) :
  sd_loaded E = true -> ~ registered key w ->
  just_started E key (start_recording E key mic out w).1.
Proof.
  intros Hsd Hfree. unfold start_recording. rewrite Hsd. simpl.
  unfold bind at 1. unfold gets at 1. simpl.
  rewrite bool_decide_eq_false_2 by done.
  unfold bind at 1. unfold modify at 1. simpl.
  match goal with |- just_started _ _ (?m ?s).1 =>
    apply (inv_apply (just_started E key) m s) end.
  - inv_walk_with fresh_hook; fresh_side.
  - exists new_bundle. destruct w; simpl. rewrite lookup_insert_eq.
    repeat split; try done.
Qed.

(** A start request writes to no entry of the table but its own. *)
Lemma start_recording_others k mic out (w : world) :
  forall k', k' <> k ->
    _recordings (start_recording E k mic out w).1 !! k' = _recordings w !! k'.
Proof.
  intros k' Hk.
  apply (inv_apply (fun s => _recordings s !! k' = _recordings w !! k')
           (start_recording E k mic out) w); [|done].
  unfold start_recording. capture_walk; apply inv_modify;
    first [ intros [] ?; simpl in *; by rewrite ?lookup_insert_ne, ?lookup_alter_ne by done ].
Qed.

End Started.

(** X16. A session that is started and stopped with no audio delivered in
    between: when both calls return, the stop result repeats the paths of the
    start result (the audio directory being the same), reports zero frames on
    both tracks at 48 kHz mono, the table is back to what it was before the
    start, and every reported file whose close succeeds is an empty closed
    track. *)
Theorem start_then_stop_round_trip (E E' : env) (key : string)
    (mic out : option string) (w w1 w2 : world) (r1 r2 : result) :
  sd_loaded E = true -> ~ registered key w ->
  audio_dir E' = audio_dir E ->
  start_recording E key mic out w = (w1, Return r1) ->
  stop_recording E' key w1 = (w2, Return r2) ->
  _recordings w2 = _recordings w /\
  r2 !! "mic_path" = r1 !! "mic_path" /\
  r2 !! "sys_path" = r1 !! "sys_path" /\
  r2 !! "mic_frames" = Some (PInt 0) /\
  r2 !! "sys_frames" = Some (PInt 0) /\
  r2 !! "rate" = Some (PInt 48000) /\
  r2 !! "channels" = Some (PInt 1) /\
  forall k p, r2 !! k = Some (PStr p) -> k <> "sys_backend" ->
    wav_close_ok E' p = true ->
    wavs w2 !! p = Some (closed_copy fresh_track).
Proof.
  intros Hsd Hfree Hdir Hstart Hstop.
  pose proof (start_recording_fresh E key mic out w Hsd Hfree) as Hj.
  rewrite Hstart in Hj. simpl in Hj.
  destruct Hj as (b & Hb & Hm & Hs & Ht & Hmw & Hsw).
  destruct (start_recording_result E key mic out w w1 r1 Hsd Hfree Hstart)
    as (b' & Hb' & Hr1).
  assert (b' = b) as -> by congruence.
  pose proof (stop_recording_result E' key w1 w2 b r2 Hb Hstop) as Hr2.
  pose proof (stop_recording_table E' key w1) as Htab.
  pose proof (stop_recording_files E' key w1 b Hb) as Hfiles.
  rewrite Hstop in Htab, Hfiles. simpl in Htab, Hfiles.
  rewrite Hdir, Hm, Hs, Ht in Hr2.
  split; [|split; [|split; [|split; [|split; [|split; [|split]]]]]].
  - rewrite Htab. apply map_eq. intros k.
    destruct (decide (k = key)) as [->|Hk].
    + rewrite lookup_delete_eq. symmetry. apply eq_None_not_Some. exact Hfree.
    + rewrite lookup_delete_ne by done.
      pose proof (start_recording_others E key mic out w k Hk) as Ho.
      by rewrite Hstart in Ho.
  - by rewrite Hr1, Hr2.
  - by rewrite Hr1, Hr2.
  - by rewrite Hr2.
  - by rewrite Hr2.
  - by rewrite Hr2.
  - by rewrite Hr2.
  - intros k p Hk Hnb Hclose. rewrite Hfiles.
    assert ((mic_wav b <> None /\
             p = path_join (path_join (audio_dir E) key) "mic.wav") \/
            (sys_wav b <> None /\
             p = path_join (path_join (audio_dir E) key) "system.wav")) as Hp.
    { rewrite Hr2 in Hk.
      destruct (decide (k = "mic_path")) as [->|H1].
      { rewrite lookup_insert_eq in Hk. destruct (mic_wav b); [|done].
        injection Hk as <-. left. by split. }
      rewrite lookup_insert_ne in Hk by done.
      destruct (decide (k = "sys_path")) as [->|H2].
      { rewrite lookup_insert_eq in Hk. destruct (sys_wav b); [|done].
        injection Hk as <-. right. by split. }
      rewrite lookup_insert_ne in Hk by done.
      destruct (decide (k = "mic_frames")) as [->|H3].
      { by rewrite lookup_insert_eq in Hk. }
      rewrite lookup_insert_ne in Hk by done.
      destruct (decide (k = "sys_frames")) as [->|H4].
      { by rewrite lookup_insert_eq in Hk. }
      rewrite lookup_insert_ne in Hk by done.
      destruct (decide (k = "rate")) as [->|H5].
      { by rewrite lookup_insert_eq in Hk. }
      rewrite lookup_insert_ne in Hk by done.
      destruct (decide (k = "channels")) as [->|H6].
      { by rewrite lookup_insert_eq in Hk. }
      rewrite lookup_insert_ne in Hk by done.
      by apply lookup_singleton_Some in Hk as [<- _]. }
    destruct Hp as [[Hw ->]|[Hw ->]].
    + destruct (mic_wav b) as [q|] eqn:Hq; [|done].
      destruct (Hmw q eq_refl) as [-> Hf].
      rewrite bool_decide_eq_true_2 by (by left). by rewrite Hf.
    + destruct (sys_wav b) as [q|] eqn:Hq; [|done].
      destruct (Hsw q eq_refl) as [-> Hf].
      rewrite bool_decide_eq_true_2 by (by right). by rewrite Hf.
Qed.

Example stop_after_default_start :
  stop_recording (host true true true) "m1" recording_m1
  = (stopped_m1,
     Return {[ "mic_path" := PStr "audio/m1/mic.wav";
               "sys_path" := PStr "audio/m1/system.wav";
               "mic_frames" := PInt 0; "sys_frames" := PInt 0;
               "rate" := PInt 48000; "channels" := PInt 1;
               "sys_backend" := PStr "sounddevice" ]}).
Proof. vm_compute. reflexivity. Qed.

Lemma start_then_stop_round_trip_witness :
  let r1 : result := {[ "mic_path" := PStr "audio/m1/mic.wav";
                        "sys_path" := PStr "audio/m1/system.wav" ]} in
  let r2 : result := {[ "mic_path" := PStr "audio/m1/mic.wav";
                        "sys_path" := PStr "audio/m1/system.wav";
                        "mic_frames" := PInt 0; "sys_frames" := PInt 0;
                        "rate" := PInt 48000; "channels" := PInt 1;
                        "sys_backend" := PStr "sounddevice" ]} in
  _recordings stopped_m1 = _recordings empty_world /\
  r2 !! "mic_path" = r1 !! "mic_path" /\
  r2 !! "sys_path" = r1 !! "sys_path" /\
  r2 !! "mic_frames" = Some (PInt 0) /\
  r2 !! "sys_frames" = Some (PInt 0) /\
  r2 !! "rate" = Some (PInt 48000) /\
  r2 !! "channels" = Some (PInt 1) /\
  forall k p, r2 !! k = Some (PStr p) -> k <> "sys_backend" ->
    wav_close_ok (host true true true) p = true ->
    wavs stopped_m1 !! p = Some (closed_copy fresh_track).
Proof.
  exact (start_then_stop_round_trip (host true true true) (host true true true)
           "m1" None None empty_world recording_m1 stopped_m1 _ _
           eq_refl (empty_world_unregistered "m1") eq_refl
           start_on_default_devices stop_after_default_start).
Defined.

(* ===================================================================== *)
(** * The format of the track files *)
(* ===================================================================== *)

Lemma formatted_frame (g : world -> world) (s : world) :
  _recordings (g s) = _recordings s -> wavs (g s) = wavs s ->
  well_formatted s -> well_formatted (g s).
Proof.
  intros Hr Hw [H1 H2].
  split; [intros key b; rewrite Hr; apply H1|intros p f; rewrite Hw; apply H2].
Qed.

Lemma formatted_alter f k (s : world) :
  (forall b, target_rate (f b) = target_rate b) ->
  well_formatted s -> well_formatted (with_recordings (alter f k) s).
Proof.
  intros Hf [H1 H2]. destruct s as [recs ? ? ? ws ?]; simpl in *.
  split; [|done]. intros key b. simpl.
  destruct (decide (k = key)) as [->|Hne].
  - rewrite lookup_alter_eq. destruct (recs !! key) as [b0|] eqn:Hb; [|done].
    intros [= <-]. rewrite Hf. by apply (H1 key).
  - rewrite lookup_alter_ne by done. apply H1.
Qed.

Lemma formatted_register k (s : world) :
  well_formatted s -> well_formatted (with_recordings (<[k := new_bundle]>) s).
Proof.
  intros [H1 H2]. destruct s as [recs ? ? ? ws ?]; simpl in *.
  split; [|done]. intros key b. simpl.
  destruct (decide (k = key)) as [->|Hne].
  - rewrite lookup_insert_eq. by intros [= <-].
  - rewrite lookup_insert_ne by done. apply H1.
Qed.

Lemma formatted_pop k (s : world) :
  well_formatted s -> well_formatted (with_recordings (delete k) s).
Proof.
  intros [H1 H2]. destruct s as [recs ? ? ? ws ?]; simpl in *.
  split; [|done]. intros key b. simpl.
  rewrite lookup_delete_Some. intros [_ Hb]. by apply (H1 key).
Qed.

Lemma formatted_write path f (s : world) :
  track_format f ->
  well_formatted s -> well_formatted (with_wavs (<[path := f]>) s).
Proof.
  intros Hf [H1 H2]. destruct s as [recs ? ? ? ws ?]; simpl in *.
  split; [done|]. intros p f'. simpl.
  destruct (decide (path = p)) as [->|Hne].
  - rewrite lookup_insert_eq. by intros [= <-].
  - rewrite lookup_insert_ne by done. apply H2.
Qed.

Lemma formatted_close path (s : world) :
  well_formatted s ->
  well_formatted (with_wavs (alter (fun f =>
    WaveWrite (w_channels f) (w_sampwidth f) (w_framerate f) (w_data f) true)
    path) s).
Proof.
  intros [H1 H2]. destruct s as [recs ? ? ? ws ?]; simpl in *.
  split; [done|]. intros p f'. simpl.
  destruct (decide (path = p)) as [->|Hne].
  - rewrite lookup_alter_eq. destruct (ws !! p) as [f0|] eqn:Hf; [|done].
    intros [= <-]. exact (H2 p f0 Hf).
  - rewrite lookup_alter_ne by done. apply H2.
Qed.

(** The bundle a formatted process hands out runs at 48 kHz. *)
Lemma get_bundle_rate key :
  keeps well_formatted (get_bundle key) (fun b => target_rate b = 48000).
Proof.
  apply keeps_gets. intros s [H1 _].
  destruct (_recordings s !! key) as [b|] eqn:Hb; simpl; [by apply (H1 key)|done].
Qed.

Lemma writeframes_formatted (E : env) path data :
  keeps well_formatted (writeframes E path data) (fun _ => True).
Proof.
  intros s Hs. split; [|done].
  unfold writeframes, bind, gets, check, modify, ret, raise. simpl.
  destruct (wavs s !! path) as [f|] eqn:Hf; [|done].
  destruct (w_closed f); [done|].
  destruct (wav_write_ok E path data); simpl; [|done].
  apply formatted_write; [|done]. exact (proj2 Hs path f Hf).
Qed.

Ltac formatted_hook :=
  first
    [ progress unfold resolve_device, open_system_fallback, to_int
    | apply writeframes_formatted
    | match goal with
      | |- keeps _ (bind (get_bundle _) (fun b => bind (_open_wav _ _ _ _) _)) _ =>
          eapply keeps_bind; [apply get_bundle_rate|];
          let Hrate := fresh "Hrate" in intros ? Hrate; rewrite Hrate
      end ].

Ltac formatted_side :=
  apply inv_modify; intros ? ?;
  first
    [ apply formatted_register; assumption
    | apply formatted_pop; assumption
    | apply formatted_close; assumption
    | apply formatted_write; [by repeat split|assumption]
    | apply formatted_alter; [by intros []|assumption]
    | apply formatted_frame; [by destruct_all world|by destruct_all world|assumption] ].

Section Formatted.
Variable E : env.

Lemma start_recording_formatted key mic out :
  keeps well_formatted (start_recording E key mic out) (fun _ => True).
Proof. unfold start_recording. inv_walk_with formatted_hook; formatted_side. Qed.

Lemma stop_recording_formatted key :
  keeps well_formatted (stop_recording E key) (fun _ => True).
Proof.
  unfold stop_recording, stop_and_close, close_quietly.
  inv_walk_with formatted_hook; formatted_side.
Qed.

Lemma deliver_formatted D key p indata :
  keeps well_formatted (deliver E D key p indata) (fun _ => True).
Proof. destruct p; inv_walk_with formatted_hook; formatted_side. Qed.

End Formatted.

Lemma reachable_formatted sd sc (w : world) :
  reachable sd sc w -> well_formatted w.
Proof.
  induction 1 as [|E' key mic out w Hr IH|E' key w Hr IH|E' D key p blk w Hr IH].
  - split; intros ? ?; simpl; by rewrite lookup_empty.
  - by apply (inv_apply _ _ _ (start_recording_formatted E' key mic out)).
  - by apply (inv_apply _ _ _ (stop_recording_formatted E' key)).
  - by apply (inv_apply _ _ _ (deliver_formatted E' D key p blk)).
Qed.

(** X17. Every track file a process ever holds is mono, 16-bit, 48 kHz,
    whatever the devices' own rates and channel counts, and a stop request
    that returns for a registered key reports that format: rate 48000 and one
    channel. *)
Theorem tracks_are_mono_16_bit_48_khz (sd sc : bool) (w : world) :
  reachable sd sc w ->
  (forall path f, wavs w !! path = Some f ->
     w_channels f = 1 /\ w_sampwidth f = 2 /\ w_framerate f = 48000) /\
  (forall E key w' r,
     registered key w -> stop_recording E key w = (w', Return r) ->
     r !! "rate" = Some (PInt 48000) /\ r !! "channels" = Some (PInt 1)).
Proof.
  intros [Hrate Hfiles]%reachable_formatted. split; [exact Hfiles|].
  intros E key w' r [b Hb] Hstop.
  rewrite (stop_recording_result E key w w' b r Hb Hstop).
  rewrite (Hrate key b Hb). done.
Qed.

Lemma tracks_are_mono_16_bit_48_khz_witness :
  (forall path f, wavs recording_m1 !! path = Some f ->
     w_channels f = 1 /\ w_sampwidth f = 2 /\ w_framerate f = 48000) /\
  (forall E key w' r,
     registered key recording_m1 -> stop_recording E key recording_m1 = (w', Return r) ->
     r !! "rate" = Some (PInt 48000) /\ r !! "channels" = Some (PInt 1)).
Proof.
  exact (tracks_are_mono_16_bit_48_khz true true recording_m1
           (reach_start true true (host true true true) "m1" None None
              empty_world (reach_init true true) eq_refl eq_refl)).
Defined.

(* ===================================================================== *)
(** * What a capture callback touches *)
(* ===================================================================== *)

Section Callbacks.
Variables (E : env) (D : dsp) (key : string) (p : feed).

(** A block either leaves the process as it is, or is appended to the open
    file the session holds for the feed and counted. *)
Lemma write_block_run (f32 : samples D) (s : world) :
  (write_block E D key p f32 s).1 = s \/
  exists b path f,
    _recordings s !! key = Some b /\ feed_wav p b = Some path /\
    wavs s !! path = Some f /\ w_closed f = false /\
    (write_block E D key p f32 s).1
    = with_recordings (alter (count_frames p (frame_count D f32)) key)
        (with_wavs (<[path := appended (encode_pcm16 D f32) f]>) s).
Proof.
  unfold write_block, bind, get_bundle, gets. simpl.
  destruct (_recordings s !! key) as [b|] eqn:Hb; simpl.
  2:{ left. by destruct p. }
  destruct (feed_wav p b) as [path|] eqn:Hp; [|by left].
  unfold try_except, bind, writeframes, bind, gets, check, update_bundle, modify,
    ret, raise. simpl.
  destruct (wavs s !! path) as [f|] eqn:Hf; [|by left].
  destruct (w_closed f) eqn:Hc; [by left|].
  destruct (wav_write_ok E path (encode_pcm16 D f32)); simpl; [|by left].
  right. exists b, path, f. repeat split; try done. by destruct p.
Qed.

Lemma deliver_is_write_block (indata : block D) (s : world) :
  exists f32, deliver E D key p indata s = write_block E D key p f32 s.
Proof.
  destruct p; simpl; unfold _mic_cb, _sys_cb, _sc_loop_turn, bind, get_bundle, gets;
    simpl; eexists; reflexivity.
Qed.

Lemma count_frames_only n b :
  without_counters (count_frames p n b) = without_counters b.
Proof. by destruct p. Qed.

End Callbacks.

(** X18. A block handed to the session registered under a key by one of
    that session's own feeds (either stream callback or a turn of the
    fallback loop, whose closure holds the registered bundle) touches nothing
    but that session: streams, threads, stop events and the log stay as they
    are, no other session's bundle changes, its own bundle changes in the
    frame counters only, and every file is either left as it was or is the
    open file the bundle holds for that feed, with bytes appended at its
    end. *)
Theorem callback_only_appends_to_own_track (E : env) (D : dsp) (key : string)
    (p : feed) (indata : block D) (w : world) (b : _StreamBundle) :
  _recordings w !! key = Some b ->
  let w' := (deliver E D key p indata w).1 in
  streams w' = streams w /\ threads w' = threads w /\
  stop_flags w' = stop_flags w /\ log w' = log w /\
  (forall k, k <> key -> _recordings w' !! k = _recordings w !! k) /\
  (exists b', _recordings w' !! key = Some b' /\
              without_counters b' = without_counters b) /\
  forall path,
    wavs w' !! path = wavs w !! path \/
    (feed_wav p b = Some path /\
     exists f data,
       wavs w !! path = Some f /\ w_closed f = false /\
       wavs w' !! path = Some (appended data f)).
Proof.
  intros Hreg w'. subst w'.
  destruct (deliver_is_write_block E D key p indata w) as [f32 ->].
  destruct (write_block_run E D key p f32 w)
    as [->|(b0 & path & f & Hb & Hp & Hf & Hc & ->)].
  { repeat split; try done; [by exists b|by left]. }
  assert (b0 = b) as -> by congruence.
  destruct w as [recs ss ts fs ws lg]; simpl in *.
  split; [done|]. split; [done|]. split; [done|]. split; [done|]. split; [|split].
  - intros k Hk. by rewrite lookup_alter_ne.
  - exists (count_frames p (frame_count D f32) b).
    rewrite lookup_alter_eq, Hb. simpl. split; [done|].
    apply count_frames_only.
  - intros path'. destruct (decide (path = path')) as [<-|Hne].
    + right. split; [done|].
      exists f, (encode_pcm16 D f32). by rewrite lookup_insert_eq.
    + left. by rewrite lookup_insert_ne.
Qed.

Lemma callback_only_appends_to_own_track_witness :
  let w' := (deliver (host true true true) failing_resampler "m1" MicCallback
               [7; 8; 9] recording_m1).1 in
  streams w' = streams recording_m1 /\ threads w' = threads recording_m1 /\
  stop_flags w' = stop_flags recording_m1 /\ log w' = log recording_m1 /\
  (forall k, k <> "m1" -> _recordings w' !! k = _recordings recording_m1 !! k) /\
  (exists b', _recordings w' !! "m1" = Some b' /\
              without_counters b'
              = without_counters
                  (StreamBundle
                     (Some (StreamRequest 0 2 44100 4096 false))
                     (Some (StreamRequest 1 2 48000 4096 true))
                     (Some "audio/m1/mic.wav") (Some "audio/m1/system.wav")
                     0 0 None None (Some 44100) (Some 2) (Some 48000) (Some 2)
                     (Some "sounddevice") 48000)) /\
  forall path,
    wavs w' !! path = wavs recording_m1 !! path \/
    (Some "audio/m1/mic.wav" = Some path /\
     exists f data,
       wavs recording_m1 !! path = Some f /\ w_closed f = false /\
       wavs w' !! path = Some (appended data f)).
Proof.
  exact (callback_only_appends_to_own_track (host true true true)
           failing_resampler "m1" MicCallback [7; 8; 9] recording_m1 _
           recording_m1_bundle).
Defined.

Example callback_appends_block :
  let w := (deliver (host true true true) failing_resampler "m1" MicCallback
              [7; 8; 9] recording_m1).1 in
  w_data <$> wavs w !! "audio/m1/mic.wav" = Some [7; 8; 9] /\
  w_data <$> wavs w !! "audio/m1/system.wav" = Some [] /\
  mic_frames <$> _recordings w !! "m1" = Some 3.
Proof. repeat split; vm_compute; reflexivity. Qed.

(* ===================================================================== *)
(** * The stop endpoint *)
(* ===================================================================== *)

Section Endpoints.
Import Api.

Lemma empty_info k : get (∅ : result) k = PNone.
Proof. unfold get. by rewrite lookup_empty. Qed.

(** X19. The stop endpoint never fails because of the capture layer: it
    returns exactly when the database section does, always with [ok] true,
    and the session is unregistered either way. Its [frames] field is always
    null (the capture layer reports no key of that name); [rate] is null or
    48000, [channels] null or 1, and [sys_backend] null, "sounddevice" or
    "soundcard". *)
Theorem stop_meeting_response (sd sc : bool) (E : env) (persisted : bool)
    (meeting_id : Z) (w : world) :
  reachable sd sc w ->
  let r := stop_meeting E persisted meeting_id w in
  ~ registered (pretty meeting_id) r.1 /\
  (returns r <-> persisted = true) /\
  forall resp, r.2 = Return resp ->
    ok resp = true /\ frames resp = PNone /\
    (rate resp = PNone \/ rate resp = PInt 48000) /\
    (channels resp = PNone \/ channels resp = PInt 1) /\
    (Api.sys_backend resp = PNone \/ Api.sys_backend resp = PStr "sounddevice" \/
     Api.sys_backend resp = PStr "soundcard").
Proof.
  intros Hreach r. subst r.
  pose proof (stop_recording_unregisters E (pretty meeting_id) w) as Hgone.
  pose proof (reachable_formatted sd sc w Hreach) as [Hrate _].
  pose proof (reachable_consistent sd sc w Hreach) as Hcons.
  unfold stop_meeting, bind, try_except.
  destruct (stop_recording E (pretty meeting_id) w) as [w1 [info|e]] eqn:Hstop;
    simpl in *.
  - destruct persisted; simpl; (split; [done|]); (split; [done|]);
      intros resp; [|done]. intros [= <-]. simpl.
    destruct (_recordings w !! pretty meeting_id) as [b|] eqn:Hb.
    + rewrite (stop_recording_result E _ w w1 b info Hb Hstop).
      split; [done|]. split; [done|].
      split; [right; unfold get; simpl; by rewrite (Hrate _ b Hb)|].
      split; [by right|].
      destruct (Hcons _ b Hb) as ([Hn|[Hn|Hn]] & _); unfold get; simpl;
        rewrite Hn; simpl; auto.
    + destruct (stop_recording_unknown_key E _ w Hb) as [_ Hr].
      rewrite Hstop in Hr. injection Hr as ->.
      rewrite !empty_info. auto 10.
  - destruct persisted; simpl; (split; [done|]); (split; [done|]);
      intros resp; [|done]. intros [= <-]. simpl.
    rewrite !empty_info. auto 10.
Qed.

Lemma stop_meeting_response_witness :
  let r := stop_meeting (host true true true) true 7 recording_m1 in
  ~ registered (pretty 7) r.1 /\
  (returns r <-> true = true) /\
  forall resp, r.2 = Return resp ->
    ok resp = true /\ frames resp = PNone /\
    (rate resp = PNone \/ rate resp = PInt 48000) /\
    (channels resp = PNone \/ channels resp = PInt 1) /\
    (Api.sys_backend resp = PNone \/ Api.sys_backend resp = PStr "sounddevice" \/
     Api.sys_backend resp = PStr "soundcard").
Proof.
  exact (stop_meeting_response true true (host true true true) true 7
           recording_m1
           (reach_start true true (host true true true) "m1" None None
              empty_world (reach_init true true) eq_refl eq_refl)).
Defined.

Example stop_meeting_reports_no_frames :
  (stop_meeting (host true true true) true 7
     (start_recording (host true true true) "7" None None empty_world).1).2
  = Return (mkStopResponse true PNone (PInt 48000) (PInt 1) (PStr "sounddevice")).
Proof. vm_compute. reflexivity. Qed.

(** X20. A meeting on a host without the audio backend: the start endpoint
    swallows the capture layer's error and returns the meeting's id as if
    recording had begun, nothing is registered, and the stop endpoint then
    answers [ok] with every other field null. *)
Theorem meeting_without_audio_backend (E E' : env) (meeting_id : Z)
    (mic out : option string) (w : world) :
  sd_loaded E = false -> ~ registered (pretty meeting_id) w ->
  start_meeting E (Some meeting_id) mic out w
  = (w, Return {[ "meeting_id" := PStr (pretty meeting_id) ]}) /\
  stop_meeting E' true meeting_id w
  = (w, Return (mkStopResponse true PNone PNone PNone PNone)).
Proof.
  intros Hsd Hfree. split.
  - unfold start_meeting, bind, lift, try_except, ret. simpl.
    by rewrite (start_without_backend E _ mic out w Hsd).
  - assert (_recordings w !! pretty meeting_id = None) as Hk
      by (by apply eq_None_not_Some).
    destruct (stop_recording_unknown_key E' _ w Hk) as [H1 H2].
    unfold stop_meeting, bind, try_except, check, ret.
    destruct (stop_recording E' (pretty meeting_id) w) as [w1 [info|e]];
      simpl in *; [|done].
    injection H2 as ->. subst w1. by rewrite !empty_info.
Qed.

Lemma meeting_without_audio_backend_witness :
  start_meeting (host false false false) (Some 7) None None empty_world
  = (empty_world, Return {[ "meeting_id" := PStr (pretty 7) ]}) /\
  stop_meeting (host false false false) true 7 empty_world
  = (empty_world, Return (mkStopResponse true PNone PNone PNone PNone)).
Proof.
  exact (meeting_without_audio_backend (host false false false)
           (host false false false) 7 None None empty_world eq_refl
           (empty_world_unregistered (pretty 7))).
Defined.

Example start_meeting_with_busy_microphone :
  (start_meeting busy_mic_host (Some 7) None None empty_world).2
  = Return {[ "meeting_id" := PStr "7" ]} /\
  (stop_meeting busy_mic_host true 7
     (start_meeting busy_mic_host (Some 7) None None empty_world).1).2
  = Return (mkStopResponse true PNone (PInt 48000) (PInt 1) PNone).
Proof. split; vm_compute; reflexivity. Qed.

End Endpoints.


(* ===================================================================== *)
(** * The backend a session reports, and sessions whose start failed *)
(* ===================================================================== *)

Section Identified.
Variables (E : env) (key : string).






End Identified.

Section WhileRecording.
Variable key : string.




End WhileRecording.


Lemma host_refuses_loopback sd sc : loopback_refused (host sd sc false) 1.
Proof. intros [dv ? ? ? ?] Hd. simpl in Hd. subst dv. reflexivity. Qed.





(** A block in between changes nothing about what the stop result says of
    the backend. *)
Example backend_reported_after_audio :
  (stop_recording (host true true false) "m1"
     (deliver (host true true false) failing_resampler "m1" SoundcardLoop
        [1; 2; 3] fallback_m1).1).2
  = Return {[ "mic_path" := PStr "audio/m1/mic.wav";
              "sys_path" := PStr "audio/m1/system.wav";
              "mic_frames" := PInt 0; "sys_frames" := PInt 3;
              "rate" := PInt 48000; "channels" := PInt 1;
              "sys_backend" := PStr "soundcard" ]}.
Proof. vm_compute. reflexivity. Qed.

Section FailedStart.
Variables (E : env) (key : string).

(** A microphone block of a registered session goes through the resampler
    and on to the track. *)
Lemma deliver_mic_registered E2 D (indata : block D) (w : world) b :
  _recordings w !! key = Some b ->
  deliver E2 D key MicCallback indata w
  = write_block E2 D key MicCallback
      (resample_or_pass D (mic_rate b) (target_rate b) (to_mono_f32 D indata)) w.
Proof.
  intros Hb. simpl. unfold _mic_cb, bind.
  by rewrite (get_bundle_registered _ _ _ Hb).
Qed.

(** A start request that raises was made for a key that was not recording. *)
Lemma raising_start_was_free mic out (w w' : world) e :
  sd_loaded E = true ->
  start_recording E key mic out w = (w', Raise e) -> ~ registered key w.
Proof.
  intros Hsd Hstart Hreg.
  rewrite (start_on_registered_key E key mic out w Hsd Hreg) in Hstart.
  discriminate Hstart.
Qed.

End FailedStart.

(** C10. [start_recording] registers the key before it opens any stream, so
    a start that raises partway leaves the key registered with whatever was
    set up so far.  A microphone stream the bundle holds is still running,
    and the blocks it delivers are still appended to the open microphone
    track and counted.  A further start for the key returns an empty result
    and changes nothing.  Neither callbacks nor start requests nor stop
    requests for other keys remove the entry.  [stop_recording] for the key
    removes it and releases what the bundle holds: every track file is
    closed, and when the call returns the streams are stopped, the stop
    event of the reader thread is set and the thread, if it ends within the
    timeout, is joined. *)
Theorem failed_start_leaves_session_registered
    (sc : bool) (E : env) (key : string) (mic out : option string)
    (w w' : world) (e : pyexn) :
  reachable true sc w ->
  sd_loaded E = true ->
  start_recording E key mic out w = (w', Raise e) ->
  exists b,
    _recordings w' !! key = Some b /\
    (is_Some (mic_stream b) -> (key, Mic) ∈ streams w') /\
    (forall p, mic_wav b = Some p ->
       exists f,
         wavs w' !! p = Some f /\ w_closed f = false /\
         forall E2 D (indata : block D),
           let f32 := resample_or_pass D (mic_rate b) (target_rate b)
                        (to_mono_f32 D indata) in
           wav_write_ok E2 p (encode_pcm16 D f32) = true ->
           wavs (deliver E2 D key MicCallback indata w').1 !! p
           = Some (appended (encode_pcm16 D f32) f) /\
           mic_frames <$> _recordings (deliver E2 D key MicCallback indata w').1 !! key
           = Some (mic_frames b + frame_count D f32)) /\
    (forall E2 mic2 out2, sd_loaded E2 = true ->
       start_recording E2 key mic2 out2 w' = (w', Return ∅)) /\
    (forall E2 D k p indata, registered key (deliver E2 D k p indata w').1) /\
    (forall E2 k mic2 out2, registered key (start_recording E2 k mic2 out2 w').1) /\
    (forall E2 k, k <> key -> registered key (stop_recording E2 k w').1) /\
    (forall E2,
       ~ registered key (stop_recording E2 key w').1 /\
       (forall p, mic_wav b = Some p \/ sys_wav b = Some p ->
          exists f, wavs (stop_recording E2 key w').1 !! p = Some f /\
                    w_closed f = true) /\
       (returns (stop_recording E2 key w') ->
          (is_Some (mic_stream b) -> (key, Mic) ∉ streams (stop_recording E2 key w').1) /\
          (is_Some (sys_stream b) -> (key, System) ∉ streams (stop_recording E2 key w').1) /\
          (is_Some (sys_stop_event b) -> key ∈ stop_flags (stop_recording E2 key w').1) /\
          (is_Some (sys_thread b) -> thread_join_ok E2 = true ->
           key ∉ threads (stop_recording E2 key w').1))).
Proof.
  intros Hr Hsd Hstart.
  pose proof (raising_start_was_free E key mic out w w' e Hsd Hstart) as Hfree.
  pose proof (start_recording_fresh E key mic out w Hsd Hfree) as Hfresh.
  rewrite Hstart in Hfresh. simpl in Hfresh.
  destruct Hfresh as (b & Hb & _ & _ & _ & Hmw & Hsw).
  assert (registered key w') as Hreg by (by exists b).
  assert (consistent w') as Hc.
  { eapply (inv_result consistent); [apply start_recording_consistent| |exact Hstart].
    by eapply reachable_consistent. }
  exists b. split; [exact Hb|]. split.
  { by apply (Hc key b Hb). }
  split.
  { intros p Hp. destruct (Hmw p Hp) as [-> Hf].
    exists fresh_track. split; [done|]. split; [done|].
    intros E2 D indata f32 Hok. subst f32.
    rewrite (deliver_mic_registered key E2 D indata w' b Hb).
    by apply (write_block_appends E2 D key MicCallback _ w' b _ fresh_track). }
  split.
  { intros E2 mic2 out2 Hsd2. by apply start_on_registered_key. }
  split.
  { intros E2 D k p indata.
    by apply (inv_apply _ _ _ (deliver_registered E2 key D k p indata)). }
  split.
  { intros E2 k mic2 out2.
    by apply (inv_apply _ _ _ (start_recording_registered E2 key k mic2 out2)). }
  split.
  { intros E2 k Hk. unfold registered.
    rewrite stop_recording_table, lookup_delete_ne by done. exact Hreg. }
  intros E2. split; [apply stop_recording_unregisters|]. split.
  { intros p Hp. rewrite (stop_recording_files E2 key w' b Hb).
    rewrite bool_decide_eq_true_2 by done.
    destruct Hp as [Hp|Hp].
    - destruct (Hmw p Hp) as [_ ->]. by eexists.
    - destruct (Hsw p Hp) as [_ ->]. by eexists. }
  intros Hret.
  destruct (stop_recording E2 key w') as [w2 [r|e2]] eqn:Hstop; [|done].
  destruct (stop_recording_stops_streams E2 key w' w2 b r Hb Hstop) as [H1 H2].
  pose proof (stop_recording_releases E2 key w' b Hb) as Hrel.
  rewrite Hstop in Hrel. destruct (Hrel I) as [H3 H4]. done.
Qed.

Example failed_start_then_stop :
  stop_recording (host true true true) "m1" failed_m1
  = ((stop_recording (host true true true) "m1" failed_m1).1,
     Return {[ "mic_path" := PStr "audio/m1/mic.wav"; "sys_path" := PNone;
               "mic_frames" := PInt 0; "sys_frames" := PInt 0;
               "rate" := PInt 48000; "channels" := PInt 1;
               "sys_backend" := PNone ]}) /\
  streams (stop_recording (host true true true) "m1" failed_m1).1 = ∅ /\
  wavs (stop_recording (host true true true) "m1" failed_m1).1
    !! "audio/m1/mic.wav"
  = Some (WaveWrite 1 2 48000 [] true).
Proof. repeat split; vm_compute; reflexivity. Qed.

Lemma failed_start_leaves_session_registered_witness :
  registered "m1" failed_m1 /\
  start_recording (host true true true) "m1" None None failed_m1
  = (failed_m1, Return ∅) /\
  ~ registered "m1" (stop_recording (host true true true) "m1" failed_m1).1.
Proof.
  assert (start_recording (host true false false) "m1" None None empty_world
          = (failed_m1, Raise LibraryError)) as Hstart
    by (vm_compute; reflexivity).
  pose proof (failed_start_leaves_session_registered false
                (host true false false) "m1" None None empty_world failed_m1
                LibraryError (reach_init true false) eq_refl Hstart)
    as (b & Hb & _ & _ & H3 & _ & _ & _ & H6).
  split; [by exists b|]. split; [|exact (proj1 (H6 (host true true true)))].
  exact (H3 (host true true true) None None eq_refl).
Defined.
